(** * polymarket-trading-bot: core components, embedded and verified

    A shallow embedding of the core of the trading bot

      - [core/spike_detector.py]     (module [Spike])
      - [core/connection_pool.py]    (module [Pool])
      - [core/market_scanner.py]     (module [Scanner])
      - [core/websocket_manager.py]  (module [WsManager])
      - [strategy_orchestrator.py]   (module [Orchestrator])

    and of the code that drives it

      - [bot_v2.py]                              (module [BotV2])
      - [strategies/async_latency_arbitrage.py]  (module [LatencyArb])
      - [utils.py]                               (module [Utils])

    Conventions of the embedding.

      - Python numbers (prices, timestamps, latencies) are exact integers
        [Z]; a quotient that the source computes, and capital, are kept in
        [Q]. Where a float sum is accumulated its rounding matters, and the
        float operations are kept abstract.
      - The objects behind an interface (a strategy, the catalog, the
        socket) are given by what the code reads of them: the outcome of
        each call it makes.
      - [time.time()] is an input: every operation that reads the clock
        takes the value it read as an argument; [detect_spike], whose two
        reads are compared across calls, takes one argument per read.
      - A call that can raise returns an [Outcome].
      - dicts keyed by strings are [gmap string _], sets of strings are
        [gset string]. *)

From Stdlib Require Import ZArith QArith List Lia Bool Ascii String.
From stdpp Require Import base option list gmap sets strings.

Close Scope Q_scope.
Local Open Scope Z_scope.

(** The result of a call that may raise. *)
Inductive Outcome (A : Type) : Type :=
| Returned (a : A)
| Raised.
Arguments Returned {A} a.
Arguments Raised {A}.

(** [a in b] on Python strings. *)
Fixpoint contains (sub s : string) : bool :=
  String.prefix sub s ||
  match s with
  | EmptyString => false
  | String _ s' => contains sub s'
  end.

(** [str.lower()], on the ASCII letters. *)
Definition lower_ascii (c : ascii) : ascii :=
  let n := nat_of_ascii c in
  if (65 <=? n)%nat && (n <=? 90)%nat then ascii_of_nat (n + 32) else c.

Fixpoint lower (s : string) : string :=
  match s with
  | EmptyString => EmptyString
  | String c s' => String (lower_ascii c) (lower s')
  end.

(* ================================================================== *)
(** ** core/spike_detector.py *)
(* ================================================================== *)

Module Spike.

(** One element of [price_history]: [{'price': .., 'timestamp': ..}]. *)
Record PriceEntry : Type := mkEntry {
  price : Z;
  timestamp : Z
}.

Inductive Direction : Type := Up | Down.

(** The [spike_info] dict returned by [detect_spike]. [spike_id] keeps
    the number [int(current['timestamp'])] that the source formats
    after the prefix [spike_]. *)
Record SpikeInfo : Type := mkInfo {
  direction : Direction;
  price_change : Z;
  price_change_pct : Q;
  old_price : Z;
  new_price : Z;
  time_window : Z;
  detection_time : Z;
  spike_id : Z
}.

(** The detector object. [history_size] is the [maxlen] of the deque. *)
Record SpikeDetector : Type := mkDetector {
  min_move : Z;
  time_window_min : Z;
  time_window_max : Z;
  cooldown_seconds : Z;
  history_size : nat;
  price_history : list PriceEntry;
  last_spike_time : Z;
  spike_count : nat
}.

(** [__init__]. *)
Definition init (mm twmin twmax cd : Z) (hs : nat) : SpikeDetector :=
  {| min_move := mm; time_window_min := twmin; time_window_max := twmax;
     cooldown_seconds := cd; history_size := hs;
     price_history := []; last_spike_time := 0; spike_count := 0 |}.

(** [SpikeDetector()] with the default arguments. *)
Definition with_defaults : SpikeDetector := init 150 3 10 30 100.

(** [deque(maxlen=n).append(x)]: the oldest entries fall out on the left. *)
Definition deque_append {A} (n : nat) (l : list A) (x : A) : list A :=
  let l' := l ++ [x] in drop (length l' - n)%nat l'.

(** [add_price(price, timestamp)]; [now] is the clock read when
    [timestamp] is [None]. *)
Definition add_price (p : Z) (ts : option Z) (now : Z) (d : SpikeDetector)
  : SpikeDetector :=
  let t := match ts with Some t => t | None => now end in
  {| min_move := min_move d; time_window_min := time_window_min d;
     time_window_max := time_window_max d;
     cooldown_seconds := cooldown_seconds d;
     history_size := history_size d;
     price_history :=
       deque_append (history_size d) (price_history d) (mkEntry p t);
     last_spike_time := last_spike_time d;
     spike_count := spike_count d |}.

(** The test of the backward scan:
    [time_window_min <= current.timestamp - entry.timestamp <= time_window_max]. *)
Definition in_window (d : SpikeDetector) (current entry : PriceEntry) : bool :=
  let time_diff := timestamp current - timestamp entry in
  (time_window_min d <=? time_diff) && (time_diff <=? time_window_max d).

(** The [for entry in reversed(list(history)[:-1])] loop with its [break]. *)
Definition find_past (d : SpikeDetector) (current : PriceEntry)
    (prior : list PriceEntry) : option PriceEntry :=
  List.find (in_window d current) (rev prior).

Definition record_spike (t_record : Z) (d : SpikeDetector) : SpikeDetector :=
  {| min_move := min_move d; time_window_min := time_window_min d;
     time_window_max := time_window_max d;
     cooldown_seconds := cooldown_seconds d;
     history_size := history_size d;
     price_history := price_history d;
     last_spike_time := t_record;
     spike_count := S (spike_count d) |}.

Definition make_info (current past : PriceEntry) : SpikeInfo :=
  let change := price current - price past in
  {| direction := if 0 <? change then Up else Down;
     price_change := change;
     price_change_pct :=
       (inject_Z change / inject_Z (price past) * inject_Z 100)%Q;
     old_price := price past;
     new_price := price current;
     time_window := timestamp current - timestamp past;
     detection_time := timestamp current;
     spike_id := timestamp current |}.

(** [detect_spike()]. [t_check] is the clock read by the cooldown test,
    [t_record] the one stored in [last_spike_time]. The division of
    [price_change_pct] raises [ZeroDivisionError] on a zero past price,
    before anything is recorded. *)
Definition detect_spike (t_check t_record : Z) (d : SpikeDetector)
  : Outcome (option SpikeInfo) * SpikeDetector :=
  if t_check - last_spike_time d <? cooldown_seconds d then (Returned None, d)
  else if (length (price_history d) <? 2)%nat then (Returned None, d)
  else
    match last (price_history d) with
    | None => (Returned None, d)
    | Some current =>
        match find_past d current (removelast (price_history d)) with
        | None => (Returned None, d)
        | Some past =>
            if price past =? 0 then (Raised, d)
            else if min_move d <=? Z.abs (price current - price past)
            then (Returned (Some (make_info current past)),
                  record_spike t_record d)
            else (Returned None, d)
        end
    end.

(** [reset_cooldown()]. *)
Definition reset_cooldown (d : SpikeDetector) : SpikeDetector :=
  {| min_move := min_move d; time_window_min := time_window_min d;
     time_window_max := time_window_max d;
     cooldown_seconds := cooldown_seconds d;
     history_size := history_size d;
     price_history := price_history d;
     last_spike_time := 0;
     spike_count := spike_count d |}.

(** A caller's view: a sequence of calls on one detector. *)
Inductive Call : Type :=
| AddPrice (p : Z) (ts : option Z) (now : Z)
| DetectSpike (t_check t_record : Z).

(** An emitted event together with the clock value stored for it. *)
Record Emitted : Type := mkEmitted {
  emitted_at : Z;
  info : SpikeInfo
}.

(** Runs the calls in order and collects the events that [detect_spike]
    returned, oldest first. A raising call leaves the detector as it was
    and the caller goes on. *)
Fixpoint run (calls : list Call) (d : SpikeDetector)
  : list Emitted * SpikeDetector :=
  match calls with
  | [] => ([], d)
  | AddPrice p ts now :: rest => run rest (add_price p ts now d)
  | DetectSpike t1 t2 :: rest =>
      match detect_spike t1 t2 d with
      | (Returned (Some ev), d') =>
          let '(evs, d'') := run rest d' in (mkEmitted t2 ev :: evs, d'')
      | (_, d') => run rest d'
      end
  end.

(** [detect_spike] returned an event. *)
Definition emits (t_check t_record : Z) (d : SpikeDetector) : Prop :=
  exists ev, (detect_spike t_check t_record d).1 = Returned (Some ev).

(** Some pair of samples of the history, the older first, is in the
    time-window band and moves by at least [min_move]: the condition the
    specification words. *)
Definition some_pair_in_band (d : SpikeDetector) : Prop :=
  exists i j e1 e2,
    (i < j)%nat /\
    price_history d !! i = Some e1 /\ price_history d !! j = Some e2 /\
    time_window_min d <= timestamp e2 - timestamp e1 <= time_window_max d /\
    min_move d <= Z.abs (price e2 - price e1).

(** [past] is the sample the backward scan stops at: the history ends in
    [current], [past] is in the band, and everything between the two is
    outside of it. *)
Definition nearest_in_band (d : SpikeDetector) (past current : PriceEntry)
  : Prop :=
  exists older between,
    price_history d = older ++ past :: between ++ [current] /\
    in_window d current past = true /\
    Forall (fun e => in_window d current e = false) between.

(** The scenario of the specification: the three samples added in order
    to a detector with the default thresholds. *)
Definition scenario : SpikeDetector :=
  add_price 50250 (Some 5) 5
    (add_price 50050 (Some 1) 1
       (add_price 50000 (Some 0) 0 (init 150 3 10 30 100))).

(** [past] is a sample before the newest one, [current], and its age
    against [current] is in the band. *)
Definition prior_in_band (d : SpikeDetector) (past current : PriceEntry)
  : Prop :=
  exists older between,
    price_history d = older ++ past :: between ++ [current] /\
    in_window d current past = true.

(** Two samples 200 apart within four seconds, and a newest sample
    sixteen seconds later: no sample is in the band of the newest. *)
Definition stale : SpikeDetector :=
  add_price 50200 (Some 20) 20
    (add_price 50200 (Some 4) 4
       (add_price 50000 (Some 0) 0 with_defaults)).

(** The detector of [test_detect_spike_up] in
    [tests/test_spike_detector.py], for a [base_time]. *)
Definition test_detect_spike_up (base_time : Z) : SpikeDetector :=
  add_price 50200 (Some (base_time + 5)) (base_time + 5)
    (add_price 50100 (Some (base_time + 2)) (base_time + 2)
       (add_price 50050 (Some (base_time + 1)) (base_time + 1)
          (add_price 50000 (Some base_time) base_time
             (init 150 3 10 0 100)))).

(** Any two events of a run are at least [gap] apart in the values
    [key] reads off them. *)
Definition apart {A} (key : A -> Z) (gap : Z) (evs : list A) : Prop :=
  forall i j e1 e2,
    (i < j)%nat -> evs !! i = Some e1 -> evs !! j = Some e2 ->
    gap <= Z.abs (key e2 - key e1).

(** The same, event by event: every event is at least [gap] before each
    later one. *)
Fixpoint spaced (gap : Z) (evs : list Emitted) : Prop :=
  match evs with
  | [] => True
  | e :: rest =>
      Forall (fun e' => gap <= emitted_at e' - emitted_at e) rest /\
      spaced gap rest
  end.

(** Every [detect_spike] call of the list reads a clock that does not
    run backwards between its two reads. *)
Definition clock_ok (calls : list Call) : Prop :=
  Forall (fun c => match c with
                   | DetectSpike t1 t2 => t1 <= t2
                   | AddPrice _ _ _ => True
                   end) calls.

(** Two samples five seconds apart, then [detect_spike] twice, the
    second time after the cooldown and with no new sample in between. *)
Definition replayed : list Call :=
  [ AddPrice 50000 (Some 1000) 1000;
    AddPrice 50200 (Some 1005) 1005;
    DetectSpike 1005 1005;
    DetectSpike 1035 1035 ].

(** The entries that the [add_price] calls of a list append, oldest first. *)
Definition added (calls : list Call) : list PriceEntry :=
  omap (fun c => match c with
                 | AddPrice p ts now => Some (mkEntry p (default now ts))
                 | DetectSpike _ _ => None
                 end) calls.

(** The last [n] elements of a list. *)
Definition keep_last {A} (n : nat) (l : list A) : list A :=
  drop (length l - n)%nat l.

(** The dict returned by [get_stats]. *)
Record Stats : Type := mkStats {
  total_spikes : nat;
  stats_last_spike_time : Z;
  seconds_since_last_spike : Z;
  in_cooldown : bool;
  price_history_size : nat;
  stats_min_move : Z;
  stats_cooldown_seconds : Z
}.

(** [get_stats()]; [t_since] and [t_cooldown] are its two clock reads. *)
Definition get_stats (t_since t_cooldown : Z) (d : SpikeDetector) : Stats :=
  {| total_spikes := spike_count d;
     stats_last_spike_time := last_spike_time d;
     seconds_since_last_spike :=
       if 0 <? last_spike_time d then t_since - last_spike_time d else 0;
     in_cooldown := t_cooldown - last_spike_time d <? cooldown_seconds d;
     price_history_size := length (price_history d);
     stats_min_move := min_move d;
     stats_cooldown_seconds := cooldown_seconds d |}.

(** A detector whose sample in the band has price zero. *)
Definition from_zero : SpikeDetector :=
  add_price 200 (Some 5) 5 (add_price 0 (Some 0) 0 with_defaults).

End Spike.

(* ================================================================== *)
(** ** core/connection_pool.py *)
(* ================================================================== *)

Module Pool.

Inductive ConnectionState : Type :=
| HEALTHY | DEGRADED | UNHEALTHY | CIRCUIT_OPEN.

Definition state_eqb (a b : ConnectionState) : bool :=
  match a, b with
  | HEALTHY, HEALTHY | DEGRADED, DEGRADED
  | UNHEALTHY, UNHEALTHY | CIRCUIT_OPEN, CIRCUIT_OPEN => true
  | _, _ => false
  end.

(** The per-connection dict of [register_connection]; the connection
    object itself is opaque to the pool and left out. [latency_samples]
    is absent until the first [record_latency]. *)
Record ConnData : Type := mkConn {
  registered_at : Z;
  last_check : Z;
  conn_error_count : Z;
  latency_samples : option (list Z)
}.

Record ConnectionPool : Type := mkPool {
  latency_threshold_ms : Z;
  error_threshold : Z;
  circuit_timeout : Z;
  connections : gmap string ConnData;
  error_count : Z;
  circuit_opened_at : Z;
  state : ConnectionState
}.

(** [__init__]. *)
Definition init (lt et ct : Z) : ConnectionPool :=
  {| latency_threshold_ms := lt; error_threshold := et;
     circuit_timeout := ct; connections := ∅;
     error_count := 0; circuit_opened_at := 0; state := HEALTHY |}.

(** [ConnectionPool()] with the default arguments. *)
Definition with_defaults : ConnectionPool := init 200 5 60.

Definition set_connections (c : gmap string ConnData) (p : ConnectionPool) :=
  {| latency_threshold_ms := latency_threshold_ms p;
     error_threshold := error_threshold p;
     circuit_timeout := circuit_timeout p; connections := c;
     error_count := error_count p;
     circuit_opened_at := circuit_opened_at p; state := state p |}.

Definition set_error_count (n : Z) (p : ConnectionPool) :=
  {| latency_threshold_ms := latency_threshold_ms p;
     error_threshold := error_threshold p;
     circuit_timeout := circuit_timeout p; connections := connections p;
     error_count := n;
     circuit_opened_at := circuit_opened_at p; state := state p |}.

Definition set_state (s : ConnectionState) (p : ConnectionPool) :=
  {| latency_threshold_ms := latency_threshold_ms p;
     error_threshold := error_threshold p;
     circuit_timeout := circuit_timeout p; connections := connections p;
     error_count := error_count p;
     circuit_opened_at := circuit_opened_at p; state := s |}.

Definition set_circuit_opened_at (t : Z) (p : ConnectionPool) :=
  {| latency_threshold_ms := latency_threshold_ms p;
     error_threshold := error_threshold p;
     circuit_timeout := circuit_timeout p; connections := connections p;
     error_count := error_count p;
     circuit_opened_at := t; state := state p |}.

(** [register_connection(name, connection)]. *)
Definition register_connection (name : string) (now : Z) (p : ConnectionPool) :=
  set_connections
    (<[name := mkConn now 0 0 None]> (connections p)) p.

(** [unregister_connection(name)]. *)
Definition unregister_connection (name : string) (p : ConnectionPool) :=
  set_connections (delete name (connections p)) p.

(** [_open_circuit()]. *)
Definition _open_circuit (now : Z) (p : ConnectionPool) : ConnectionPool :=
  if state_eqb (state p) CIRCUIT_OPEN then p
  else set_circuit_opened_at now (set_state CIRCUIT_OPEN p).

(** [_update_state()]: the only place where an open circuit closes. *)
Definition _update_state (now : Z) (p : ConnectionPool) : ConnectionPool :=
  if state_eqb (state p) CIRCUIT_OPEN then
    if circuit_timeout p <? now - circuit_opened_at p
    then set_error_count 0 (set_state DEGRADED p)
    else p
  else if error_threshold p <=? error_count p then _open_circuit now p
  else if 0 <? error_count p then set_state DEGRADED p
  else set_state HEALTHY p.

(** [record_success(name)]. *)
Definition record_success (name : string) (now : Z) (p : ConnectionPool) :=
  let p1 :=
    match connections p !! name with
    | Some c =>
        set_connections
          (<[name := mkConn (registered_at c) now 0 (latency_samples c)]>
             (connections p)) p
    | None => p
    end in
  let p2 :=
    if 0 <? error_count p1
    then set_error_count (Z.max 0 (error_count p1 - 1)) p1
    else p1 in
  _update_state now p2.

(** [record_error(name)]. *)
Definition record_error (name : string) (now : Z) (p : ConnectionPool) :=
  let p1 :=
    match connections p !! name with
    | Some c =>
        set_connections
          (<[name := mkConn (registered_at c) now (conn_error_count c + 1)
                            (latency_samples c)]>
             (connections p)) p
    | None => p
    end in
  let p2 := set_error_count (error_count p1 + 1) p1 in
  let p3 := _update_state now p2 in
  if error_threshold p3 <=? error_count p3 then _open_circuit now p3 else p3.

Definition sum_samples (l : list Z) : Z := foldr Z.add 0 l.

(** [sum(samples) / len(samples) > latency_threshold_ms]. *)
Definition avg_above (samples : list Z) (threshold : Z) : bool :=
  negb (Qle_bool
          (inject_Z (sum_samples samples)
           / inject_Z (Z.of_nat (length samples)))%Q
          (inject_Z threshold)).

(** [record_latency(name, latency_ms)]. *)
Definition record_latency (name : string) (latency_ms : Z)
    (p : ConnectionPool) : ConnectionPool :=
  match connections p !! name with
  | None => p
  | Some c =>
      let samples := default [] (latency_samples c) ++ [latency_ms] in
      let samples :=
        if (100 <? length samples)%nat then drop 1 samples else samples in
      let p1 :=
        set_connections
          (<[name := mkConn (registered_at c) (last_check c)
                            (conn_error_count c) (Some samples)]>
             (connections p)) p in
      if avg_above samples (latency_threshold_ms p1)
      then if state_eqb (state p1) HEALTHY then set_state DEGRADED p1 else p1
      else p1
  end.

(** [is_healthy()]. *)
Definition is_healthy (p : ConnectionPool) : bool :=
  state_eqb (state p) HEALTHY || state_eqb (state p) DEGRADED.

(** [can_execute()]: reads [state], and neither the clock nor
    [_update_state]. *)
Definition can_execute (p : ConnectionPool) : bool :=
  negb (state_eqb (state p) CIRCUIT_OPEN).

(** The state-changing calls of the public interface. *)
Inductive Call : Type :=
| Register (name : string) (now : Z)
| Unregister (name : string)
| Success (name : string) (now : Z)
| Error (name : string) (now : Z)
| Latency (name : string) (latency_ms : Z).

Definition call (c : Call) (p : ConnectionPool) : ConnectionPool :=
  match c with
  | Register name now => register_connection name now p
  | Unregister name => unregister_connection name p
  | Success name now => record_success name now p
  | Error name now => record_error name now p
  | Latency name ms => record_latency name ms p
  end.

(** Runs the calls in order. *)
Definition run (calls : list Call) (p : ConnectionPool) : ConnectionPool :=
  foldl (fun p c => call c p) p calls.

(** A run of [record_error] calls only, each with its connection name
    and clock value. *)
Definition record_errors (errs : list (string * Z)) (p : ConnectionPool)
  : ConnectionPool :=
  run (map (fun e => Error e.1 e.2) errs) p.

(** The default pool after five errors at clock value 0. *)
Definition tripped : ConnectionPool :=
  record_errors (replicate 5 ("strategy_execution"%string, 0)) with_defaults.

(** What every run maintains: the global error counter is never
    negative, and it is zero whenever the state is [HEALTHY]. *)
Definition counted (p : ConnectionPool) : Prop :=
  0 <= error_count p /\ (state p = HEALTHY -> error_count p = 0).

(** The clock value that a [record_success] or [record_error] call reads. *)
Definition record_clock (c : Call) : option Z :=
  match c with
  | Success _ now | Error _ now => Some now
  | _ => None
  end.

(** Every [record_success] and [record_error] of the calls reads a clock
    value of at most [deadline]. *)
Definition recorded_by (deadline : Z) (calls : list Call) : Prop :=
  Forall (fun c => match record_clock c with
                   | Some now => now <= deadline
                   | None => True
                   end) calls.

(** Every sample buffer of the pool holds between 1 and 100 samples. *)
Definition samples_bounded (p : ConnectionPool) : Prop :=
  forall name c l,
    connections p !! name = Some c -> latency_samples c = Some l ->
    (0 < length l <= 100)%nat.

(** The default pool with a registered connection whose one latency
    sample is above the threshold. *)
Definition slow : ConnectionPool :=
  record_latency "websocket" 500
    (register_connection "websocket" 0 with_defaults).

End Pool.

(* ================================================================== *)
(** ** core/market_scanner.py *)
(* ================================================================== *)

Module Scanner.

(** The value under ["end_date_iso"]: a string or a number. *)
Inductive EndDate : Type :=
| EndIso (s : string)
| EndNum (n : Z).

(** One element of ["tokens"]. [outcome] is [""] when the key is absent. *)
Record Token : Type := mkToken {
  outcome : string;
  token_id : option string
}.

(** A market record of the catalog. The text fields are [""] and the
    lists are [[]] when the key is absent. *)
Record Market : Type := mkMarket {
  id : string;
  question : string;
  description : string;
  slug : string;
  end_date_iso : option EndDate;
  tokens : list Token;
  clobTokenIds : list string
}.

(** An element of the decoded catalog: a record whose fields have the
    types that the scan expects, or one on which the body of the scan
    loop raises. An element that is no dict raises at [market.get("id")].
    A dict with a null [question], [description] or [slug] raises at the
    [.lower()] of [_matches_criteria], which is reached only when its id
    is not registered yet. *)
Inductive Entry : Type :=
| Typed (m : Market)
| NotADict
| NullText (market_id : string).

Record MultiMarketScanner : Type := mkScanner {
  keywords : list string;
  exclude_keywords : list string;
  max_markets : Z;
  scan_interval : Z;
  min_time_remaining : Z;
  active_markets : gmap string Market;
  market_tokens : gmap string (string * string);
  running : bool;
  last_scan_time : Z
}.

(** [__init__]. *)
Definition init (kws excl : list string) (maxm interval min_time : Z)
  : MultiMarketScanner :=
  {| keywords := map lower kws; exclude_keywords := map lower excl;
     max_markets := maxm; scan_interval := interval;
     min_time_remaining := min_time;
     active_markets := ∅; market_tokens := ∅;
     running := false; last_scan_time := 0 |}.

Definition set_registry (a : gmap string Market)
    (t : gmap string (string * string)) (st : MultiMarketScanner) :=
  {| keywords := keywords st; exclude_keywords := exclude_keywords st;
     max_markets := max_markets st; scan_interval := scan_interval st;
     min_time_remaining := min_time_remaining st;
     active_markets := a; market_tokens := t;
     running := running st; last_scan_time := last_scan_time st |}.

Definition set_running (b : bool) (st : MultiMarketScanner) :=
  {| keywords := keywords st; exclude_keywords := exclude_keywords st;
     max_markets := max_markets st; scan_interval := scan_interval st;
     min_time_remaining := min_time_remaining st;
     active_markets := active_markets st; market_tokens := market_tokens st;
     running := b; last_scan_time := last_scan_time st |}.

Definition set_last_scan_time (t : Z) (st : MultiMarketScanner) :=
  {| keywords := keywords st; exclude_keywords := exclude_keywords st;
     max_markets := max_markets st; scan_interval := scan_interval st;
     min_time_remaining := min_time_remaining st;
     active_markets := active_markets st; market_tokens := market_tokens st;
     running := running st; last_scan_time := t |}.

(** Python truth of an optional string and of an optional number. *)
Definition truthy_str (o : option string) : bool :=
  match o with Some s => negb (String.eqb s "") | None => false end.

Definition truthy_num (o : option Z) : bool :=
  match o with Some n => negb (n =? 0) | None => false end.

(** [_matches_criteria(market)]. *)
Definition _matches_criteria (st : MultiMarketScanner) (m : Market) : bool :=
  let combined_text :=
    (lower (question m) ++ " " ++ lower (description m) ++ " "
     ++ lower (slug m))%string in
  let has_keyword := existsb (fun kw => contains kw combined_text) (keywords st) in
  let has_excluded :=
    existsb (fun kw => contains kw combined_text) (exclude_keywords st) in
  has_keyword && negb has_excluded.

(** [_extract_tokens(market)]. *)
Definition classify (acc : option string * option string) (t : Token)
  : option string * option string :=
  let o := lower (outcome t) in
  if contains "yes" o || contains "up" o || contains "higher" o
  then (token_id t, acc.2)
  else if contains "no" o || contains "down" o || contains "lower" o
  then (acc.1, token_id t)
  else acc.

Definition _extract_tokens (m : Market) : option string * option string :=
  match tokens m with
  | t0 :: t1 :: _ =>
      let '(yes_token, no_token) := foldl classify (None, None) (tokens m) in
      if negb (truthy_str yes_token) || negb (truthy_str no_token)
      then (token_id t0, token_id t1)
      else (yes_token, no_token)
  | _ =>
      match clobTokenIds m with
      | c0 :: c1 :: _ => (Some c0, Some c1)
      | _ => (None, None)
      end
  end.

(** The pair that the scan registers, unless
    [not yes_token or not no_token]. *)
Definition resolved_tokens (m : Market) : option (string * string) :=
  match _extract_tokens m with
  | (Some y, Some n) =>
      if truthy_str (Some y) && truthy_str (Some n) then Some (y, n) else None
  | _ => None
  end.

Section WithParser.

(** [int(datetime.fromisoformat(s.replace('Z', '+00:00')).timestamp())],
    [None] when the parse raises. *)
Variable fromisoformat : string -> option Z.

(** [_get_end_timestamp(market)]. *)
Definition _get_end_timestamp (m : Market) : option Z :=
  match end_date_iso m with
  | None => None
  | Some (EndIso s) => if String.eqb s "" then None else fromisoformat s
  | Some (EndNum n) => if n =? 0 then None else Some n
  end.

(** [_has_sufficient_time(market)]. *)
Definition _has_sufficient_time (st : MultiMarketScanner) (now : Z)
    (m : Market) : bool :=
  let end_time := _get_end_timestamp m in
  if negb (truthy_num end_time) then false
  else match end_time with
       | Some e => min_time_remaining st <? e - now
       | None => false
       end.

(** The two assignments that add a market to the registry. *)
Definition register (m : Market) (toks : string * string)
    (st : MultiMarketScanner) : MultiMarketScanner :=
  set_registry (<[id m := m]> (active_markets st))
               (<[id m := toks]> (market_tokens st)) st.

(** The [for market in markets] loop of [scan_markets], with its
    [continue]s and its [break]: the scanner and [new_markets] when the
    loop ends, or the scanner as it is when an element raises. *)
Fixpoint scan_loop (now : Z) (markets : list Entry)
    (st : MultiMarketScanner) (new_markets : list Market)
  : MultiMarketScanner * Outcome (list Market) :=
  match markets with
  | [] => (st, Returned new_markets)
  | NotADict :: _ => (st, Raised)
  | NullText market_id :: rest =>
      if bool_decide (is_Some (active_markets st !! market_id))
      then scan_loop now rest st new_markets
      else (st, Raised)
  | Typed m :: rest =>
      if bool_decide (is_Some (active_markets st !! id m))
      then scan_loop now rest st new_markets
      else if negb (_matches_criteria st m)
      then scan_loop now rest st new_markets
      else if negb (_has_sufficient_time st now m)
      then scan_loop now rest st new_markets
      else
        match resolved_tokens m with
        | None => scan_loop now rest st new_markets
        | Some toks =>
            let st' := register m toks st in
            let new_markets' := new_markets ++ [m] in
            if max_markets st' <=? Z.of_nat (size (active_markets st'))
            then (st', Returned new_markets')
            else scan_loop now rest st' new_markets'
        end
  end.

(** [scan_markets()]. [response] is the decoded catalog, [None] when
    the request fails or the status is not 200. When an element of the
    catalog raises, the handler returns [[]]: the markets registered
    before it stay registered and [last_scan_time] is not set. *)
Definition scan_markets (response : option (list Entry)) (now : Z)
    (st : MultiMarketScanner) : MultiMarketScanner * list Market :=
  match response with
  | None => (st, [])
  | Some markets =>
      match scan_loop now markets st [] with
      | (st', Returned new_markets) =>
          (set_last_scan_time now st', new_markets)
      | (st', Raised) => (st', [])
      end
  end.

(** The ids that [_cleanup_closed_markets] collects. *)
Definition is_closed (now : Z) (m : Market) : bool :=
  let end_time := _get_end_timestamp m in
  if truthy_num end_time
  then match end_time with
       | Some e => e - now <=? 0
       | None => false
       end
  else false.

Definition closed_markets (now : Z) (st : MultiMarketScanner) : list string :=
  map fst (List.filter (fun kv => is_closed now kv.2)
                       (map_to_list (active_markets st))).

Definition remove_market (market_id : string) (st : MultiMarketScanner) :=
  set_registry (delete market_id (active_markets st))
               (delete market_id (market_tokens st)) st.

(** [_cleanup_closed_markets()]. *)
Definition _cleanup_closed_markets (now : Z) (st : MultiMarketScanner)
  : MultiMarketScanner :=
  foldl (fun st market_id => remove_market market_id st) st
        (closed_markets now st).

(** [start()]: the initial scan is not guarded by the capacity. *)
Definition start (response : option (list Entry)) (now : Z)
    (st : MultiMarketScanner) : MultiMarketScanner :=
  if running st then st
  else (scan_markets response now (set_running true st)).1.

(** [stop()]. *)
Definition stop (st : MultiMarketScanner) : MultiMarketScanner :=
  set_running false st.

(** One turn of the [while self.running] loop of [_scanning_loop]:
    cleanup, then a scan only below the capacity. *)
Definition loop_iteration (response : option (list Entry)) (now : Z)
    (st : MultiMarketScanner) : MultiMarketScanner :=
  if running st then
    let st1 := _cleanup_closed_markets now st in
    if Z.of_nat (size (active_markets st1)) <? max_markets st1
    then (scan_markets response now st1).1
    else st1
  else st.

(** [get_market_tokens], [get_market_by_id]. *)
Definition get_market_tokens (st : MultiMarketScanner) (market_id : string)
  : option (string * string) := market_tokens st !! market_id.

Definition get_market_by_id (st : MultiMarketScanner) (market_id : string)
  : option Market := active_markets st !! market_id.

(** Every operation that touches the registry, called in any order. *)
Inductive Call : Type :=
| Start (response : option (list Entry)) (now : Z)
| Stop
| Scan (response : option (list Entry)) (now : Z)
| Cleanup (now : Z)
| Iterate (response : option (list Entry)) (now : Z).

Definition call (c : Call) (st : MultiMarketScanner) : MultiMarketScanner :=
  match c with
  | Start r now => start r now st
  | Stop => stop st
  | Scan r now => (scan_markets r now st).1
  | Cleanup now => _cleanup_closed_markets now st
  | Iterate r now => loop_iteration r now st
  end.

Definition run (calls : list Call) (st : MultiMarketScanner)
  : MultiMarketScanner :=
  foldl (fun st c => call c st) st calls.

(** The calls of the background task: turns of the scanning loop, and
    [stop()]. *)
Definition background (c : Call) : Prop :=
  match c with
  | Iterate _ _ | Stop => True
  | _ => False
  end.

(** The registry holds at most [max_markets] markets. *)
Definition within_capacity (st : MultiMarketScanner) : Prop :=
  Z.of_nat (size (active_markets st)) <= max_markets st.

End WithParser.

(** The two maps of the registry have the same keys. *)
Definition paired (st : MultiMarketScanner) : Prop :=
  dom (active_markets st) = dom (market_tokens st).

(** A catalog record that passes every filter of a ["btc"] scanner
    before clock value 1000. *)
Definition btc_market (market_id : string) : Market :=
  {| id := market_id; question := "BTC up or down?"; description := "";
     slug := "btc-updown"; end_date_iso := Some (EndNum 2000);
     tokens := [mkToken "Up" (Some (market_id ++ "-up")%string);
                mkToken "Down" (Some (market_id ++ "-down")%string)];
     clobTokenIds := [] |}.

(** A scanner of capacity 2 that holds the markets A and B. *)
Definition full : MultiMarketScanner :=
  start (fun _ => None) (Some [Typed (btc_market "A"); Typed (btc_market "B")]) 1000
        (init ["BTC"%string] ["test"%string] 2 10 120).

(** [get_active_markets()]: the values of the registry (the model keeps
    no insertion order). *)
Definition get_active_markets (st : MultiMarketScanner) : list Market :=
  (map_to_list (active_markets st)).*2.

(** Every market of the registry is stored under its own id, matches the
    keyword criteria, and has the token pair that the scan resolved for
    it, both tokens non-empty. *)
Definition well_registered (st : MultiMarketScanner) : Prop :=
  forall k m,
    active_markets st !! k = Some m ->
    id m = k /\ _matches_criteria st m = true /\
    exists toks,
      resolved_tokens m = Some toks /\ market_tokens st !! k = Some toks /\
      toks.1 <> ""%string /\ toks.2 <> ""%string.

(** The two label tests of [_extract_tokens], on a lowercased outcome. *)
Definition yes_like (o : string) : bool :=
  contains "yes" o || contains "up" o || contains "higher" o.

Definition no_like (o : string) : bool :=
  contains "no" o || contains "down" o || contains "lower" o.

(** A market with its three text fields in lower case. *)
Definition lowered (m : Market) : Market :=
  {| id := id m; question := lower (question m);
     description := lower (description m); slug := lower (slug m);
     end_date_iso := end_date_iso m; tokens := tokens m;
     clobTokenIds := clobTokenIds m |}.

End Scanner.

(* ================================================================== *)
(** ** core/websocket_manager.py *)
(* ================================================================== *)

Module WsManager.

Inductive ConnectionMode : Type :=
| WEBSOCKET | REST_POLLING | DISCONNECTED.

(** [self.ws]: [None], an open socket, or a closed one. *)
Inductive Socket : Type := NoSocket | SocketOpen | SocketClosed.

(** A frame sent on the channel by [subscribe_market] and
    [unsubscribe_market]. *)
Inductive Frame : Type :=
| SubscribeFrame (token_id : string)
| UnsubscribeFrame (token_id : string).

(** The manager, together with the tasks it has spawned:
    [websocket_loop_alive] tells whether the [_websocket_loop] task is
    still running, [polling_loops] counts the [_rest_polling_loop]
    tasks. [sent] lists the frames that went out, oldest first. *)
Record WebSocketManager : Type := mkManager {
  reconnect_delay : Z;
  max_reconnect_attempts : Z;
  mode : ConnectionMode;
  ws : Socket;
  running : bool;
  reconnect_attempts : Z;
  last_message_time : Z;
  message_count : nat;
  latency_samples : list Z;
  subscribed_markets : gset string;
  websocket_loop_alive : bool;
  polling_loops : nat;
  sent : list Frame
}.

(** [__init__]. *)
Definition init (delay max_attempts : Z) : WebSocketManager :=
  {| reconnect_delay := delay; max_reconnect_attempts := max_attempts;
     mode := DISCONNECTED; ws := NoSocket; running := false;
     reconnect_attempts := 0; last_message_time := 0; message_count := 0;
     latency_samples := []; subscribed_markets := ∅;
     websocket_loop_alive := false; polling_loops := 0; sent := [] |}.

Definition set_mode (m : ConnectionMode) (st : WebSocketManager) :=
  {| reconnect_delay := reconnect_delay st;
     max_reconnect_attempts := max_reconnect_attempts st;
     mode := m; ws := ws st; running := running st;
     reconnect_attempts := reconnect_attempts st;
     last_message_time := last_message_time st;
     message_count := message_count st;
     latency_samples := latency_samples st;
     subscribed_markets := subscribed_markets st;
     websocket_loop_alive := websocket_loop_alive st;
     polling_loops := polling_loops st; sent := sent st |}.

Definition set_ws (w : Socket) (st : WebSocketManager) :=
  {| reconnect_delay := reconnect_delay st;
     max_reconnect_attempts := max_reconnect_attempts st;
     mode := mode st; ws := w; running := running st;
     reconnect_attempts := reconnect_attempts st;
     last_message_time := last_message_time st;
     message_count := message_count st;
     latency_samples := latency_samples st;
     subscribed_markets := subscribed_markets st;
     websocket_loop_alive := websocket_loop_alive st;
     polling_loops := polling_loops st; sent := sent st |}.

Definition set_running (b : bool) (st : WebSocketManager) :=
  {| reconnect_delay := reconnect_delay st;
     max_reconnect_attempts := max_reconnect_attempts st;
     mode := mode st; ws := ws st; running := b;
     reconnect_attempts := reconnect_attempts st;
     last_message_time := last_message_time st;
     message_count := message_count st;
     latency_samples := latency_samples st;
     subscribed_markets := subscribed_markets st;
     websocket_loop_alive := websocket_loop_alive st;
     polling_loops := polling_loops st; sent := sent st |}.

Definition set_reconnect_attempts (n : Z) (st : WebSocketManager) :=
  {| reconnect_delay := reconnect_delay st;
     max_reconnect_attempts := max_reconnect_attempts st;
     mode := mode st; ws := ws st; running := running st;
     reconnect_attempts := n;
     last_message_time := last_message_time st;
     message_count := message_count st;
     latency_samples := latency_samples st;
     subscribed_markets := subscribed_markets st;
     websocket_loop_alive := websocket_loop_alive st;
     polling_loops := polling_loops st; sent := sent st |}.

Definition set_metrics (t : Z) (n : nat) (l : list Z) (st : WebSocketManager) :=
  {| reconnect_delay := reconnect_delay st;
     max_reconnect_attempts := max_reconnect_attempts st;
     mode := mode st; ws := ws st; running := running st;
     reconnect_attempts := reconnect_attempts st;
     last_message_time := t; message_count := n; latency_samples := l;
     subscribed_markets := subscribed_markets st;
     websocket_loop_alive := websocket_loop_alive st;
     polling_loops := polling_loops st; sent := sent st |}.

Definition set_subscribed (s : gset string) (st : WebSocketManager) :=
  {| reconnect_delay := reconnect_delay st;
     max_reconnect_attempts := max_reconnect_attempts st;
     mode := mode st; ws := ws st; running := running st;
     reconnect_attempts := reconnect_attempts st;
     last_message_time := last_message_time st;
     message_count := message_count st;
     latency_samples := latency_samples st;
     subscribed_markets := s;
     websocket_loop_alive := websocket_loop_alive st;
     polling_loops := polling_loops st; sent := sent st |}.

Definition set_tasks (alive : bool) (polls : nat) (st : WebSocketManager) :=
  {| reconnect_delay := reconnect_delay st;
     max_reconnect_attempts := max_reconnect_attempts st;
     mode := mode st; ws := ws st; running := running st;
     reconnect_attempts := reconnect_attempts st;
     last_message_time := last_message_time st;
     message_count := message_count st;
     latency_samples := latency_samples st;
     subscribed_markets := subscribed_markets st;
     websocket_loop_alive := alive; polling_loops := polls;
     sent := sent st |}.

Definition set_sent (l : list Frame) (st : WebSocketManager) :=
  {| reconnect_delay := reconnect_delay st;
     max_reconnect_attempts := max_reconnect_attempts st;
     mode := mode st; ws := ws st; running := running st;
     reconnect_attempts := reconnect_attempts st;
     last_message_time := last_message_time st;
     message_count := message_count st;
     latency_samples := latency_samples st;
     subscribed_markets := subscribed_markets st;
     websocket_loop_alive := websocket_loop_alive st;
     polling_loops := polling_loops st; sent := l |}.

Definition mode_eqb (a b : ConnectionMode) : bool :=
  match a, b with
  | WEBSOCKET, WEBSOCKET | REST_POLLING, REST_POLLING
  | DISCONNECTED, DISCONNECTED => true
  | _, _ => false
  end.

(** [_try_websocket_connection()]: [ok] tells whether [ws_connect]
    returned; [self.ws] is assigned only then. *)
Definition _try_websocket_connection (ok : bool) (st : WebSocketManager)
  : WebSocketManager := if ok then set_ws SocketOpen st else st.

(** The frame goes out when the mode is [WEBSOCKET] and [self.ws] is
    set; [send_json] raises on a closed socket and the error is logged. *)
Definition send (f : Frame) (st : WebSocketManager) : WebSocketManager :=
  if mode_eqb (mode st) WEBSOCKET then
    match ws st with
    | SocketOpen => set_sent (sent st ++ [f]) st
    | _ => st
    end
  else st.

(** [subscribe_market(token_id)]. *)
Definition subscribe_market (token_id : string) (st : WebSocketManager) :=
  if bool_decide (token_id ∈ subscribed_markets st) then st
  else send (SubscribeFrame token_id)
            (set_subscribed ({[token_id]} ∪ subscribed_markets st) st).

(** [unsubscribe_market(token_id)]. *)
Definition unsubscribe_market (token_id : string) (st : WebSocketManager) :=
  if bool_decide (token_id ∈ subscribed_markets st) then
    send (UnsubscribeFrame token_id)
         (set_subscribed (subscribed_markets st ∖ {[token_id]}) st)
  else st.

(** [start()]; [ok] is the result of the first connection attempt. *)
Definition start (ok : bool) (st : WebSocketManager) : WebSocketManager :=
  if running st then st
  else
    let st1 := _try_websocket_connection ok (set_running true st) in
    if ok
    then set_tasks true (polling_loops st1) (set_mode WEBSOCKET st1)
    else set_tasks (websocket_loop_alive st1) (S (polling_loops st1))
                   (set_mode REST_POLLING st1).

(** [stop()]. *)
Definition stop (st : WebSocketManager) : WebSocketManager :=
  let st1 := set_running false st in
  let st2 := match ws st1 with
             | NoSocket => st1
             | _ => set_ws SocketClosed st1
             end in
  set_mode DISCONNECTED st2.

(** A message handed to [_handle_message]: text that does not parse, or
    a JSON object with or without a ["timestamp"]. *)
Inductive Payload : Type :=
| Malformed
| Json (timestamp : option Z).

(** [_handle_message(message_data)]; [receive_time] is the clock read. *)
Definition _handle_message (p : Payload) (receive_time : Z)
    (st : WebSocketManager) : WebSocketManager :=
  match p with
  | Malformed => st
  | Json ts =>
      let samples :=
        match ts with
        | Some t =>
            let l := latency_samples st ++ [(receive_time - t) * 1000] in
            if (100 <? length l)%nat then drop 1 l else l
        | None => latency_samples st
        end in
      set_metrics receive_time (S (message_count st)) samples st
  end.

(** What [self.ws.receive()] gives. *)
Inductive Received : Type :=
| RecvText (p : Payload) (receive_time : Z)
| RecvClosed
| RecvError
| RecvOther
| RecvRaises.

(** The delay before a reconnection attempt. *)
Definition wait_time (st : WebSocketManager) : Z :=
  Z.min (reconnect_delay st * 2 ^ reconnect_attempts st) 60.

(** One turn of the [while self.running] loop of [_websocket_loop].
    [connect_ok] is used by the reconnection branch, [received] by the
    receiving branch. The turn does nothing once the task has ended. *)
Definition websocket_loop_turn (connect_ok : bool) (received : Received)
    (st : WebSocketManager) : WebSocketManager :=
  if negb (websocket_loop_alive st) then st
  else if negb (running st) then set_tasks false (polling_loops st) st
  else
    match ws st with
    | NoSocket | SocketClosed =>
        if max_reconnect_attempts st <=? reconnect_attempts st then
          set_tasks false (S (polling_loops st)) (set_mode REST_POLLING st)
        else
          let st1 := set_reconnect_attempts (reconnect_attempts st + 1) st in
          if connect_ok then
            let st2 := set_reconnect_attempts 0
                         (_try_websocket_connection true st1) in
            foldl (fun st token_id => subscribe_market token_id st) st2
                  (elements (subscribed_markets st2))
          else st1
    | SocketOpen =>
        match received with
        | RecvText p t => _handle_message p t st
        | RecvClosed | RecvError => set_tasks false (polling_loops st) st
        | RecvOther | RecvRaises => st
        end
    end.

(** The entities that one turn of [_rest_polling_loop] polls. *)
Definition polled (st : WebSocketManager) : list string :=
  if (0 <? polling_loops st)%nat && running st
     && mode_eqb (mode st) REST_POLLING
  then elements (subscribed_markets st) else [].

(** One turn of the [while] loop of a [_rest_polling_loop] task.
    [replies] gives, for a polled entity whose request returned 200, the
    clock value stamped on the synthesized message and the one read on
    its receipt. The task ends when its loop condition fails. *)
Definition polling_loop_turn (replies : string -> option (Z * Z))
    (st : WebSocketManager) : WebSocketManager :=
  if (0 <? polling_loops st)%nat then
    if running st && mode_eqb (mode st) REST_POLLING then
      foldl (fun st token_id =>
               match replies token_id with
               | Some (stamped, received) =>
                   _handle_message (Json (Some stamped)) received st
               | None => st
               end)
            st (elements (subscribed_markets st))
    else set_tasks (websocket_loop_alive st) (pred (polling_loops st)) st
  else st.

(** The socket is closed from the other side. *)
Definition socket_closes (st : WebSocketManager) : WebSocketManager :=
  match ws st with
  | SocketOpen => set_ws SocketClosed st
  | _ => st
  end.

(** What can happen to a manager: the calls of its interface, the turns
    of its tasks, and the loss of the socket. *)
Inductive Call : Type :=
| Start (ok : bool)
| Stop
| Subscribe (token_id : string)
| Unsubscribe (token_id : string)
| WebsocketLoop (connect_ok : bool) (received : Received)
| PollingLoop (replies : string -> option (Z * Z))
| SocketCloses.

Definition call (c : Call) (st : WebSocketManager) : WebSocketManager :=
  match c with
  | Start ok => start ok st
  | Stop => stop st
  | Subscribe t => subscribe_market t st
  | Unsubscribe t => unsubscribe_market t st
  | WebsocketLoop ok r => websocket_loop_turn ok r st
  | PollingLoop replies => polling_loop_turn replies st
  | SocketCloses => socket_closes st
  end.

Definition run (calls : list Call) (st : WebSocketManager) : WebSocketManager :=
  foldl (fun st c => call c st) st calls.

(** A stretch in which every turn of the websocket loop is a failed
    reconnection, with subscriptions and polling turns in between. *)
Definition failing (c : Call) : Prop :=
  match c with
  | WebsocketLoop false _ | Subscribe _ | Unsubscribe _ | PollingLoop _ => True
  | _ => False
  end.

Definition is_websocket_turn (c : Call) : bool :=
  match c with WebsocketLoop _ _ => true | _ => false end.

(** The number of turns of the websocket loop in a list of calls. *)
Definition websocket_turns (calls : list Call) : nat :=
  length (List.filter is_websocket_turn calls).

(** The lifetime of a connection ends with [stop()]. *)
Definition alive (c : Call) : Prop :=
  match c with Stop => False | _ => True end.

(** The part of the state that the reconnection logic reads and writes. *)
Definition link (st : WebSocketManager)
  : bool * bool * ConnectionMode * Socket * Z * Z :=
  (running st, websocket_loop_alive st, mode st, ws st,
   reconnect_attempts st, max_reconnect_attempts st).

(** The state after the fallback: running, in polling mode, the
    websocket task ended, a polling task at work. *)
Definition fallen_back (st : WebSocketManager) (w : Socket) (a : Z) : Prop :=
  running st = true /\ websocket_loop_alive st = false /\
  mode st = REST_POLLING /\ ws st = w /\ reconnect_attempts st = a /\
  (0 < polling_loops st)%nat.

(** A manager that lost its socket while streaming, with room for two
    reconnection attempts. *)
Definition dropped : WebSocketManager :=
  socket_closes (subscribe_market "token-1" (start true (init 5 2))).

(** The buffers and counters that stay within bounds. *)
Definition bounded (st : WebSocketManager) : Prop :=
  (length (latency_samples st) <= 100)%nat /\
  0 <= reconnect_attempts st <= Z.max 0 (max_reconnect_attempts st).

(** The manager [dropped] after its two reconnection attempts have
    failed and the next turn of the websocket loop has fallen back. *)
Definition fallen : WebSocketManager :=
  websocket_loop_turn true RecvOther
    (run [WebsocketLoop false RecvOther; WebsocketLoop false RecvOther]
         dropped).

End WsManager.

(* ================================================================== *)
(** ** strategy_orchestrator.py *)
(* ================================================================== *)

Module Orchestrator.

(** Signals and position ids are opaque to the orchestrator. A falsy
    signal or position id is [None]. *)
Definition Signal : Type := string.
Definition PositionId : Type := string.

(** What the orchestrator reads of a strategy object during one cycle:
    its class name, its [name] and [enabled] attributes when it has them,
    and the outcome of each method it calls. *)
Record Strategy : Type := mkStrategy {
  class_name : string;
  name : option string;
  enabled : option bool;
  scan_opportunities : Outcome (option Signal);
  execute_trade : Signal -> bool -> Outcome (option PositionId);
  monitor_positions : bool -> Outcome (list PositionId)
}.

Record StrategyOrchestrator : Type := mkOrchestrator {
  total_capital : Q;
  strategies : list Strategy;
  capital_allocated : gmap string Q
}.

(** The chain of substring tests of [_get_strategy_key], on one text. *)
Definition key_of_text (t : string) : option string :=
  if contains "Maker" t then Some "maker"%string
  else if contains "Probability" t then Some "probability"%string
  else if contains "Latency" t then Some "latency"%string
  else if contains "ML" t || contains "Pattern" t then Some "ml_pattern"%string
  else None.

(** [_get_strategy_key(strategy)]. *)
Definition _get_strategy_key (s : Strategy) : string :=
  match key_of_text (class_name s) with
  | Some k => k
  | None =>
      match name s with
      | Some n => default "maker"%string (key_of_text n)
      | None => "maker"%string
      end
  end.

(** [_allocate_capital()], over the table [config.CAPITAL_ALLOCATION]. *)
Definition _allocate_capital (allocation : gmap string Q)
    (o : StrategyOrchestrator) : StrategyOrchestrator :=
  foldl (fun o s =>
           let strategy_key := _get_strategy_key s in
           match allocation !! strategy_key with
           | Some fraction =>
               mkOrchestrator (total_capital o) (strategies o)
                 (<[strategy_key := (total_capital o * fraction)%Q]>
                    (capital_allocated o))
           | None => o
           end)
        o (strategies o).

(** [__init__], given the strategies that [_initialize_strategies] built. *)
Definition init (capital : Q) (strats : list Strategy)
    (allocation : gmap string Q) : StrategyOrchestrator :=
  _allocate_capital allocation (mkOrchestrator capital strats ∅).

(** The calls that a cycle makes on strategies, in the order made. *)
Inductive Event : Type :=
| EvScan (s : Strategy)
| EvExecute (s : Strategy) (signal : Signal)
| EvMonitor (s : Strategy).

Record CycleStats : Type := mkStats {
  opportunities_found : nat;
  trades_executed : nat;
  positions_closed : nat;
  strategies_active : nat
}.

(** An element of [opportunities]. *)
Record Opportunity : Type := mkOpp {
  opp_strategy : Strategy;
  opp_signal : Signal
}.

(** [getattr(strategy, 'enabled', True)]. *)
Definition is_enabled (s : Strategy) : bool := default true (enabled s).

(** Phase 1: the calls made, the opportunities, and the number of
    strategies asked. A raising scan is logged and skipped. *)
Fixpoint scan_phase (strats : list Strategy)
  : list Event * list Opportunity * nat :=
  match strats with
  | [] => ([], [], 0%nat)
  | s :: rest =>
      let '(evs, opps, active) := scan_phase rest in
      if negb (is_enabled s) then (evs, opps, active)
      else
        match scan_opportunities s with
        | Returned (Some signal) =>
            (EvScan s :: evs, mkOpp s signal :: opps, S active)
        | _ => (EvScan s :: evs, opps, S active)
        end
  end.

Definition priority_order : list string :=
  ["latency"; "probability"; "maker"; "ml_pattern"]%string.

(** [allocated > 0]. *)
Definition positive (a : Q) : bool := negb (Qle_bool a 0).

(** The inner loop of phase 2, [for opp in opportunities], for one
    priority key: the calls made, the trades counted, and whether an
    [execute_trade] raised, which ends the loop. *)
Fixpoint execute_for_key (o : StrategyOrchestrator) (dry_run : bool)
    (priority_key : string) (opps : list Opportunity)
  : list Event * nat * bool :=
  match opps with
  | [] => ([], 0%nat, false)
  | opp :: rest =>
      let strategy := opp_strategy opp in
      let strategy_key := _get_strategy_key strategy in
      if String.eqb strategy_key priority_key then
        let allocated := default 0%Q (capital_allocated o !! strategy_key) in
        if positive allocated then
          match execute_trade strategy (opp_signal opp) dry_run with
          | Raised => ([EvExecute strategy (opp_signal opp)], 0%nat, true)
          | Returned position_id =>
              let '(evs, trades, raised) :=
                execute_for_key o dry_run priority_key rest in
              (EvExecute strategy (opp_signal opp) :: evs,
               ((match position_id with Some _ => 1 | None => 0 end) + trades)%nat, raised)
          end
        else execute_for_key o dry_run priority_key rest
      else execute_for_key o dry_run priority_key rest
  end.

(** Phase 2: the outer loop, [for priority_key in priority_order]. *)
Fixpoint execute_phase (o : StrategyOrchestrator) (dry_run : bool)
    (keys : list string) (opps : list Opportunity)
  : list Event * nat * bool :=
  match keys with
  | [] => ([], 0%nat, false)
  | priority_key :: rest =>
      let '(evs, trades, raised) :=
        execute_for_key o dry_run priority_key opps in
      if raised then (evs, trades, true)
      else
        let '(evs', trades', raised') := execute_phase o dry_run rest opps in
        (evs ++ evs', (trades + trades')%nat, raised')
  end.

(** Phase 3: a raising monitor is logged and skipped. *)
Fixpoint monitor_phase (dry_run : bool) (strats : list Strategy)
  : list Event * nat :=
  match strats with
  | [] => ([], 0%nat)
  | s :: rest =>
      let '(evs, closed) := monitor_phase dry_run rest in
      if negb (is_enabled s) then (evs, closed)
      else
        match monitor_positions s dry_run with
        | Returned ids => (EvMonitor s :: evs, (length ids + closed)%nat)
        | Raised => (EvMonitor s :: evs, closed)
        end
  end.

(** [run_cycle(dry_run)]: the statistics returned and the calls made. An
    exception of [execute_trade] is caught by the outer handler, past the
    monitor phase. *)
Definition run_cycle (o : StrategyOrchestrator) (dry_run : bool)
  : CycleStats * list Event :=
  let '(scans, opps, active) := scan_phase (strategies o) in
  let '(execs, trades, raised) :=
    execute_phase o dry_run priority_order opps in
  if raised then
    (mkStats (length opps) trades 0 active, scans ++ execs)
  else
    let '(monitors, closed) := monitor_phase dry_run (strategies o) in
    (mkStats (length opps) trades closed active, scans ++ execs ++ monitors).

(** The position of a call in the cycle: scans, then executions by
    priority key, then monitors. *)
Definition key_rank (k : string) : nat :=
  if String.eqb k "latency" then 1
  else if String.eqb k "probability" then 2
  else if String.eqb k "maker" then 3
  else 4.

Definition stage (ev : Event) : nat :=
  match ev with
  | EvScan _ => 0
  | EvExecute s _ => key_rank (_get_strategy_key s)
  | EvMonitor _ => 5
  end.

(** The calls of a trace come in stages that never go down, all between
    [lo] and [hi]. *)
Definition staged (lo hi : nat) (tr : list Event) : Prop :=
  Forall (fun ev => (lo <= stage ev <= hi)%nat) tr /\
  forall i j a b,
    (i < j)%nat -> tr !! i = Some a -> tr !! j = Some b ->
    (stage a <= stage b)%nat.

(** The keys of a list come in rising rank, from [lo] on. *)
Fixpoint ranked (lo : nat) (keys : list string) : Prop :=
  match keys with
  | [] => True
  | k :: rest => (lo <= key_rank k <= 4)%nat /\ ranked (key_rank k) rest
  end.

(** Every [execute_trade] of a trace is funded: the capital allocated
    to the key of its strategy is above zero. *)
Definition funded (o : StrategyOrchestrator) (tr : list Event) : Prop :=
  Forall (fun ev => match ev with
                    | EvExecute s _ =>
                        (0 < default 0 (capital_allocated o
                                          !! _get_strategy_key s))%Q
                    | _ => True
                    end) tr.

(** Every [execute_trade] of a trace happens while the pool [p] allows
    execution: the gate the specification words. *)
Definition gated_by (p : Pool.ConnectionPool) (tr : list Event) : Prop :=
  forall i s signal,
    tr !! i = Some (EvExecute s signal) -> Pool.can_execute p = true.

(** Two strategies that always have a signal and a fill. *)
Definition maker_strategy : Strategy :=
  {| class_name := "MakerStrategy"; name := None; enabled := None;
     scan_opportunities := Returned (Some "maker-signal"%string);
     execute_trade := fun _ _ => Returned (Some "maker-position"%string);
     monitor_positions := fun _ => Returned [] |}.

Definition latency_strategy : Strategy :=
  {| class_name := "LatencyArbitrageStrategy";
     name := Some "Latency Arbitrage"%string; enabled := Some true;
     scan_opportunities := Returned (Some "latency-signal"%string);
     execute_trade := fun _ _ => Returned (Some "latency-position"%string);
     monitor_positions := fun _ => Returned [] |}.

(** [config.CAPITAL_ALLOCATION]. *)
Definition CAPITAL_ALLOCATION : gmap string Q :=
  <["maker"%string := (40 # 100)%Q]>
    (<["probability"%string := (30 # 100)%Q]>
       (<["latency"%string := (20 # 100)%Q]>
          (<["ml_pattern"%string := (10 # 100)%Q]> ∅))).

(** An orchestrator whose maker strategy is discovered first. *)
Definition maker_first : StrategyOrchestrator :=
  init (inject_Z 1000) [maker_strategy; latency_strategy] CAPITAL_ALLOCATION.

(** The strategy on which an event calls. *)
Definition event_strategy (ev : Event) : Strategy :=
  match ev with
  | EvScan s | EvExecute s _ | EvMonitor s => s
  end.

(** The strategies scanned, executed on and monitored by a trace, in the
    order of the calls. *)
Definition scanned (tr : list Event) : list Strategy :=
  omap (fun ev => match ev with EvScan s => Some s | _ => None end) tr.

Definition executed (tr : list Event) : list (Strategy * Signal) :=
  omap (fun ev => match ev with
                  | EvExecute s signal => Some (s, signal)
                  | _ => None
                  end) tr.

Definition monitored (tr : list Event) : list Strategy :=
  omap (fun ev => match ev with EvMonitor s => Some s | _ => None end) tr.

(** A strategy whose [execute_trade] raises. *)
Definition failing_strategy : Strategy :=
  {| class_name := "LatencyArbitrageStrategy"; name := None; enabled := None;
     scan_opportunities := Returned (Some "latency-signal"%string);
     execute_trade := fun _ _ => Raised;
     monitor_positions := fun _ => Returned ["position"%string] |}.

(** An orchestrator whose latency strategy fails to execute. *)
Definition with_failure : StrategyOrchestrator :=
  init (inject_Z 1000) [maker_strategy; failing_strategy] CAPITAL_ALLOCATION.

(** Whether a call raised: an [execute_trade], the only call of a cycle
    whose exception [run_cycle] does not catch on the spot. *)
Definition raises (dry_run : bool) (ev : Event) : bool :=
  match ev with
  | EvExecute s signal =>
      match execute_trade s signal dry_run with
      | Raised => true
      | Returned _ => false
      end
  | _ => false
  end.

(** Whether some call of a trace raised. *)
Definition raises_in (dry_run : bool) (tr : list Event) : bool :=
  existsb (raises dry_run) tr.

(** A signal that the scan phase of a cycle produces: an enabled
    strategy of the orchestrator returns it. *)
Definition produced (o : StrategyOrchestrator) (s : Strategy)
    (signal : Signal) : Prop :=
  In s (strategies o) /\ is_enabled s = true /\
  scan_opportunities s = Returned (Some signal).

(** The order the specification words: whenever a latency-category
    strategy and a maker-category strategy have both produced a signal
    in the scan phase, the cycle calls [execute_trade] on both signals,
    and on the former strictly before the latter. *)
Definition latency_before_maker (o : StrategyOrchestrator) (dry_run : bool)
  : Prop :=
  forall s1 signal1 s2 signal2,
    produced o s1 signal1 -> _get_strategy_key s1 = "latency"%string ->
    produced o s2 signal2 -> _get_strategy_key s2 = "maker"%string ->
    (exists i j,
        (run_cycle o dry_run).2 !! i = Some (EvExecute s1 signal1) /\
        (run_cycle o dry_run).2 !! j = Some (EvExecute s2 signal2)) /\
    (forall i j,
        (run_cycle o dry_run).2 !! i = Some (EvExecute s1 signal1) ->
        (run_cycle o dry_run).2 !! j = Some (EvExecute s2 signal2) ->
        (i < j)%nat).

(** An orchestrator without capital: every allocation is zero. *)
Definition unfunded : StrategyOrchestrator :=
  init 0%Q [maker_strategy; latency_strategy] CAPITAL_ALLOCATION.

End Orchestrator.

(* ================================================================== *)
(** ** bot_v2.py *)
(* ================================================================== *)

Module BotV2.

Definition Signal : Type := string.
Definition PositionId : Type := string.

(** What [_execute_strategy_on_market] reads during one task: whether
    the open positions of the strategy have reached
    [config.MAX_OPEN_POSITIONS], the outcome of the opportunity analysis,
    the outcome of [execute_trade] on a signal, and the clock that a
    record call of the task reads. *)
Record Task : Type := mkTask {
  at_capacity : bool;
  analysis : Outcome (option Signal);
  execute_trade : Signal -> Outcome (option PositionId);
  finished_at : Z
}.

(** [_execute_strategy_on_market(strategy, market, yes_token, no_token)],
    on the connection pool. *)
Definition _execute_strategy_on_market (t : Task) (p : Pool.ConnectionPool)
  : Pool.ConnectionPool :=
  if at_capacity t then p
  else
    match analysis t with
    | Raised => Pool.record_error "strategy_execution" (finished_at t) p
    | Returned None => p
    | Returned (Some signal) =>
        match execute_trade t signal with
        | Raised => Pool.record_error "strategy_execution" (finished_at t) p
        | Returned None => p
        | Returned (Some position_id) =>
            Pool.record_success "strategy_execution" (finished_at t) p
        end
    end.

(** One turn of [_strategy_execution_loop]: the pool afterwards and the
    number of tasks started. [tasks] are the tasks of the turn, one for
    each market with tokens and each enabled strategy, in the order in
    which they finish. *)
Definition _strategy_execution_turn (tasks : list Task)
    (p : Pool.ConnectionPool) : Pool.ConnectionPool * nat :=
  if negb (Pool.can_execute p) then (p, 0%nat)
  else (foldl (fun p t => _execute_strategy_on_market t p) p tasks,
        length tasks).

(** One turn of [_health_monitoring_loop], on the connection pool;
    [avg_latency] is the ["average_latency_ms"] of the websocket status,
    in the unit of the samples of the pool. *)
Definition _health_monitoring_turn (avg_latency : Z)
    (p : Pool.ConnectionPool) : Pool.ConnectionPool :=
  if 0 <? avg_latency then Pool.record_latency "websocket" avg_latency p
  else p.

(** One turn of [_market_discovery_loop], on the websocket manager. *)
Definition _market_discovery_turn (sc : Scanner.MultiMarketScanner)
    (w : WsManager.WebSocketManager) : WsManager.WebSocketManager :=
  foldl (fun w market =>
           match Scanner.get_market_tokens sc (Scanner.id market) with
           | Some (yes_token, no_token) =>
               WsManager.subscribe_market no_token
                 (WsManager.subscribe_market yes_token w)
           | None => w
           end)
        w (Scanner.get_active_markets sc).

(** The connection pool after [__init__]: the default pool with the two
    connections registered at the clock values [t1] and [t2]. *)
Definition init_pool (t1 t2 : Z) : Pool.ConnectionPool :=
  Pool.register_connection "market_scanner" t2
    (Pool.register_connection "websocket" t1 Pool.with_defaults).

(** The turns of the loops of the bot that touch the connection pool. *)
Inductive Turn : Type :=
| StrategyExecution (tasks : list Task)
| HealthMonitoring (avg_latency : Z).

Definition turn (t : Turn) (p : Pool.ConnectionPool)
  : Pool.ConnectionPool * nat :=
  match t with
  | StrategyExecution tasks => _strategy_execution_turn tasks p
  | HealthMonitoring avg_latency => (_health_monitoring_turn avg_latency p, 0%nat)
  end.

(** A run of turns: the pool afterwards and the number of tasks started. *)
Fixpoint run (turns : list Turn) (p : Pool.ConnectionPool)
  : Pool.ConnectionPool * nat :=
  match turns with
  | [] => (p, 0%nat)
  | t :: rest =>
      let '(p1, started) := turn t p in
      let '(p2, started') := run rest p1 in
      (p2, (started + started')%nat)
  end.

(** A task whose [execute_trade] raises, and one that opens a position. *)
Definition failing_task (now : Z) : Task :=
  {| at_capacity := false; analysis := Returned (Some "signal"%string);
     execute_trade := fun _ => Raised; finished_at := now |}.

Definition filling_task (now : Z) : Task :=
  {| at_capacity := false; analysis := Returned (Some "signal"%string);
     execute_trade := fun _ => Returned (Some "position"%string);
     finished_at := now |}.

(** The entries of the two registered connections as the registration
    wrote them, apart from the latency samples of ["websocket"]. *)
Definition entries_untouched (t1 t2 : Z) (p : Pool.ConnectionPool) : Prop :=
  Pool.connections p !! "strategy_execution"%string = None /\
  forall name c,
    Pool.connections p !! name = Some c ->
    Pool.conn_error_count c = 0 /\ Pool.last_check c = 0 /\
    (name = "websocket"%string /\ Pool.registered_at c = t1 \/
     name = "market_scanner"%string /\ Pool.registered_at c = t2 /\
     Pool.latency_samples c = None).

(** The tokens of a token pair. *)
Definition pair_tokens (toks : string * string) : gset string :=
  {[toks.1; toks.2]}.

End BotV2.

(* ================================================================== *)
(** ** strategies/async_latency_arbitrage.py *)
(* ================================================================== *)

Module LatencyArb.

(** [config_v2]. *)
Definition LATENCY_DAILY_TRADE_LIMIT : Z := 20.
Definition LATENCY_DAILY_LOSS_LIMIT : Q := inject_Z 100.

(** The opportunity dict of [_check_polymarket_lag] is opaque here. *)
Definition Opportunity : Type := string.

(** The part of the strategy object that [scan_opportunities] and
    [_on_binance_price_update] read and write. *)
Record Strategy : Type := mkStrategy {
  spike_detector : Spike.SpikeDetector;
  daily_trades : Z;
  daily_loss : Q;
  last_reset_day : Z;
  current_btc_market : option Scanner.Market;
  last_market_refresh : Z
}.

(** [__init__], on the day [day] of the year. *)
Definition init (day : Z) : Strategy :=
  {| spike_detector := Spike.init 150 3 10 30 100;
     daily_trades := 0; daily_loss := 0%Q; last_reset_day := day;
     current_btc_market := None; last_market_refresh := 0 |}.

Definition set_detector (d : Spike.SpikeDetector) (s : Strategy) : Strategy :=
  {| spike_detector := d; daily_trades := daily_trades s;
     daily_loss := daily_loss s; last_reset_day := last_reset_day s;
     current_btc_market := current_btc_market s;
     last_market_refresh := last_market_refresh s |}.

Definition set_market (m : option Scanner.Market) (s : Strategy) : Strategy :=
  {| spike_detector := spike_detector s; daily_trades := daily_trades s;
     daily_loss := daily_loss s; last_reset_day := last_reset_day s;
     current_btc_market := m;
     last_market_refresh := last_market_refresh s |}.

Definition set_refresh (t : Z) (s : Strategy) : Strategy :=
  {| spike_detector := spike_detector s; daily_trades := daily_trades s;
     daily_loss := daily_loss s; last_reset_day := last_reset_day s;
     current_btc_market := current_btc_market s;
     last_market_refresh := t |}.

(** What one [scan_opportunities] reads from outside the strategy: the
    day of the year, whether the Binance monitor is connected, the two
    clock values of [detect_spike], the two clock values of the fallback
    refresh with the market that [_get_current_btc_market] returns, and
    the answer of [_check_polymarket_lag], which catches what it raises. *)
Record Readings : Type := mkReadings {
  current_day : Z;
  is_connected : bool;
  t_check : Z;
  t_record : Z;
  t_refresh_check : Z;
  t_refresh_store : Z;
  monitor_market : option Scanner.Market;
  _check_polymarket_lag :
    Spike.SpikeInfo -> Scanner.Market -> option Opportunity
}.

(** [_on_binance_price_update(price)]. *)
Definition _on_binance_price_update (price now : Z) (s : Strategy) : Strategy :=
  set_detector (Spike.add_price price None now (spike_detector s)) s.

(** [_reset_daily_limits_if_needed()]. *)
Definition _reset_daily_limits_if_needed (day : Z) (s : Strategy) : Strategy :=
  if negb (day =? last_reset_day s) then
    {| spike_detector := spike_detector s; daily_trades := 0;
       daily_loss := 0%Q; last_reset_day := day;
       current_btc_market := current_btc_market s;
       last_market_refresh := last_market_refresh s |}
  else s.

(** The test of the market search:
    ['btc' in question or 'bitcoin' in question]. *)
Definition is_btc (m : Scanner.Market) : bool :=
  let question := lower (Scanner.question m) in
  contains "btc" question || contains "bitcoin" question.

(** [scan_opportunities(market_scanner)]. [market_scanner] is the answer
    of [get_active_markets()] of the scanner passed, [None] when no
    scanner is passed. Whatever is raised inside is caught and gives
    [None]. *)
Definition scan_opportunities (market_scanner : option (list Scanner.Market))
    (r : Readings) (s : Strategy) : option Opportunity * Strategy :=
  let s := _reset_daily_limits_if_needed (current_day r) s in
  if LATENCY_DAILY_TRADE_LIMIT <=? daily_trades s then (None, s)
  else if Qle_bool LATENCY_DAILY_LOSS_LIMIT (daily_loss s) then (None, s)
  else if negb (is_connected r) then (None, s)
  else
    match Spike.detect_spike (t_check r) (t_record r) (spike_detector s) with
    | (Returned (Some spike), d) =>
        let s := set_detector d s in
        match market_scanner with
        | Some active_markets =>
            match List.find is_btc active_markets with
            | None => (None, s)
            | Some btc_market =>
                (_check_polymarket_lag r spike btc_market,
                 set_market (Some btc_market) s)
            end
        | None =>
            let s :=
              if match current_btc_market s with
                 | None => true
                 | Some _ => 60 <? t_refresh_check r - last_market_refresh s
                 end
              then set_refresh (t_refresh_store r)
                     (set_market (monitor_market r) s)
              else s in
            match current_btc_market s with
            | None => (None, s)
            | Some btc_market =>
                (_check_polymarket_lag r spike btc_market, s)
            end
        end
    | (_, d) => (None, set_detector d s)
    end.

(** The calls that reach the spike detector of the strategy. *)
Inductive Call : Type :=
| PriceUpdate (price now : Z)
| Scan (market_scanner : option (list Scanner.Market)) (r : Readings).

(** A run of calls: the strategy afterwards and the number of
    opportunities returned. *)
Fixpoint run (calls : list Call) (s : Strategy) : Strategy * nat :=
  match calls with
  | [] => (s, 0%nat)
  | PriceUpdate price now :: rest =>
      run rest (_on_binance_price_update price now s)
  | Scan market_scanner r :: rest =>
      let '(o, s1) := scan_opportunities market_scanner r s in
      let '(s2, n) := run rest s1 in
      (s2, ((match o with Some _ => 1 | None => 0 end) + n)%nat)
  end.

(** Readings of a connected monitor on day 1, with the detector clocks
    at [t] and a lag check that always answers. *)
Definition readings (t : Z) : Readings :=
  {| current_day := 1; is_connected := true; t_check := t; t_record := t;
     t_refresh_check := t; t_refresh_store := t; monitor_market := None;
     _check_polymarket_lag := fun _ _ => Some "opportunity"%string |}.

(** A strategy that has seen a rise of 200 within five seconds. *)
Definition primed : Strategy :=
  _on_binance_price_update 50200 1005
    (_on_binance_price_update 50000 1000 (init 1)).

(** The checks that come before [detect_spike]: the daily limits, after
    the reset of a new day, and the connection of the monitor. *)
Definition ready (r : Readings) (s : Strategy) : bool :=
  let s := _reset_daily_limits_if_needed (current_day r) s in
  negb (LATENCY_DAILY_TRADE_LIMIT <=? daily_trades s)
  && negb (Qle_bool LATENCY_DAILY_LOSS_LIMIT (daily_loss s))
  && is_connected r.

End LatencyArb.

(* ================================================================== *)
(** ** utils.py *)
(* ================================================================== *)

Module Utils.

Section WithFloats.

(** Python floats with the operations that the tracker applies to them:
    [0.0], [a + b], [a - b], [abs(a)] and [a > 0]. They are kept
    abstract: a float sum rounds, and nothing here says how. *)
Variable Float : Type.
Variable zero : Float.
Variable add : Float -> Float -> Float.
Variable sub : Float -> Float -> Float.
Variable abs : Float -> Float.
Variable is_win : Float -> bool.

(** [PerformanceTracker], without its start time. *)
Record PerformanceTracker : Type := mkTracker {
  total_trades : Z;
  winning_trades : Z;
  losing_trades : Z;
  total_profit : Float;
  total_loss : Float
}.

(** [__init__]. *)
Definition init : PerformanceTracker :=
  {| total_trades := 0; winning_trades := 0; losing_trades := 0;
     total_profit := zero; total_loss := zero |}.

(** [record_trade(profit)]; [is_win profit] is [profit > 0]. *)
Definition record_trade (profit : Float) (t : PerformanceTracker)
  : PerformanceTracker :=
  if is_win profit then
    {| total_trades := total_trades t + 1;
       winning_trades := winning_trades t + 1;
       losing_trades := losing_trades t;
       total_profit := add (total_profit t) profit;
       total_loss := total_loss t |}
  else
    {| total_trades := total_trades t + 1;
       winning_trades := winning_trades t;
       losing_trades := losing_trades t + 1;
       total_profit := total_profit t;
       total_loss := add (total_loss t) (abs profit) |}.

(** The properties [net_profit] and [win_rate]. *)
Definition net_profit (t : PerformanceTracker) : Float :=
  sub (total_profit t) (total_loss t).

Definition win_rate (t : PerformanceTracker) : Q :=
  if total_trades t =? 0 then 0%Q
  else (inject_Z (winning_trades t) / inject_Z (total_trades t))%Q.

(** A tracker after the trades of a list, oldest first. *)
Definition record_trades (profits : list Float) (t : PerformanceTracker)
  : PerformanceTracker :=
  foldl (fun t profit => record_trade profit t) t profits.

(** The float sum of a list, from an accumulator on, in list order. *)
Definition accumulate (acc : Float) (l : list Float) : Float :=
  foldl add acc l.

(** The winning and the losing profits of a list, in its order. *)
Definition wins (profits : list Float) : list Float :=
  List.filter is_win profits.

Definition losses (profits : list Float) : list Float :=
  List.filter (fun profit => negb (is_win profit)) profits.

End WithFloats.

Arguments total_trades {Float} _.
Arguments winning_trades {Float} _.
Arguments losing_trades {Float} _.
Arguments total_profit {Float} _.
Arguments total_loss {Float} _.
Arguments win_rate {Float} _.

End Utils.

(* ================================================================== *)
(** ** Properties of the spike detector *)
(* ================================================================== *)

Module SpikeTheory.
Import Spike.

(** [List.find] returns the first element that passes the test. *)
Lemma find_first {A} (f : A -> bool) (l : list A) (x : A) :
  List.find f l = Some x <->
  exists l1 l2, l = l1 ++ x :: l2 /\ f x = true /\
                Forall (fun y => f y = false) l1.
Proof.
  induction l as [|a l IH]; simpl.
  - split; [discriminate|]. intros (l1 & l2 & E & _). by destruct l1.
  - destruct (f a) eqn:Fa.
    + split.
      * intros [= ->]. exists [], l. by repeat split.
      * intros (l1 & l2 & E & Fx & Hl1). destruct l1 as [|b l1].
        -- by injection E as -> _.
        -- injection E as -> _. inversion Hl1; congruence.
    + rewrite IH. split.
      * intros (l1 & l2 & -> & Fx & Hl1). exists (a :: l1), l2.
        repeat split; [done|]. by constructor.
      * intros (l1 & l2 & E & Fx & Hl1). destruct l1 as [|b l1].
        -- injection E as -> _. congruence.
        -- injection E as -> ->. exists l1, l2. repeat split; [done|].
           by inversion Hl1.
Qed.

(** The backward scan, read on the history in its own order. *)
Lemma find_past_spec d current prior past :
  find_past d current prior = Some past <->
  exists older between,
    prior = older ++ past :: between /\
    in_window d current past = true /\
    Forall (fun e => in_window d current e = false) between.
Proof.
  unfold find_past. rewrite find_first. split.
  - intros (l1 & l2 & E & Hp & Hl1).
    exists (rev l2), (rev l1). repeat split; [|done|].
    + rewrite <- (rev_involutive prior), E, rev_app_distr. simpl.
      by rewrite <- app_assoc.
    + by apply List.Forall_rev.
  - intros (older & between & -> & Hp & Hb).
    exists (rev between), (rev older). repeat split; [|done|].
    + rewrite rev_app_distr. simpl. by rewrite <- app_assoc.
    + by apply List.Forall_rev.
Qed.

Lemma removelast_snoc {A} (l : list A) (x : A) : removelast (l ++ [x]) = l.
Proof. by rewrite removelast_app, app_nil_r. Qed.

Lemma history_split {A} (l : list A) (x : A) :
  last l = Some x -> l = removelast l ++ [x].
Proof.
  intros H. destruct (exists_last (l := l)) as (l' & y & ->).
  - intros ->. discriminate.
  - rewrite last_snoc in H. injection H as ->. by rewrite removelast_snoc.
Qed.

(** What [detect_spike] returns once the cooldown has passed. *)
Lemma detect_spike_emits_iff d t_check t_record :
  cooldown_seconds d <= t_check - last_spike_time d ->
  emits t_check t_record d <->
  exists past current,
    nearest_in_band d past current /\ price past <> 0 /\
    min_move d <= Z.abs (price current - price past).
Proof.
  intros Hcd. unfold emits, detect_spike.
  destruct (Z.ltb_spec (t_check - last_spike_time d) (cooldown_seconds d));
    [lia|].
  split.
  - intros [ev Hev].
    destruct (Nat.ltb_spec (length (price_history d)) 2); [done|].
    destruct (last (price_history d)) as [current|] eqn:Hlast; [|done].
    destruct (find_past d current (removelast (price_history d)))
      as [past|] eqn:Hfind; [|done].
    destruct (Z.eqb_spec (price past) 0); [done|].
    destruct (Z.leb_spec (min_move d) (Z.abs (price current - price past)));
      [|done].
    exists past, current. repeat split; [|done|done].
    apply find_past_spec in Hfind as (older & between & E & Hp & Hb).
    exists older, between. repeat split; [|done|done].
    rewrite (history_split _ _ Hlast) at 1. rewrite E.
    by rewrite <- app_assoc.
  - intros (past & current & (older & between & E & Hp & Hb) & Hz & Hmove).
    rewrite E.
    replace (older ++ past :: between ++ [current])
      with ((older ++ past :: between) ++ [current])
      by (by rewrite <- app_assoc).
    rewrite last_snoc, removelast_snoc.
    destruct (Nat.ltb_spec (length ((older ++ past :: between) ++ [current])) 2)
      as [Hlen|_].
    { rewrite !length_app in Hlen. simpl in Hlen. lia. }
    assert (find_past d current (older ++ past :: between) = Some past)
      as -> by (apply find_past_spec; eauto).
    destruct (Z.eqb_spec (price past) 0); [done|].
    destruct (Z.leb_spec (min_move d) (Z.abs (price current - price past)));
      [|lia].
    eauto.
Qed.

Lemma emits_past_cooldown d t_check t_record :
  emits t_check t_record d ->
  cooldown_seconds d <= t_check - last_spike_time d.
Proof.
  intros [ev Hev]. unfold detect_spike in Hev.
  destruct (Z.ltb_spec (t_check - last_spike_time d) (cooldown_seconds d));
    [done|lia].
Qed.

Lemma nearest_is_prior d past current :
  nearest_in_band d past current -> prior_in_band d past current.
Proof. intros (older & between & E & Hp & _). by exists older, between. Qed.

(** If some earlier sample is in the band, the backward scan stops at
    one. *)
Lemma prior_gives_nearest d past current :
  prior_in_band d past current ->
  exists past', nearest_in_band d past' current.
Proof.
  intros (older & between & E & Hp).
  destruct (find_past d current (older ++ past :: between))
    as [past'|] eqn:Hfind.
  - exists past'. apply find_past_spec in Hfind as (o' & b' & E' & Hp' & Hb').
    exists o', b'. repeat split; [|done|done].
    rewrite E.
    replace (older ++ past :: between ++ [current])
      with ((older ++ past :: between) ++ [current])
      by (by rewrite <- app_assoc).
    rewrite E'. by rewrite <- app_assoc.
  - unfold find_past in Hfind.
    pose proof (List.find_none _ _ Hfind past) as Hnone.
    rewrite Hnone in Hp; [done|].
    apply -> in_rev. apply in_or_app. right. by left.
Qed.

(** C1 (as amended). [detect_spike] looks only at pairs made of the
    newest sample and an earlier one: it returns an event only if some
    earlier sample whose age against the newest one lies in the band
    [[time_window_min, time_window_max]] differs from it by at least
    [min_move]; and, outside the cooldown, it does return an event when
    such earlier samples exist and every one of them has a non-zero
    price and differs from the newest by at least [min_move]. *)
Theorem detect_spike_pairs_with_newest d t_check t_record :
  (emits t_check t_record d ->
   exists past current,
     prior_in_band d past current /\
     min_move d <= Z.abs (price current - price past)) /\
  (cooldown_seconds d <= t_check - last_spike_time d ->
   (exists past current, prior_in_band d past current) ->
   (forall past current,
      prior_in_band d past current ->
      price past <> 0 /\ min_move d <= Z.abs (price current - price past)) ->
   emits t_check t_record d).
Proof.
  split.
  - intros Hem. pose proof (emits_past_cooldown _ _ _ Hem) as Hcd.
    apply (detect_spike_emits_iff d t_check t_record Hcd) in Hem
      as (past & current & Hn & _ & Hmove).
    exists past, current. split; [by apply nearest_is_prior|done].
  - intros Hcd (past & current & Hp) Hall.
    apply (detect_spike_emits_iff d t_check t_record Hcd).
    destruct (prior_gives_nearest _ _ _ Hp) as [past' Hn].
    exists past', current. split; [done|].
    apply Hall. by apply nearest_is_prior.
Qed.

Lemma detect_spike_pairs_with_newest_witness :
  (emits 1000 1000 scenario ->
   exists past current,
     prior_in_band scenario past current /\
     min_move scenario <= Z.abs (price current - price past)) /\
  emits 1000 1000 scenario.
Proof.
  destruct (detect_spike_pairs_with_newest scenario 1000 1000) as [H1 H2].
  split; [exact H1|]. apply H2.
  - vm_compute. discriminate.
  - exists (mkEntry 50050 1), (mkEntry 50250 5).
    exists [mkEntry 50000 0], []. by split.
  - intros past current (older & between & E & Hp).
    change (price_history scenario)
      with ([mkEntry 50000 0; mkEntry 50050 1] ++ [mkEntry 50250 5]) in E.
    replace (older ++ past :: between ++ [current])
      with ((older ++ past :: between) ++ [current]) in E
      by (by rewrite <- app_assoc).
    apply app_inj_tail in E as [E <-].
    assert (In past [mkEntry 50000 0; mkEntry 50050 1]) as Hin.
    { rewrite E. apply in_or_app. right. by left. }
    destruct Hin as [<-|[<-|[]]]; split; vm_compute; discriminate.
Defined.

(** C1 (as stated) fails: in [stale] the samples at t=0 and t=4 are in
    the band and 200 apart, but neither is in the band of the newest
    sample, at t=20, and [detect_spike] returns [None]. *)
Lemma some_pair_in_band_not_detected :
  ~ (emits 1000 1000 stale <-> some_pair_in_band stale).
Proof.
  intros [_ H]. destruct H as [ev Hev]; [|by vm_compute in Hev].
  exists 0%nat, 1%nat, (mkEntry 50000 0), (mkEntry 50200 4).
  repeat split; try reflexivity; try (simpl; lia); vm_compute; discriminate.
Qed.

(** The scenario, evaluated: past the start-up cooldown the event is
    computed against the sample at t=1. *)
Lemma scenario_detect t_check t_record :
  30 <= t_check ->
  detect_spike t_check t_record scenario =
    (Returned (Some (make_info (mkEntry 50250 5) (mkEntry 50050 1))),
     record_spike t_record scenario).
Proof.
  intros H. unfold detect_spike.
  change (last_spike_time scenario) with 0.
  change (cooldown_seconds scenario) with 30.
  destruct (Z.ltb_spec (t_check - 0) 30); [lia|]. reflexivity.
Qed.

(** C4, on the code. In the scenario, [detect_spike] called once the
    clock is 30 s past the initial [last_spike_time] returns an "up"
    event, but with the price change 200 computed against the sample at
    t=1 (4 s back, where the backward scan stops), not 250 against the
    sample at t=0; after a further sample at t=6, of any price,
    [detect_spike] called less than 30 s of clock time after the first
    detection returns [None]. *)
Theorem scenario_up_200_then_cooldown t_check t_record :
  30 <= t_check ->
  exists ev d',
    detect_spike t_check t_record scenario = (Returned (Some ev), d') /\
    direction ev = Up /\ price_change ev = 200 /\
    old_price ev = 50050 /\ new_price ev = 50250 /\ time_window ev = 4 /\
    forall p now t_check' t_record',
      t_check' - t_record < 30 ->
      detect_spike t_check' t_record' (add_price p (Some 6) now d')
      = (Returned None, add_price p (Some 6) now d').
Proof.
  intros H. eexists _, _. split; [by apply scenario_detect|].
  repeat split. intros p now t1 t2 Hcd. unfold detect_spike.
  change (last_spike_time (add_price p (Some 6) now
                             (record_spike t_record scenario)))
    with t_record.
  change (cooldown_seconds (add_price p (Some 6) now
                              (record_spike t_record scenario)))
    with 30.
  destruct (Z.ltb_spec (t1 - t_record) 30); [done|lia].
Qed.

Lemma scenario_up_200_then_cooldown_witness :
  exists ev d',
    detect_spike 1000 1000 scenario = (Returned (Some ev), d') /\
    direction ev = Up /\ price_change ev = 200 /\
    old_price ev = 50050 /\ new_price ev = 50250 /\ time_window ev = 4 /\
    forall p now t_check' t_record',
      t_check' - 1000 < 30 ->
      detect_spike t_check' t_record' (add_price p (Some 6) now d')
      = (Returned None, add_price p (Some 6) now d').
Proof.
  apply (scenario_up_200_then_cooldown 1000 1000). vm_compute. discriminate.
Defined.

(** Whatever the clock reads, no event of the scenario has the price
    change 250 of the sample at t=0. *)
Lemma scenario_not_250_against_t0 :
  ~ (exists t_check t_record ev,
       (detect_spike t_check t_record scenario).1 = Returned (Some ev) /\
       direction ev = Up /\ price_change ev = 250 /\ old_price ev = 50000).
Proof.
  intros (t1 & t2 & ev & Hev & _ & Hch & _).
  destruct (Z.lt_ge_cases t1 30) as [Hlt|Hge].
  - unfold detect_spike in Hev.
    change (last_spike_time scenario) with 0 in Hev.
    change (cooldown_seconds scenario) with 30 in Hev.
    destruct (Z.ltb_spec (t1 - 0) 30); [done|lia].
  - rewrite (scenario_detect t1 t2 Hge) in Hev. simpl in Hev.
    injection Hev as <-. by vm_compute in Hch.
Qed.

(** The repository's own test expects an event against the sample at
    [base_time], 200 below the newest one; the backward scan stops at
    the sample three seconds back, 100 below, and no event is returned. *)
Lemma test_detect_spike_up_returns_none base_time t_check t_record :
  0 <= t_check ->
  (detect_spike t_check t_record (test_detect_spike_up base_time)).1
  = Returned None.
Proof.
  intros H. unfold detect_spike.
  change (last_spike_time (test_detect_spike_up base_time)) with 0.
  change (cooldown_seconds (test_detect_spike_up base_time)) with 0.
  destruct (Z.ltb_spec (t_check - 0) 0); [done|].
  cbn -[Z.add Z.sub Z.leb]. unfold find_past, in_window.
  cbn -[Z.add Z.sub Z.leb].
  replace (base_time + 5 - (base_time + 2)) with 3 by lia.
  reflexivity.
Qed.

(** [detect_spike] either records the spike, past the cooldown, or
    leaves the detector alone and returns no event. *)
Lemma detect_spike_state t_check t_record d :
  (exists ev,
      detect_spike t_check t_record d
      = (Returned (Some ev), record_spike t_record d) /\
      cooldown_seconds d <= t_check - last_spike_time d) \/
  (exists o, detect_spike t_check t_record d = (o, d) /\
             forall ev, o <> Returned (Some ev)).
Proof.
  unfold detect_spike.
  destruct (Z.ltb_spec (t_check - last_spike_time d) (cooldown_seconds d));
    [right; by eexists|].
  destruct (length (price_history d) <? 2)%nat; [right; by eexists|].
  destruct (last (price_history d)) as [current|]; [|right; by eexists].
  destruct (find_past d current (removelast (price_history d))) as [past|];
    [|right; by eexists].
  destruct (price past =? 0); [right; by eexists|].
  destruct (min_move d <=? Z.abs (price current - price past));
    [left|right]; by eexists.
Qed.

Lemma spaced_apart gap evs :
  0 <= gap -> spaced gap evs -> apart emitted_at gap evs.
Proof.
  intros Hgap. induction evs as [|e evs IH]; intros Hs i j e1 e2 Hij H1 H2.
  - by rewrite lookup_nil in H1.
  - destruct Hs as [Hhd Htl]. destruct j as [|j]; [lia|].
    rewrite lookup_cons in H2. destruct i as [|i].
    + injection H1 as <-. rewrite Forall_forall in Hhd.
      assert (gap <= emitted_at e2 - emitted_at e).
      { apply Hhd. by eapply list_elem_of_lookup_2. }
      lia.
    + rewrite lookup_cons in H1. eapply IH; [done| |done..]. lia.
Qed.

(** The invariant of a run: every event is emitted at least a cooldown
    after the [last_spike_time] the run started with, and the events are
    spaced by the cooldown. *)
Lemma run_spaced calls : forall d,
  0 <= cooldown_seconds d -> clock_ok calls ->
  Forall (fun e => cooldown_seconds d <= emitted_at e - last_spike_time d)
         (run calls d).1 /\
  spaced (cooldown_seconds d) (run calls d).1.
Proof.
  induction calls as [|c calls IH]; intros d Hcd Hok; [by split|].
  inversion Hok as [|? ? Hc Hrest]; subst.
  destruct c as [p ts now|t1 t2]; simpl.
  - apply (IH (add_price p ts now d)); done.
  - destruct (detect_spike_state t1 t2 d) as [(ev & -> & Hpast)|(o & -> & Ho)].
    + destruct (IH (record_spike t2 d) Hcd Hrest) as [Hall Hsp].
      simpl in Hall, Hsp.
      destruct (run calls (record_spike t2 d)) as [evs d''] eqn:Hrun.
      simpl in *. split; [|split; [|done]].
      * constructor; [simpl; lia|].
        eapply Forall_impl; [exact Hall|]. simpl. intros e He. lia.
      * eapply Forall_impl; [exact Hall|]. simpl. intros e He. lia.
    + assert (run calls d = match o with
                            | Returned (Some ev) =>
                                let '(evs, d'') := run calls d in
                                (mkEmitted t2 ev :: evs, d'')
                            | _ => run calls d
                            end) as <-.
      { destruct o as [[ev|]|]; [by destruct (Ho ev)|done..]. }
      by apply IH.
Qed.

(** C5 (as amended). For a non-negative cooldown and a clock that does
    not run backwards inside a [detect_spike] call, any two events that a
    sequence of [add_price] and [detect_spike] calls emits are at least
    the cooldown apart in the clock values at which they were emitted
    (the values stored in [last_spike_time]). *)
Theorem events_apart_by_clock calls d :
  0 <= cooldown_seconds d -> clock_ok calls ->
  apart emitted_at (cooldown_seconds d) (run calls d).1.
Proof.
  intros Hcd Hok. apply spaced_apart; [done|]. by apply run_spaced.
Qed.

Lemma events_apart_by_clock_witness :
  apart emitted_at (cooldown_seconds with_defaults) (run replayed with_defaults).1.
Proof.
  apply (events_apart_by_clock replayed with_defaults).
  - vm_compute. discriminate.
  - unfold clock_ok, replayed. repeat constructor; vm_compute; discriminate.
Defined.

(** C5 (as stated) fails: the two events of [replayed] are emitted 30 s
    of clock time apart, but both carry the [detection_time] 1005 of the
    newest sample. *)
Lemma events_not_apart_by_detection_time :
  ~ apart (fun e => detection_time (info e)) (cooldown_seconds with_defaults)
          (run replayed with_defaults).1.
Proof.
  intros H.
  specialize (H 0%nat 1%nat _ _ (Nat.lt_0_succ 0) eq_refl eq_refl).
  vm_compute in H. by apply H.
Qed.

End SpikeTheory.

(* ================================================================== *)
(** ** Properties of the connection pool *)
(* ================================================================== *)

Module PoolTheory.
Import Pool.

Lemma state_eqb_eq a b : state_eqb a b = true <-> a = b.
Proof. destruct a, b; simpl; split; congruence. Qed.

Lemma _open_circuit_counted now p :
  0 <= error_count p -> counted (_open_circuit now p).
Proof.
  intros H. unfold _open_circuit, counted.
  destruct (state_eqb (state p) CIRCUIT_OPEN) eqn:Hs; simpl.
  - apply state_eqb_eq in Hs. rewrite Hs. split; [done|discriminate].
  - split; [done|discriminate].
Qed.

Lemma _update_state_counted now p :
  0 <= error_count p -> counted (_update_state now p).
Proof.
  intros H. unfold _update_state.
  destruct (state_eqb (state p) CIRCUIT_OPEN) eqn:Hs.
  - apply state_eqb_eq in Hs.
    destruct (circuit_timeout p <? now - circuit_opened_at p).
    + split; simpl; [lia|done].
    + split; [done|]. rewrite Hs. discriminate.
  - destruct (Z.leb_spec (error_threshold p) (error_count p)).
    + by apply _open_circuit_counted.
    + destruct (Z.ltb_spec 0 (error_count p)); split; simpl;
        try done; try discriminate. lia.
Qed.

Lemma call_counted c p : counted p -> counted (call c p).
Proof.
  intros [Hc Hh]. destruct c as [name now|name|name now|name now|name ms];
    simpl.
  - done.
  - done.
  - unfold record_success. apply _update_state_counted.
    destruct (connections p !! name); simpl;
      destruct (0 <? error_count p); simpl; lia.
  - unfold record_error.
    set (p3 := _update_state now _).
    assert (counted p3) as H3.
    { apply _update_state_counted. destruct (connections p !! name); simpl; lia. }
    destruct (error_threshold p3 <=? error_count p3);
      [apply _open_circuit_counted; apply H3|done].
  - unfold record_latency. destruct (connections p !! name); [|done].
    simpl. destruct (avg_above _ _); [|done].
    destruct (state_eqb (state p) HEALTHY); [|done].
    split; simpl; [done|discriminate].
Qed.

Lemma run_counted calls : forall p, counted p -> counted (run calls p).
Proof.
  unfold run. induction calls as [|c calls IH]; intros p H; [done|].
  simpl. apply IH. by apply call_counted.
Qed.

Lemma init_counted lt et ct : counted (init lt et ct).
Proof. by split. Qed.

(** One [record_error] on a circuit that is not open: the counter grows
    by one; the circuit opens if the threshold is reached and the state
    is [DEGRADED] otherwise. The thresholds are left alone. *)
Lemma record_error_closed name now p :
  state p <> CIRCUIT_OPEN -> 0 <= error_count p ->
  let p' := record_error name now p in
  error_count p' = error_count p + 1 /\
  error_threshold p' = error_threshold p /\
  state p' = (if error_threshold p <=? error_count p + 1
              then CIRCUIT_OPEN else DEGRADED).
Proof.
  intros Hs Hc. unfold record_error.
  set (p2 := set_error_count _ _).
  assert (state p2 = state p /\ error_count p2 = error_count p + 1 /\
          error_threshold p2 = error_threshold p) as (E1 & E2 & E3).
  { subst p2. by destruct (connections p !! name). }
  clearbody p2. unfold _update_state. rewrite E1.
  destruct (state_eqb (state p) CIRCUIT_OPEN) eqn:Hopen.
  { by apply state_eqb_eq in Hopen. }
  rewrite E2, E3. unfold _open_circuit. rewrite E1, Hopen.
  destruct (Z.leb_spec (error_threshold p) (error_count p + 1)) as [Hge|Hlt].
  - simpl. rewrite E2, E3.
    destruct (Z.leb_spec (error_threshold p) (error_count p + 1)); [|lia].
    done.
  - destruct (Z.ltb_spec 0 (error_count p + 1)); [|lia]. simpl.
    rewrite E2, E3.
    destruct (Z.leb_spec (error_threshold p) (error_count p + 1)); [lia|].
    done.
Qed.

(** Errors in a row on a closed circuit open it when the counter reaches
    the threshold with the last of them. *)
Lemma record_errors_open errs : forall p,
  state p <> CIRCUIT_OPEN -> 0 <= error_count p ->
  errs <> [] ->
  error_count p + Z.of_nat (length errs) = error_threshold p ->
  state (record_errors errs p) = CIRCUIT_OPEN.
Proof.
  induction errs as [|[name now] errs IH]; intros p Hs Hc Hne Hlen; [done|].
  unfold record_errors, run. simpl.
  destruct (record_error_closed name now p Hs Hc) as (E1 & E2 & E3).
  simpl in Hlen. destruct errs as [|e errs].
  - simpl. rewrite E3. simpl in Hlen.
    destruct (Z.leb_spec (error_threshold p) (error_count p + 1)); [done|lia].
  - apply (IH (record_error name now p)).
    + rewrite E3.
      destruct (Z.leb_spec (error_threshold p) (error_count p + 1));
        [|discriminate].
      simpl in Hlen. lia.
    + lia.
    + done.
    + rewrite E1, E2. simpl in *. lia.
Qed.

Ltac case_branches :=
  repeat (match goal with
          | |- context [match ?x with _ => _ end] => destruct x
          end; simpl).

(** No call changes the configured threshold. *)
Lemma call_error_threshold c p :
  error_threshold (call c p) = error_threshold p.
Proof.
  destruct c; simpl; try done.
  - unfold record_success, _update_state, _open_circuit.
    case_branches; done.
  - unfold record_error, _update_state, _open_circuit.
    case_branches; done.
  - unfold record_latency. case_branches; done.
Qed.

Lemma run_error_threshold calls : forall p,
  error_threshold (run calls p) = error_threshold p.
Proof.
  unfold run. induction calls as [|c calls IH]; intros p; [done|].
  simpl. by rewrite IH, call_error_threshold.
Qed.

(** C6. From any pool that a run of calls has left in the [HEALTHY]
    state, [error_threshold] calls of [record_error] in a row (any
    connection names, any clock values, threshold at least one) leave the
    state [CIRCUIT_OPEN] and [can_execute()] false. *)
Theorem errors_at_threshold_open_circuit lt et ct calls errs :
  1 <= et ->
  state (run calls (init lt et ct)) = HEALTHY ->
  Z.of_nat (length errs) = et ->
  let p := record_errors errs (run calls (init lt et ct)) in
  state p = CIRCUIT_OPEN /\ can_execute p = false.
Proof.
  intros Het Hh Hlen.
  assert (error_threshold (run calls (init lt et ct)) = et) as Hthr
    by (by rewrite run_error_threshold).
  destruct (run_counted calls _ (init_counted lt et ct)) as [Hc Hzero].
  assert (state (record_errors errs (run calls (init lt et ct))) = CIRCUIT_OPEN)
    as Hopen.
  { apply record_errors_open.
    - rewrite Hh. discriminate.
    - done.
    - intros ->. simpl in Hlen. lia.
    - rewrite (Hzero Hh), Hthr. lia. }
  simpl. split; [done|]. unfold can_execute. by rewrite Hopen.
Qed.

Lemma errors_at_threshold_open_circuit_witness :
  let p := record_errors (replicate 5 ("strategy_execution"%string, 0))
                         (run [] (init 200 5 60)) in
  state p = CIRCUIT_OPEN /\ can_execute p = false.
Proof.
  apply (errors_at_threshold_open_circuit 200 5 60 []
           (replicate 5 ("strategy_execution"%string, 0)));
    [vm_compute; discriminate|reflexivity|reflexivity].
Defined.

(** The timeout branch of [_update_state]: an open circuit whose
    timeout has passed becomes [DEGRADED], with the counter at zero. *)
Lemma _update_state_recovers now p :
  state p = CIRCUIT_OPEN ->
  circuit_timeout p < now - circuit_opened_at p ->
  state (_update_state now p) = DEGRADED /\
  error_count (_update_state now p) = 0.
Proof.
  intros Hs Ht. unfold _update_state. rewrite Hs. simpl.
  destruct (Z.ltb_spec (circuit_timeout p) (now - circuit_opened_at p));
    [done|lia].
Qed.

(** C7, on the code. The circuit of [tripped] opened at clock value 0
    with a timeout of 60 s. [can_execute()] reads neither the clock nor
    [_update_state]: it answers false however late it is asked, also
    after a [record_latency], until a [record_success] or [record_error]
    call (here at clock value 1000) runs the timeout branch and leaves
    the state [DEGRADED] with the counter at zero. *)
Theorem open_circuit_closes_only_on_record_call :
  state tripped = CIRCUIT_OPEN /\ circuit_opened_at tripped = 0 /\
  circuit_timeout tripped = 60 /\
  can_execute tripped = false /\
  can_execute (record_latency "strategy_execution" 50 tripped) = false /\
  state (record_success "strategy_execution" 1000 tripped) = DEGRADED /\
  error_count (record_success "strategy_execution" 1000 tripped) = 0 /\
  can_execute (record_success "strategy_execution" 1000 tripped) = true.
Proof. vm_compute. repeat split. Qed.

End PoolTheory.

(* ================================================================== *)
(** ** Properties of the market scanner *)
(* ================================================================== *)

Module ScannerTheory.
Import Scanner.

Section WithParser.

Variable fromisoformat : string -> option Z.

Local Abbreviation _cleanup_closed_markets := (_cleanup_closed_markets fromisoformat).
Local Abbreviation scan_loop := (scan_loop fromisoformat).
Local Abbreviation scan_markets := (scan_markets fromisoformat).
Local Abbreviation loop_iteration := (loop_iteration fromisoformat).
Local Abbreviation start := (start fromisoformat).
Local Abbreviation call := (call fromisoformat).
Local Abbreviation run := (run fromisoformat).

Lemma register_paired m toks st : paired st -> paired (register m toks st).
Proof.
  unfold paired, register. simpl. intros H. by rewrite !dom_insert_L, H.
Qed.

Lemma remove_market_paired k st : paired st -> paired (remove_market k st).
Proof.
  unfold paired, remove_market. simpl. intros H.
  by rewrite !dom_delete_L, H.
Qed.

Lemma scan_loop_paired now markets : forall st new_markets,
  paired st -> paired (scan_loop now markets st new_markets).1.
Proof.
  induction markets as [|[m| |market_id] rest IH]; intros st new_markets H;
    [done| |done|simpl; case_bool_decide; [by apply IH|done]].
  simpl. case_bool_decide; [by apply IH|].
  destruct (negb (_matches_criteria st m)); [by apply IH|].
  destruct (negb (_has_sufficient_time fromisoformat st now m));
    [by apply IH|].
  destruct (resolved_tokens m) as [toks|]; [|by apply IH].
  destruct (_ <=? _); [by apply register_paired|].
  apply IH. by apply register_paired.
Qed.

Lemma scan_markets_paired response now st :
  paired st -> paired (scan_markets response now st).1.
Proof.
  intros H. unfold scan_markets. destruct response as [markets|]; [|done].
  pose proof (scan_loop_paired now markets st [] H) as H'.
  by destruct (scan_loop now markets st []) as [st' [new_markets|]].
Qed.

Lemma remove_all_paired ids : forall st,
  paired st ->
  paired (foldl (fun st market_id => remove_market market_id st) st ids).
Proof.
  induction ids as [|k ids IH]; intros st H; [done|].
  simpl. apply IH. by apply remove_market_paired.
Qed.

Lemma call_paired c st : paired st -> paired (call c st).
Proof.
  intros H. destruct c as [r now| |r now|now|r now]; simpl.
  - unfold start. destruct (running st); [done|].
    by apply scan_markets_paired.
  - done.
  - by apply scan_markets_paired.
  - by apply remove_all_paired.
  - unfold loop_iteration. destruct (running st); [|done].
    destruct (_ <? _); [apply scan_markets_paired|];
      by apply remove_all_paired.
Qed.

Lemma run_paired calls : forall st, paired st -> paired (run calls st).
Proof.
  unfold run. induction calls as [|c calls IH]; intros st H; [done|].
  simpl. apply IH. by apply call_paired.
Qed.

(** C10. After any sequence of [start], [stop], [scan_markets],
    [_cleanup_closed_markets] and scanning-loop turns on a fresh
    scanner, [get_market_tokens(id)] returns a token pair exactly when
    [get_market_by_id(id)] returns a market. *)
Theorem registry_maps_share_keys kws excl maxm interval min_time calls
    market_id :
  let st := run calls (init kws excl maxm interval min_time) in
  is_Some (get_market_tokens st market_id) <->
  is_Some (get_market_by_id st market_id).
Proof.
  simpl. unfold get_market_tokens, get_market_by_id.
  rewrite <- !elem_of_dom.
  assert (paired (run calls (init kws excl maxm interval min_time))) as ->.
  { apply run_paired. unfold paired. simpl. by rewrite !dom_empty_L. }
  done.
Qed.

(** What a scan leaves alone. *)
Lemma scan_loop_config now markets : forall st new_markets,
  let st' := (scan_loop now markets st new_markets).1 in
  max_markets st' = max_markets st /\ running st' = running st.
Proof.
  induction markets as [|[m| |market_id] rest IH]; intros st new_markets;
    [done| |done|simpl; case_bool_decide; [by apply IH|done]].
  simpl. case_bool_decide; [by apply IH|].
  destruct (negb (_matches_criteria st m)); [by apply IH|].
  destruct (negb (_has_sufficient_time fromisoformat st now m));
    [by apply IH|].
  destruct (resolved_tokens m) as [toks|]; [|by apply IH].
  destruct (_ <=? _); [done|].
  by destruct (IH (register m toks st) (new_markets ++ [m])).
Qed.

(** A scan that starts below the capacity stops at the capacity. *)
Lemma scan_loop_within_capacity now markets : forall st new_markets,
  Z.of_nat (size (active_markets st)) < max_markets st ->
  within_capacity (scan_loop now markets st new_markets).1.
Proof.
  unfold within_capacity.
  induction markets as [|[m| |market_id] rest IH]; intros st new_markets H;
    [simpl; lia| |simpl; lia
    |simpl; case_bool_decide; [by apply IH|simpl; lia]].
  simpl. case_bool_decide as Hin; [by apply IH|].
  destruct (negb (_matches_criteria st m)); [by apply IH|].
  destruct (negb (_has_sufficient_time fromisoformat st now m));
    [by apply IH|].
  destruct (resolved_tokens m) as [toks|]; [|by apply IH].
  assert (size (<[id m := m]> (active_markets st))
          = S (size (active_markets st))) as Hsize.
  { apply map_size_insert_None. destruct (active_markets st !! id m) eqn:E;
      [|done]. destruct Hin. by eexists. }
  destruct (Z.leb_spec (max_markets st)
              (Z.of_nat (size (<[id m := m]> (active_markets st)))));
    simpl.
  - rewrite Hsize. lia.
  - by apply IH.
Qed.

Lemma scan_markets_within_capacity response now st :
  Z.of_nat (size (active_markets st)) < max_markets st ->
  within_capacity (scan_markets response now st).1.
Proof.
  intros H. unfold scan_markets. destruct response as [markets|].
  - pose proof (scan_loop_within_capacity now markets st [] H) as H'.
    by destruct (scan_loop now markets st []) as [st' [new_markets|]].
  - unfold within_capacity. simpl. lia.
Qed.

Lemma scan_markets_config response now st :
  let st' := (scan_markets response now st).1 in
  max_markets st' = max_markets st /\ running st' = running st.
Proof.
  unfold scan_markets. destruct response as [markets|]; [|done].
  pose proof (scan_loop_config now markets st []) as H.
  by destruct (scan_loop now markets st []) as [st' [new_markets|]].
Qed.

(** Eviction only shrinks the registry. *)
Lemma remove_all_shrinks ids : forall st,
  let st' := foldl (fun st market_id => remove_market market_id st) st ids in
  active_markets st' ⊆ active_markets st /\
  max_markets st' = max_markets st /\ running st' = running st.
Proof.
  induction ids as [|k ids IH]; intros st; [done|].
  simpl. destruct (IH (remove_market k st)) as (Hsub & Hmax & Hrun).
  split; [|done]. etrans; [exact Hsub|]. simpl. apply delete_subseteq.
Qed.

Lemma cleanup_shrinks now st :
  let st' := _cleanup_closed_markets now st in
  active_markets st' ⊆ active_markets st /\
  max_markets st' = max_markets st /\ running st' = running st.
Proof. apply remove_all_shrinks. Qed.

(** A turn of the scanning loop keeps the registry within capacity. *)
Lemma loop_iteration_within_capacity response now st :
  within_capacity st ->
  within_capacity (loop_iteration response now st) /\
  max_markets (loop_iteration response now st) = max_markets st.
Proof.
  intros H. unfold loop_iteration. destruct (running st); [|done].
  destruct (cleanup_shrinks now st) as (Hsub & Hmax & _).
  destruct (Z.ltb_spec
              (Z.of_nat (size (active_markets (_cleanup_closed_markets now st))))
              (max_markets (_cleanup_closed_markets now st))) as [Hlt|Hge].
  - split; [by apply scan_markets_within_capacity|].
    by destruct (scan_markets_config response now
                   (_cleanup_closed_markets now st)) as [-> _].
  - split; [|done]. unfold within_capacity in *. rewrite Hmax.
    apply map_subseteq_size in Hsub. lia.
Qed.

Lemma background_run_within_capacity calls : forall st,
  Forall background calls -> within_capacity st ->
  within_capacity (run calls st) /\
  max_markets (run calls st) = max_markets st.
Proof.
  unfold run. induction calls as [|c calls IH]; intros st Hbg H; [done|].
  inversion Hbg as [|? ? Hc Hrest]; subst. simpl.
  destruct c as [r now| |r now|now|r now]; try done; simpl.
  - by apply (IH (stop st)).
  - destruct (loop_iteration_within_capacity r now st H) as [H1 H2].
    destruct (IH (loop_iteration r now st) Hrest H1) as [H3 H4].
    split; [done|]. by rewrite H4.
Qed.

(** C3 (as amended). With [max_markets] at least one, after [start()]
    on a fresh scanner and any number of turns of the scanning loop
    (cleanup, then [scan_markets] only below the capacity) and [stop()]
    calls, the registry never holds more than [max_markets] markets;
    and a further loop turn whose cleanup leaves [max_markets] or more
    markets registers no new one, whatever the catalog offers. *)
Theorem registry_within_capacity kws excl maxm interval min_time
    response0 now0 calls :
  1 <= maxm -> Forall background calls ->
  let st := run calls (start response0 now0
                         (init kws excl maxm interval min_time)) in
  within_capacity st /\
  forall response now,
    max_markets st
      <= Z.of_nat (size (active_markets (_cleanup_closed_markets now st))) ->
    active_markets (loop_iteration response now st) ⊆ active_markets st.
Proof.
  intros Hmax Hbg. simpl. split.
  - apply background_run_within_capacity; [done|].
    unfold start. simpl. apply scan_markets_within_capacity. simpl.
    rewrite map_size_empty. lia.
  - intros response now Hfull. unfold loop_iteration.
    destruct (running _); [|done].
    destruct (Z.ltb_spec
                (Z.of_nat (size (active_markets (_cleanup_closed_markets now
                   (run calls (start response0 now0
                      (init kws excl maxm interval min_time)))))))
                (max_markets (_cleanup_closed_markets now
                   (run calls (start response0 now0
                      (init kws excl maxm interval min_time))))))
      as [Hlt|_].
    + destruct (cleanup_shrinks now
                  (run calls (start response0 now0
                     (init kws excl maxm interval min_time))))
        as (_ & E & _).
      rewrite E in Hlt. lia.
    + apply cleanup_shrinks.
Qed.

End WithParser.

Lemma registry_within_capacity_witness :
  let st := Scanner.run (fun _ => None)
              [Iterate (Some [Typed (btc_market "C")]) 1010]
              (Scanner.start (fun _ => None)
                 (Some [Typed (btc_market "A"); Typed (btc_market "B")]) 1000
                 (init ["BTC"%string] ["test"%string] 2 10 120)) in
  within_capacity st /\
  forall response now,
    max_markets st
      <= Z.of_nat (size (active_markets
                           (Scanner._cleanup_closed_markets (fun _ => None) now st))) ->
    active_markets (Scanner.loop_iteration (fun _ => None) response now st)
      ⊆ active_markets st.
Proof.
  apply (registry_within_capacity (fun _ => None)
           ["BTC"%string] ["test"%string] 2 10 120
           (Some [Typed (btc_market "A"); Typed (btc_market "B")]) 1000
           [Iterate (Some [Typed (btc_market "C")]) 1010]).
  - vm_compute. discriminate.
  - repeat constructor.
Defined.

(** C3 (as stated) fails: [scan_markets] called on the scanner [full],
    which holds its two markets A and B, registers the candidate C,
    returns it as new, and leaves three markets in the registry. *)
Lemma scan_markets_at_capacity_registers :
  ~ (within_capacity
       (Scanner.scan_markets (fun _ => None) (Some [Typed (btc_market "C")]) 1010 full).1
     \/ (Scanner.scan_markets (fun _ => None) (Some [Typed (btc_market "C")]) 1010 full).2
        = []).
Proof.
  intros [H|H]; [|by vm_compute in H].
  unfold within_capacity in H. vm_compute in H. by apply H.
Qed.

End ScannerTheory.

(* ================================================================== *)
(** ** Properties of the strategy orchestrator *)
(* ================================================================== *)

Module OrchestratorTheory.
Import Orchestrator.

Lemma staged_nil lo hi : staged lo hi [].
Proof.
  split; [constructor|]. intros i j a b _ H. by rewrite lookup_nil in H.
Qed.

Lemma staged_weaken lo hi lo' hi' tr :
  (lo' <= lo)%nat -> (hi <= hi')%nat -> staged lo hi tr -> staged lo' hi' tr.
Proof.
  intros Hlo Hhi [Hall Hord]. split; [|done].
  eapply Forall_impl; [exact Hall|]. simpl. intros ev ?. lia.
Qed.

(** Two stretches of a trace, the first below the second. *)
Lemma staged_app lo mid hi tr1 tr2 :
  (lo <= mid <= hi)%nat ->
  staged lo mid tr1 -> staged mid hi tr2 -> staged lo hi (tr1 ++ tr2).
Proof.
  intros Hmid [Hall1 Hord1] [Hall2 Hord2]. split.
  - apply Forall_app. split.
    + eapply Forall_impl; [exact Hall1|]. simpl. intros ev ?. lia.
    + eapply Forall_impl; [exact Hall2|]. simpl. intros ev ?. lia.
  - intros i j a b Hij Ha Hb.
    rewrite Forall_forall in Hall1. rewrite Forall_forall in Hall2.
    destruct (decide (j < length tr1)%nat) as [Hj|Hj].
    + rewrite lookup_app_l in Ha by lia. rewrite lookup_app_l in Hb by lia.
      by apply (Hord1 i j).
    + rewrite lookup_app_r in Hb by lia.
      assert (mid <= stage b)%nat.
      { apply Hall2. by eapply list_elem_of_lookup_2. }
      destruct (decide (i < length tr1)%nat) as [Hi|Hi].
      * rewrite lookup_app_l in Ha by lia.
        assert (stage a <= mid)%nat; [|lia].
        apply Hall1. by eapply list_elem_of_lookup_2.
      * rewrite lookup_app_r in Ha by lia.
        eapply (Hord2 (i - length tr1)%nat (j - length tr1)%nat); [lia|done..].
Qed.

(** A stretch of calls of one stage. *)
Lemma staged_uniform n tr :
  Forall (fun ev => stage ev = n) tr -> staged n n tr.
Proof.
  intros H. rewrite Forall_forall in H. split.
  - apply Forall_forall. intros ev Hev. rewrite (H ev Hev). lia.
  - intros i j a b _ Ha Hb.
    rewrite (H a), (H b); [done|by eapply list_elem_of_lookup_2..].
Qed.

Lemma scan_phase_events strats :
  Forall (fun ev => exists s, ev = EvScan s) (scan_phase strats).1.1.
Proof.
  induction strats as [|s rest IH]; simpl; [constructor|].
  destruct (scan_phase rest) as [[evs opps] active]. simpl in *.
  destruct (negb (is_enabled s)); [done|].
  destruct (scan_opportunities s) as [[signal|]|]; simpl;
    constructor; eauto.
Qed.

Lemma monitor_phase_events dry_run strats :
  Forall (fun ev => exists s, ev = EvMonitor s) (monitor_phase dry_run strats).1.
Proof.
  induction strats as [|s rest IH]; simpl; [constructor|].
  destruct (monitor_phase dry_run rest) as [evs closed]. simpl in *.
  destruct (negb (is_enabled s)); [done|].
  destruct (monitor_positions s dry_run); simpl; constructor; eauto.
Qed.

(** The inner loop calls [execute_trade] only on strategies of its
    priority key, and only when that key has capital above zero. *)
Lemma execute_for_key_events o dry_run key opps :
  Forall (fun ev => exists s signal,
              ev = EvExecute s signal /\ _get_strategy_key s = key /\
              (0 < default 0 (capital_allocated o !! key))%Q)
         (execute_for_key o dry_run key opps).1.1.
Proof.
  induction opps as [|opp rest IH]; simpl; [constructor|].
  destruct (String.eqb_spec (_get_strategy_key (opp_strategy opp)) key)
    as [Hkey|_]; [|done].
  destruct (positive _) eqn:Hpos; [|done].
  assert (0 < default 0 (capital_allocated o !! key))%Q as Hfunded.
  { unfold positive in Hpos. rewrite Hkey in Hpos.
    apply negb_true_iff in Hpos. apply Qnot_le_lt. intros Hle.
    apply Qle_bool_iff in Hle. congruence. }
  destruct (execute_trade _ _ _) as [position_id|].
  - destruct (execute_for_key o dry_run key rest) as [[evs trades] raised].
    simpl in *. constructor; [|done]. eauto.
  - simpl. constructor; [|constructor]. eauto.
Qed.

Lemma execute_phase_staged o dry_run opps keys : forall lo,
  (lo <= 4)%nat -> ranked lo keys ->
  staged lo 4 (execute_phase o dry_run keys opps).1.1.
Proof.
  induction keys as [|k rest IH]; intros lo Hlo Hr; [apply staged_nil|].
  destruct Hr as [Hk Hrest]. simpl.
  pose proof (execute_for_key_events o dry_run k opps) as Hevs.
  destruct (execute_for_key o dry_run k opps) as [[evs trades] raised].
  simpl in Hevs.
  assert (staged (key_rank k) (key_rank k) evs) as Hst.
  { apply staged_uniform. eapply Forall_impl; [exact Hevs|]. simpl.
    intros ev (s & signal & -> & <- & _). done. }
  destruct raised; simpl.
  - eapply staged_weaken; [| |exact Hst]; lia.
  - specialize (IH (key_rank k) ltac:(lia) Hrest).
    destruct (execute_phase o dry_run rest opps) as [[evs' trades'] raised'].
    simpl in *. apply (staged_weaken (key_rank k) 4); [lia|lia|].
    apply (staged_app _ (key_rank k)); [lia|done|done].
Qed.

Lemma execute_phase_funded o dry_run opps keys :
  funded o (execute_phase o dry_run keys opps).1.1.
Proof.
  unfold funded. induction keys as [|k rest IH]; simpl; [constructor|].
  pose proof (execute_for_key_events o dry_run k opps) as Hevs.
  destruct (execute_for_key o dry_run k opps) as [[evs trades] raised].
  simpl in Hevs.
  assert (funded o evs) as Hf.
  { eapply Forall_impl; [exact Hevs|]. simpl.
    intros ev (s & signal & -> & <- & H). done. }
  destruct raised; simpl; [done|].
  destruct (execute_phase o dry_run rest opps) as [[evs' trades'] raised'].
  simpl in *. apply Forall_app. by split.
Qed.

Lemma priority_order_ranked : ranked 1 priority_order.
Proof. vm_compute. repeat split; lia. Qed.

(** The shape of a cycle: scans, executions in priority order, monitors;
    and every execution is funded. *)
Lemma run_cycle_trace o dry_run :
  staged 0 5 (run_cycle o dry_run).2 /\ funded o (run_cycle o dry_run).2.
Proof.
  unfold run_cycle.
  pose proof (scan_phase_events (strategies o)) as Hscan.
  destruct (scan_phase (strategies o)) as [[scans opps] active].
  simpl in Hscan.
  pose proof (execute_phase_staged o dry_run opps priority_order 1
                ltac:(lia) priority_order_ranked) as Hexec.
  pose proof (execute_phase_funded o dry_run opps priority_order) as Hfund.
  destruct (execute_phase o dry_run priority_order opps)
    as [[execs trades] raised].
  simpl in Hexec, Hfund.
  pose proof (monitor_phase_events dry_run (strategies o)) as Hmon.
  assert (staged 0 0 scans) as Hs0.
  { apply staged_uniform. eapply Forall_impl; [exact Hscan|].
    by intros ev [s ->]. }
  assert (funded o scans) as Hf0.
  { eapply Forall_impl; [exact Hscan|]. by intros ev [s ->]. }
  destruct raised.
  - simpl. split.
    + apply (staged_app 0 1 5); [lia| |].
      * eapply staged_weaken; [| |exact Hs0]; lia.
      * eapply staged_weaken; [| |exact Hexec]; lia.
    + apply Forall_app. by split.
  - destruct (monitor_phase dry_run (strategies o)) as [monitors closed].
    simpl in *. split.
    + apply (staged_app 0 1 5); [lia| |].
      * eapply staged_weaken; [| |exact Hs0]; lia.
      * apply (staged_app 1 5 5); [lia| |].
        -- eapply staged_weaken; [| |exact Hexec]; lia.
        -- apply staged_uniform. eapply Forall_impl; [exact Hmon|].
           by intros ev [s ->].
    + apply Forall_app. split; [done|]. apply Forall_app. split; [done|].
      eapply Forall_impl; [exact Hmon|]. by intros ev [s ->].
Qed.

(** Every strategy has one of the four keys of [priority_order]. *)
Lemma strategy_key_in_priority_order s :
  In (_get_strategy_key s) priority_order.
Proof.
  assert (forall t k, key_of_text t = Some k -> In k priority_order) as Hk.
  { intros t k. unfold key_of_text.
    destruct (contains "Maker" t); [intros [= <-]; simpl; tauto|].
    destruct (contains "Probability" t); [intros [= <-]; simpl; tauto|].
    destruct (contains "Latency" t); [intros [= <-]; simpl; tauto|].
    destruct (contains "ML" t || contains "Pattern" t);
      [intros [= <-]; simpl; tauto|done]. }
  unfold _get_strategy_key.
  destruct (key_of_text (class_name s)) as [k|] eqn:E; [by eapply Hk|].
  destruct (name s) as [n|]; [|simpl; tauto].
  destruct (key_of_text n) as [k|] eqn:E'; [by eapply Hk|simpl; tauto].
Qed.

(** A signal found by the scan phase is among the opportunities. *)
Lemma scan_phase_finds strats s signal :
  In s strats -> is_enabled s = true ->
  scan_opportunities s = Returned (Some signal) ->
  In (mkOpp s signal) (scan_phase strats).1.2.
Proof.
  intros Hin Hen Hscan. induction strats as [|s' rest IH]; [done|].
  simpl. destruct (scan_phase rest) as [[evs opps] active]. simpl in IH.
  destruct Hin as [->|Hin].
  - rewrite Hen, Hscan. simpl. by left.
  - specialize (IH Hin). destruct (negb (is_enabled s')); [done|].
    destruct (scan_opportunities s') as [[signal'|]|]; simpl; try done.
    by right.
Qed.

(** In the calls of one cycle, an [execute_trade] on a signal of a
    latency-category strategy comes strictly before an [execute_trade]
    on a signal of a maker-category strategy, whatever the order of the
    strategies and of their signals. *)
Lemma execute_calls_in_priority_order o dry_run i j s1 signal1 s2 signal2 :
  (run_cycle o dry_run).2 !! i = Some (EvExecute s1 signal1) ->
  _get_strategy_key s1 = "latency"%string ->
  (run_cycle o dry_run).2 !! j = Some (EvExecute s2 signal2) ->
  _get_strategy_key s2 = "maker"%string ->
  (i < j)%nat.
Proof.
  intros Hi Hk1 Hj Hk2.
  destruct (run_cycle_trace o dry_run) as [[_ Hord] _].
  destruct (Nat.lt_trichotomy i j) as [Hlt|[Heq|Hgt]]; [done| |].
  - subst j. rewrite Hi in Hj. injection Hj as <- _. congruence.
  - specialize (Hord j i _ _ Hgt Hj Hi). simpl in Hord.
    rewrite Hk1, Hk2 in Hord. vm_compute in Hord. lia.
Qed.

Lemma raises_in_app dry_run tr1 tr2 :
  raises_in dry_run (tr1 ++ tr2)
  = raises_in dry_run tr1 || raises_in dry_run tr2.
Proof. apply existsb_app. Qed.

(** The flag of the inner loop says whether a call of the loop raised;
    when none did, the loop has executed every funded opportunity of its
    key. *)
Lemma execute_for_key_raised o dry_run key opps :
  (execute_for_key o dry_run key opps).2
  = raises_in dry_run (execute_for_key o dry_run key opps).1.1 /\
  ((execute_for_key o dry_run key opps).2 = false ->
   forall opp,
     In opp opps -> _get_strategy_key (opp_strategy opp) = key ->
     positive (default 0%Q (capital_allocated o !! key)) = true ->
     In (EvExecute (opp_strategy opp) (opp_signal opp))
        (execute_for_key o dry_run key opps).1.1).
Proof.
  induction opps as [|opp' rest IH]; [by split|].
  destruct IH as [Hflag Hall]. simpl.
  destruct (String.eqb_spec (_get_strategy_key (opp_strategy opp')) key)
    as [Hkey|Hkey].
  - rewrite Hkey.
    destruct (positive (default 0%Q (capital_allocated o !! key))) eqn:Hpos.
    + destruct (execute_trade (opp_strategy opp') (opp_signal opp') dry_run)
        as [position_id|] eqn:Hexec.
      * destruct (execute_for_key o dry_run key rest) as [[evs trades] raised].
        simpl in *. rewrite Hexec. simpl. split; [done|].
        intros Hr opp [<-|Hin] Hk Hp; [by left|right; by apply Hall].
      * simpl. rewrite Hexec. by split.
    + split; [done|].
      intros Hr opp [<-|Hin] Hk Hp; [congruence|by apply Hall].
  - split; [done|].
    intros Hr opp [<-|Hin] Hk Hp; [congruence|by apply Hall].
Qed.

Lemma execute_phase_raised o dry_run opps keys :
  (execute_phase o dry_run keys opps).2
  = raises_in dry_run (execute_phase o dry_run keys opps).1.1 /\
  ((execute_phase o dry_run keys opps).2 = false ->
   forall opp,
     In opp opps -> In (_get_strategy_key (opp_strategy opp)) keys ->
     positive (default 0%Q (capital_allocated o
                              !! _get_strategy_key (opp_strategy opp))) = true ->
     In (EvExecute (opp_strategy opp) (opp_signal opp))
        (execute_phase o dry_run keys opps).1.1).
Proof.
  induction keys as [|k rest IH]; [by split|].
  destruct IH as [Hflag Hall]. simpl.
  destruct (execute_for_key_raised o dry_run k opps) as [Hf Hk].
  destruct (execute_for_key o dry_run k opps) as [[evs trades] raised].
  simpl in Hf, Hk. destruct raised; [by split|].
  destruct (execute_phase o dry_run rest opps) as [[evs' trades'] raised'].
  simpl in *. rewrite raises_in_app, <- Hf, <- Hflag. split; [done|].
  intros Hr opp Hin [Hkey|Hkey] Hp; apply in_or_app; [left|right].
  - apply Hk; [done|done|done|by rewrite Hkey].
  - by apply Hall.
Qed.

Lemma raises_in_other dry_run tr :
  Forall (fun ev => stage ev = 0%nat \/ stage ev = 5%nat) tr ->
  raises_in dry_run tr = false.
Proof.
  induction 1 as [|ev tr Hev _ IH]; [done|]. simpl. rewrite IH.
  destruct ev as [s|s signal|s]; [done| |done]. simpl in Hev.
  unfold key_rank in Hev.
  repeat (destruct (String.eqb _ _) in Hev; [lia|]). lia.
Qed.

(** The cycle: when no call raised, every signal that the scan phase
    produced for a funded key has been executed. *)
Lemma run_cycle_complete o dry_run :
  raises_in dry_run (run_cycle o dry_run).2 = false ->
  forall s signal,
    produced o s signal ->
    positive (default 0%Q (capital_allocated o !! _get_strategy_key s)) = true ->
    In (EvExecute s signal) (run_cycle o dry_run).2.
Proof.
  unfold run_cycle.
  pose proof (scan_phase_events (strategies o)) as Hscans.
  pose proof (scan_phase_finds (strategies o)) as Hfinds.
  destruct (scan_phase (strategies o)) as [[scans opps] active].
  simpl in Hscans, Hfinds.
  destruct (execute_phase_raised o dry_run opps priority_order)
    as [Hflag Hall].
  pose proof (monitor_phase_events dry_run (strategies o)) as Hmons.
  destruct (execute_phase o dry_run priority_order opps)
    as [[execs trades] raised].
  simpl in Hflag, Hall.
  assert (raises_in dry_run scans = false) as Hs.
  { apply raises_in_other. eapply Forall_impl; [exact Hscans|]. simpl.
    intros ev [s ->]. by left. }
  destruct raised; simpl.
  - by rewrite raises_in_app, Hs, <- Hflag.
  - destruct (monitor_phase dry_run (strategies o)) as [monitors closed].
    simpl in *.
    intros _ s signal (Hin & Hen & Hscan) Hpos.
    apply in_or_app. right. apply in_or_app. left.
    apply (Hall eq_refl (mkOpp s signal));
      [by apply Hfinds|apply strategy_key_in_priority_order|done].
Qed.

Lemma positive_true a : (0 < a)%Q -> positive a = true.
Proof.
  intros H. unfold positive. apply negb_true_iff.
  destruct (Qle_bool a 0) eqn:E; [|done].
  apply Qle_bool_iff in E. by apply Qlt_not_le in H.
Qed.

(** C9 (as amended). In a cycle in which both a latency-category
    strategy and a maker-category strategy have produced a signal in the
    scan phase, the execute phase calls [execute_trade] on both signals,
    on the latency signal strictly before the maker signal, whatever the
    order in which the signals were discovered, provided both categories
    have capital above zero and no [execute_trade] of the cycle raises. *)
Theorem latency_executes_before_maker o dry_run :
  (0 < default 0 (capital_allocated o !! "latency"%string))%Q ->
  (0 < default 0 (capital_allocated o !! "maker"%string))%Q ->
  raises_in dry_run (run_cycle o dry_run).2 = false ->
  latency_before_maker o dry_run.
Proof.
  intros Hl Hm Hr s1 signal1 s2 signal2 H1 Hk1 H2 Hk2.
  pose proof (run_cycle_complete o dry_run Hr) as Hall. split.
  - assert (In (EvExecute s1 signal1) (run_cycle o dry_run).2) as Hin1.
    { apply Hall; [done|]. rewrite Hk1. by apply positive_true. }
    assert (In (EvExecute s2 signal2) (run_cycle o dry_run).2) as Hin2.
    { apply Hall; [done|]. rewrite Hk2. by apply positive_true. }
    apply list_elem_of_In, list_elem_of_lookup in Hin1 as [i Hi].
    apply list_elem_of_In, list_elem_of_lookup in Hin2 as [j Hj].
    by exists i, j.
  - intros i j Hi Hj.
    by apply (execute_calls_in_priority_order o dry_run i j
                s1 signal1 s2 signal2).
Qed.

Lemma latency_executes_before_maker_witness :
  latency_before_maker maker_first false.
Proof.
  apply (latency_executes_before_maker maker_first false); reflexivity.
Defined.

(** C9 (as stated) fails: in the cycle of [unfunded] both strategies
    produce a signal in the scan phase, and [execute_trade] is called on
    neither, since no capital is allocated. *)
Lemma signals_without_capital_not_executed :
  ~ latency_before_maker unfunded false.
Proof.
  intros H.
  destruct (H latency_strategy "latency-signal"%string
              maker_strategy "maker-signal"%string)
    as [(i & j & Hi & _) _].
  - split; [right; by left|by split].
  - reflexivity.
  - split; [by left|by split].
  - reflexivity.
  - vm_compute in Hi.
    do 5 (destruct i as [|i]; [discriminate|]). discriminate.
Qed.

(** C2 (as amended). In the execute phase of a cycle, [execute_trade] is
    called on a signal only if the capital allocated to the key of its
    strategy is above zero. *)
Theorem executed_only_if_funded o dry_run i s signal :
  (run_cycle o dry_run).2 !! i = Some (EvExecute s signal) ->
  (0 < default 0 (capital_allocated o !! _get_strategy_key s))%Q.
Proof.
  intros Hi. destruct (run_cycle_trace o dry_run) as [_ Hf].
  unfold funded in Hf. rewrite Forall_forall in Hf.
  apply (Hf (EvExecute s signal)). by eapply list_elem_of_lookup_2.
Qed.

Lemma executed_only_if_funded_witness :
  (0 < default 0 (capital_allocated maker_first
                    !! _get_strategy_key latency_strategy))%Q.
Proof.
  apply (executed_only_if_funded maker_first false 2
           latency_strategy "latency-signal").
  reflexivity.
Defined.

(** C2 (as stated) fails: the cycle of [maker_first] calls
    [execute_trade] while the pool [Pool.tripped], whose circuit is open,
    answers [can_execute()] with false; [run_cycle] reads no pool. *)
Lemma executed_with_open_circuit :
  ~ gated_by Pool.tripped (run_cycle maker_first false).2.
Proof.
  intros H.
  specialize (H 2%nat latency_strategy "latency-signal"%string eq_refl).
  by vm_compute in H.
Qed.

End OrchestratorTheory.

(* ================================================================== *)
(** ** Properties of the websocket manager *)
(* ================================================================== *)

Module WsManagerTheory.
Import WsManager.

Lemma send_link f st : link (send f st) = link st.
Proof.
  unfold send. destruct (mode_eqb (mode st) WEBSOCKET); [|done].
  by destruct (ws st).
Qed.

Lemma subscribe_market_link t st : link (subscribe_market t st) = link st.
Proof.
  unfold subscribe_market. case_bool_decide; [done|]. by rewrite send_link.
Qed.

Lemma unsubscribe_market_link t st : link (unsubscribe_market t st) = link st.
Proof.
  unfold unsubscribe_market. case_bool_decide; [|done]. by rewrite send_link.
Qed.

Lemma _handle_message_link p t st : link (_handle_message p t st) = link st.
Proof. by destruct p. Qed.

Lemma polling_loop_turn_link replies st :
  link (polling_loop_turn replies st) = link st.
Proof.
  unfold polling_loop_turn. destruct (0 <? polling_loops st)%nat; [|done].
  destruct (running st && mode_eqb (mode st) REST_POLLING); [|done].
  generalize (elements (subscribed_markets st)) as tokens.
  intros tokens. revert st.
  induction tokens as [|t tokens IH]; intros st; [done|].
  cbn [foldl]. rewrite IH.
  destruct (replies t) as [[stamped received]|]; [|done].
  apply _handle_message_link.
Qed.

Lemma send_subscribed f st :
  subscribed_markets (send f st) = subscribed_markets st.
Proof.
  unfold send. destruct (mode_eqb (mode st) WEBSOCKET); [|done].
  by destruct (ws st).
Qed.

Lemma send_polling_loops f st : polling_loops (send f st) = polling_loops st.
Proof.
  unfold send. destruct (mode_eqb (mode st) WEBSOCKET); [|done].
  by destruct (ws st).
Qed.

(** [subscribe_market] adds the id to the interest set, and
    [unsubscribe_market] removes it, in every mode. *)
Lemma subscribe_market_adds t st :
  subscribed_markets (subscribe_market t st) = {[t]} ∪ subscribed_markets st.
Proof.
  unfold subscribe_market. case_bool_decide as Hin.
  - apply set_eq. intros x. rewrite elem_of_union, elem_of_singleton.
    split; [by right|]. by intros [->|].
  - by rewrite send_subscribed.
Qed.

Lemma unsubscribe_market_removes t st :
  subscribed_markets (unsubscribe_market t st) = subscribed_markets st ∖ {[t]}.
Proof.
  unfold unsubscribe_market. case_bool_decide as Hin.
  - by rewrite send_subscribed.
  - apply set_eq. intros x. rewrite elem_of_difference, elem_of_singleton.
    split; [|by intros [? _]]. intros Hx. split; [done|]. by intros ->.
Qed.

Lemma subscribe_market_polling_loops t st :
  polling_loops (subscribe_market t st) = polling_loops st.
Proof.
  unfold subscribe_market. case_bool_decide; [done|].
  by rewrite send_polling_loops.
Qed.

Lemma unsubscribe_market_polling_loops t st :
  polling_loops (unsubscribe_market t st) = polling_loops st.
Proof.
  unfold unsubscribe_market. case_bool_decide; [|done].
  by rewrite send_polling_loops.
Qed.

(** While the socket is down and attempts remain, each turn of the
    websocket loop that fails to reconnect counts one attempt, and
    nothing else of the link changes. *)
Lemma failing_stretch calls : forall st m w a,
  w <> SocketOpen ->
  link st = (true, true, m, w, a, max_reconnect_attempts st) ->
  Forall failing calls ->
  a + Z.of_nat (websocket_turns calls) <= max_reconnect_attempts st ->
  link (run calls st)
  = (true, true, m, w, a + Z.of_nat (websocket_turns calls),
     max_reconnect_attempts st).
Proof.
  unfold run.
  induction calls as [|c calls IH]; intros st m w a Hw Hl Hf Hle.
  - simpl. rewrite Hl. do 5 f_equal. unfold websocket_turns. simpl. lia.
  - inversion Hf as [|? ? Hc Hrest]; subst. simpl.
    destruct c as [ok| |t|t|ok r|replies|]; try done.
    + unfold websocket_turns in *. simpl in *.
      pose proof (subscribe_market_link t st) as E. rewrite Hl in E.
      assert (max_reconnect_attempts (subscribe_market t st)
              = max_reconnect_attempts st) as Em
        by (unfold link in E, Hl; congruence).
      rewrite <- Em in E |- *. apply IH; [done|done|done|]. by rewrite Em.
    + unfold websocket_turns in *. simpl in *.
      pose proof (unsubscribe_market_link t st) as E. rewrite Hl in E.
      assert (max_reconnect_attempts (unsubscribe_market t st)
              = max_reconnect_attempts st) as Em
        by (unfold link in E, Hl; congruence).
      rewrite <- Em in E |- *. apply IH; [done|done|done|]. by rewrite Em.
    + destruct ok; [done|].
      unfold websocket_turns in *. simpl in *.
      unfold link in Hl. injection Hl as Hrun Halive Hmode Hws Hatt.
      assert (link (websocket_loop_turn false r st)
              = (true, true, m, w, a + 1, max_reconnect_attempts st)) as E.
      { unfold websocket_loop_turn. rewrite Halive, Hrun. simpl.
        rewrite Hatt.
        destruct (Z.leb_spec (max_reconnect_attempts st) a); [lia|].
        destruct (ws st) eqn:Hs; subst w; try done;
          unfold link; simpl; by rewrite Hrun, Halive, Hmode, Hs. }
      assert (max_reconnect_attempts (websocket_loop_turn false r st)
              = max_reconnect_attempts st) as Em
        by (unfold link in E; congruence).
      rewrite <- Em in E |- *.
      replace (a + Z.of_nat (S (length (List.filter is_websocket_turn calls))))
        with (a + 1 + Z.of_nat (length (List.filter is_websocket_turn calls)))
        by lia.
      apply IH; [done|done|done|]. rewrite Em. lia.
    + unfold websocket_turns in *. simpl in *.
      pose proof (polling_loop_turn_link replies st) as E. rewrite Hl in E.
      assert (max_reconnect_attempts (polling_loop_turn replies st)
              = max_reconnect_attempts st) as Em
        by (unfold link in E, Hl; congruence).
      rewrite <- Em in E |- *. apply IH; [done|done|done|]. by rewrite Em.
Qed.

Lemma polling_loop_turn_polling_loops replies st :
  running st = true -> mode st = REST_POLLING ->
  polling_loops (polling_loop_turn replies st) = polling_loops st.
Proof.
  intros Hrun Hmode. unfold polling_loop_turn.
  destruct (0 <? polling_loops st)%nat; [|done].
  rewrite Hrun, Hmode. simpl.
  generalize (elements (subscribed_markets st)) as tokens.
  intros tokens. generalize st as st'.
  induction tokens as [|t tokens IH]; intros st'; [done|].
  simpl. rewrite IH. destruct (replies t) as [[stamped received]|]; [|done].
  done.
Qed.

Lemma call_fallen_back c st w a :
  w <> SocketOpen -> alive c -> fallen_back st w a ->
  fallen_back (call c st) w a.
Proof.
  intros Hw Hc (Hrun & Halive & Hmode & Hws & Hatt & Hpoll).
  assert (link st = (true, false, REST_POLLING, w, a,
                     max_reconnect_attempts st)) as Hl
    by (unfold link; congruence).
  assert (forall st', link st' = link st ->
                      polling_loops st' = polling_loops st ->
                      fallen_back st' w a) as Hkeep.
  { intros st' E Ep. rewrite Hl in E. unfold link in E.
    injection E as E1 E2 E3 E4 E5 _. unfold fallen_back. rewrite Ep.
    done. }
  destruct c as [ok| |t|t|ok r|replies|]; simpl.
  - unfold start. rewrite Hrun. by repeat split.
  - done.
  - apply Hkeep;
      [apply subscribe_market_link|apply subscribe_market_polling_loops].
  - apply Hkeep;
      [apply unsubscribe_market_link|apply unsubscribe_market_polling_loops].
  - unfold websocket_loop_turn. rewrite Halive. simpl. by repeat split.
  - apply Hkeep;
      [apply polling_loop_turn_link
      |by apply polling_loop_turn_polling_loops].
  - unfold socket_closes. rewrite Hws. destruct w; by repeat split.
Qed.

Lemma run_fallen_back calls : forall st w a,
  w <> SocketOpen -> Forall alive calls -> fallen_back st w a ->
  fallen_back (run calls st) w a.
Proof.
  unfold run. induction calls as [|c calls IH]; intros st w a Hw Hal H;
    [done|].
  inversion Hal as [|? ? Hc Hrest]; subst. simpl.
  apply IH; [done|done|]. by apply call_fallen_back.
Qed.

(** C8. Take a running manager whose websocket task finds the socket
    down, with no attempt counted yet. After [max_reconnect_attempts]
    turns of the task that each fail to reconnect (subscriptions and
    polling turns may come in between), the next turn of the task sets
    the mode to [REST_POLLING] and ends the task. From then on, through
    any calls short of [stop()], the mode stays [REST_POLLING], the task
    stays ended, and neither the attempt counter nor the socket changes;
    and [subscribe_market] and [unsubscribe_market] still add an id to
    and remove it from the set that the polling loop polls. *)
Theorem fallback_to_polling_is_permanent st fails ok r later :
  running st = true -> websocket_loop_alive st = true ->
  ws st <> SocketOpen -> reconnect_attempts st = 0 ->
  Forall failing fails ->
  Z.of_nat (websocket_turns fails) = max_reconnect_attempts st ->
  Forall alive later ->
  let st1 := websocket_loop_turn ok r (run fails st) in
  let st2 := run later st1 in
  mode st1 = REST_POLLING /\
  (mode st2 = REST_POLLING /\ websocket_loop_alive st2 = false /\
   reconnect_attempts st2 = reconnect_attempts st1 /\ ws st2 = ws st1) /\
  forall t,
    subscribed_markets (subscribe_market t st2)
      = {[t]} ∪ subscribed_markets st2 /\
    subscribed_markets (unsubscribe_market t st2)
      = subscribed_markets st2 ∖ {[t]} /\
    t ∈ polled (subscribe_market t st2) /\
    t ∉ polled (unsubscribe_market t st2).
Proof.
  intros Hrun Halive Hws Hatt Hfails Hturns Hlater. simpl.
  pose proof (failing_stretch fails st (mode st) (ws st) 0 Hws
                ltac:(unfold link; congruence) Hfails ltac:(lia)) as Hl.
  rewrite Z.add_0_l, Hturns in Hl.
  unfold link in Hl. injection Hl as Hrun' Halive' Hmode' Hws' Hatt' Hmax'.
  set (st0 := run fails st) in *.
  assert (fallen_back (websocket_loop_turn ok r st0) (ws st)
                      (max_reconnect_attempts st)) as Hfb.
  { unfold websocket_loop_turn. rewrite Halive', Hrun'. simpl.
    rewrite Hatt', Hmax', Z.leb_refl.
    destruct (ws st0) eqn:Hs; rewrite <- Hws' in *; try done;
      unfold fallen_back; simpl; repeat split; try done; lia. }
  pose proof (run_fallen_back later _ _ _ Hws Hlater Hfb) as Hfb2.
  destruct Hfb as (_ & _ & Hm1 & Hw1 & Ha1 & _).
  destruct Hfb2 as (Hr2 & Hal2 & Hm2 & Hw2 & Ha2 & Hp2).
  split; [done|]. split; [repeat split; congruence|].
  intros t.
  set (st2 := run later (websocket_loop_turn ok r st0)) in *.
  split; [apply subscribe_market_adds|].
  split; [apply unsubscribe_market_removes|].
  assert (forall st', link st' = link st2 ->
                      polling_loops st' = polling_loops st2 ->
                      polled st' = elements (subscribed_markets st')) as Hpolled.
  { intros st' E Ep. unfold link in E. injection E as E1 _ E3 _ _ _.
    unfold polled. rewrite Ep, E1, E3, Hr2, Hm2.
    destruct (Nat.ltb_spec 0 (polling_loops st2)); [done|lia]. }
  rewrite (Hpolled _ (subscribe_market_link t st2)
             (subscribe_market_polling_loops t st2)).
  rewrite (Hpolled _ (unsubscribe_market_link t st2)
             (unsubscribe_market_polling_loops t st2)).
  rewrite !elem_of_elements, subscribe_market_adds,
    unsubscribe_market_removes.
  rewrite elem_of_union, elem_of_difference, elem_of_singleton.
  split; [by left|]. by intros [_ ?].
Qed.

Lemma fallback_to_polling_is_permanent_witness :
  let st1 := websocket_loop_turn true RecvOther
               (run [WebsocketLoop false RecvOther; Subscribe "token-2";
                     WebsocketLoop false RecvRaises] dropped) in
  let st2 := run [PollingLoop (fun _ => Some (1, 2)); Unsubscribe "token-1";
                  Start true; WebsocketLoop true RecvOther; SocketCloses]
                 st1 in
  mode st1 = REST_POLLING /\
  (mode st2 = REST_POLLING /\ websocket_loop_alive st2 = false /\
   reconnect_attempts st2 = reconnect_attempts st1 /\ ws st2 = ws st1) /\
  forall t,
    subscribed_markets (subscribe_market t st2)
      = {[t]} ∪ subscribed_markets st2 /\
    subscribed_markets (unsubscribe_market t st2)
      = subscribed_markets st2 ∖ {[t]} /\
    t ∈ polled (subscribe_market t st2) /\
    t ∉ polled (unsubscribe_market t st2).
Proof.
  apply (fallback_to_polling_is_permanent dropped
           [WebsocketLoop false RecvOther; Subscribe "token-2";
            WebsocketLoop false RecvRaises]
           true RecvOther
           [PollingLoop (fun _ => Some (1, 2)); Unsubscribe "token-1";
            Start true; WebsocketLoop true RecvOther; SocketCloses]).
  - reflexivity.
  - reflexivity.
  - vm_compute. discriminate.
  - reflexivity.
  - repeat constructor.
  - reflexivity.
  - repeat constructor.
Defined.

End WsManagerTheory.

(* ================================================================== *)
(** ** Further properties of the spike detector *)
(* ================================================================== *)

Module SpikeFacts.
Import Spike.

Lemma keep_last_length {A} n (l : list A) :
  length (keep_last n l) = Nat.min (length l) n.
Proof. unfold keep_last. rewrite length_drop. lia. Qed.

Lemma keep_last_snoc {A} n (l : list A) x :
  keep_last n (keep_last n l ++ [x]) = keep_last n (l ++ [x]).
Proof.
  unfold keep_last. rewrite !length_app, length_drop. simpl.
  destruct (decide (length l <= n)%nat) as [Hle|Hgt].
  - replace (length l - n)%nat with 0%nat by lia. rewrite drop_0.
    f_equal. lia.
  - destruct n as [|n].
    { rewrite !drop_ge; [done|..]; rewrite ?length_app, ?length_drop;
        simpl; lia. }
    replace (length l - (length l - S n) + 1 - S n)%nat with 1%nat by lia.
    rewrite (drop_app_le l [x] (length l + 1 - S n)%nat) by lia.
    rewrite (drop_app_le (drop (length l - S n) l) [x] 1)
      by (rewrite length_drop; lia).
    rewrite drop_drop. do 2 f_equal. lia.
Qed.

(** [detect_spike] leaves the history and the configuration alone. *)
Lemma detect_spike_keeps t_check t_record d :
  let d' := (detect_spike t_check t_record d).2 in
  price_history d' = price_history d /\ history_size d' = history_size d /\
  cooldown_seconds d' = cooldown_seconds d.
Proof.
  destruct (SpikeTheory.detect_spike_state t_check t_record d)
    as [(ev & -> & _)|(o & -> & _)]; by simpl.
Qed.

(** One step of [run], on the detector. *)
Lemma run_cons_state c calls d :
  (run (c :: calls) d).2
  = (run calls match c with
               | AddPrice p ts now => add_price p ts now d
               | DetectSpike t1 t2 => (detect_spike t1 t2 d).2
               end).2.
Proof.
  destruct c as [p ts now|t1 t2]; simpl; [done|].
  destruct (detect_spike t1 t2 d) as [[[ev|]|] d']; simpl; try done.
  by destruct (run calls d').
Qed.

Lemma run_history calls : forall d all,
  price_history d = keep_last (history_size d) all ->
  price_history (run calls d).2
  = keep_last (history_size d) (all ++ added calls) /\
  history_size (run calls d).2 = history_size d.
Proof.
  induction calls as [|c calls IH]; intros d all Hd.
  - simpl. by rewrite app_nil_r.
  - rewrite run_cons_state. destruct c as [p ts now|t1 t2].
    + destruct (IH (add_price p ts now d) (all ++ [mkEntry p (default now ts)]))
        as [H1 H2].
      { change (price_history (add_price p ts now d))
          with (keep_last (history_size d)
                  (price_history d ++ [mkEntry p (default now ts)])).
        rewrite Hd. apply keep_last_snoc. }
      split; [|done]. rewrite H1. simpl. by rewrite <- app_assoc.
    + destruct (detect_spike_keeps t1 t2 d) as (E1 & E2 & _).
      destruct (IH (detect_spike t1 t2 d).2 all) as [H1 H2].
      { by rewrite E1, E2. }
      rewrite H1, H2, E2. done.
Qed.

(** X1. The history is a ring buffer: after any calls on a fresh
    detector it holds the last [history_size] samples that [add_price]
    appended, oldest first, with an absent timestamp replaced by the
    clock; [detect_spike] never changes it. *)
Theorem history_keeps_last_samples mm twmin twmax cd hs calls :
  price_history (run calls (init mm twmin twmax cd hs)).2
  = keep_last hs (added calls).
Proof.
  by destruct (run_history calls (init mm twmin twmax cd hs) [] eq_refl)
    as [-> _].
Qed.

(** What a run does to the counter and to the time of the last spike. *)
Lemma run_counts calls : forall d,
  spike_count (run calls d).2 = (spike_count d + length (run calls d).1)%nat /\
  last_spike_time (run calls d).2
  = default (last_spike_time d) (emitted_at <$> last (run calls d).1).
Proof.
  induction calls as [|c calls IH]; intros d; [simpl; split; [lia|done]|].
  destruct c as [p ts now|t1 t2]; simpl.
  - apply (IH (add_price p ts now d)).
  - destruct (SpikeTheory.detect_spike_state t1 t2 d)
      as [(ev & -> & _)|(o & -> & Ho)].
    + destruct (IH (record_spike t2 d)) as [H1 H2].
      destruct (run calls (record_spike t2 d)) as [evs d''].
      simpl in *. split; [lia|]. rewrite H2.
      destruct evs as [|e evs]; [done|]. rewrite last_cons_cons.
      destruct (last (e :: evs)) eqn:E; [done|]. by apply last_None in E.
    + assert (match o with
              | Returned (Some ev) =>
                  let '(evs, d'') := run calls d in (mkEmitted t2 ev :: evs, d'')
              | _ => run calls d
              end = run calls d) as ->
        by (destruct o as [[ev|]|]; [by destruct (Ho ev)|done..]).
      apply IH.
Qed.

(** X2. [get_stats] after any calls on a fresh detector: [total_spikes]
    is the number of events that [detect_spike] returned,
    [price_history_size] is the number of [add_price] calls capped at
    [history_size], and [last_spike_time] is the clock value recorded for
    the last event, 0 when there was none. *)
Theorem get_stats_counts_the_run mm twmin twmax cd hs calls t_since t_cooldown :
  let r := run calls (init mm twmin twmax cd hs) in
  let stats := get_stats t_since t_cooldown r.2 in
  total_spikes stats = length r.1 /\
  price_history_size stats = Nat.min (length (added calls)) hs /\
  stats_last_spike_time stats = default 0 (emitted_at <$> last r.1).
Proof.
  simpl. destruct (run_counts calls (init mm twmin twmax cd hs)) as [H1 H2].
  destruct (run_history calls (init mm twmin twmax cd hs) [] eq_refl)
    as [H3 _].
  rewrite H1, H2, H3. simpl. by rewrite keep_last_length.
Qed.

(** What stands behind a returned event, and behind a raise. *)
Lemma detect_spike_cases t_check t_record d :
  cooldown_seconds d <= t_check - last_spike_time d ->
  forall past current,
    nearest_in_band d past current ->
    detect_spike t_check t_record d
    = if price past =? 0 then (Raised, d)
      else if min_move d <=? Z.abs (price current - price past)
           then (Returned (Some (make_info current past)),
                 record_spike t_record d)
           else (Returned None, d).
Proof.
  intros Hcd past current (older & between & E & Hp & Hb).
  unfold detect_spike.
  destruct (Z.ltb_spec (t_check - last_spike_time d) (cooldown_seconds d));
    [lia|].
  rewrite E.
  replace (older ++ past :: between ++ [current])
    with ((older ++ past :: between) ++ [current])
    by (by rewrite <- app_assoc).
  rewrite last_snoc, SpikeTheory.removelast_snoc.
  destruct (Nat.ltb_spec (length ((older ++ past :: between) ++ [current])) 2)
    as [Hlen|_].
  { rewrite !length_app in Hlen. simpl in Hlen. lia. }
  assert (find_past d current (older ++ past :: between) = Some past) as ->
    by (apply SpikeTheory.find_past_spec; eauto).
  done.
Qed.

Lemma detect_spike_result t_check t_record d :
  (detect_spike t_check t_record d).1 <> Returned None ->
  cooldown_seconds d <= t_check - last_spike_time d /\
  exists past current, nearest_in_band d past current.
Proof.
  unfold detect_spike.
  destruct (Z.ltb_spec (t_check - last_spike_time d) (cooldown_seconds d));
    [done|].
  destruct (length (price_history d) <? 2)%nat; [done|].
  destruct (last (price_history d)) as [current|] eqn:Hlast; [|done].
  destruct (find_past d current (removelast (price_history d)))
    as [past|] eqn:Hfind; [|done].
  intros _. split; [lia|]. exists past, current.
  apply SpikeTheory.find_past_spec in Hfind as (older & between & E & Hp & Hb).
  exists older, between. repeat split; [|done|done].
  rewrite (SpikeTheory.history_split _ _ Hlast) at 1. rewrite E.
  by rewrite <- app_assoc.
Qed.

(** X3. Every event that [detect_spike] returns is consistent with the
    detector: its [time_window] lies in the band, its [price_change] is
    [new_price - old_price] and at least [min_move] in absolute value, its
    direction is "up" exactly when the change is positive, its
    [old_price] is not zero, and [new_price] and [detection_time] are
    those of the newest sample. *)
Theorem returned_event_is_consistent t_check t_record d ev :
  (detect_spike t_check t_record d).1 = Returned (Some ev) ->
  time_window_min d <= time_window ev <= time_window_max d /\
  price_change ev = new_price ev - old_price ev /\
  min_move d <= Z.abs (price_change ev) /\
  (direction ev = Up <-> 0 < price_change ev) /\
  old_price ev <> 0 /\
  last (price_history d) = Some (mkEntry (new_price ev) (detection_time ev)).
Proof.
  intros Hev.
  destruct (detect_spike_result t_check t_record d) as (Hcd & past & current & Hn);
    [by rewrite Hev|].
  rewrite (detect_spike_cases _ _ _ Hcd _ _ Hn) in Hev.
  destruct Hn as (older & between & E & Hp & _).
  destruct (Z.eqb_spec (price past) 0); [done|].
  destruct (Z.leb_spec (min_move d) (Z.abs (price current - price past)));
    [|done].
  simpl in Hev. injection Hev as <-. simpl.
  unfold in_window in Hp. apply andb_true_iff in Hp as [H1 H2].
  apply Z.leb_le in H1, H2.
  repeat split; try done.
  - destruct (Z.ltb_spec 0 (price current - price past)); [done|discriminate].
  - destruct (Z.ltb_spec 0 (price current - price past)); [done|lia].
  - rewrite E.
    replace (older ++ past :: between ++ [current])
      with ((older ++ past :: between) ++ [current])
      by (by rewrite <- app_assoc).
    rewrite last_snoc. by destruct current.
Qed.

Lemma returned_event_is_consistent_witness :
  let ev := make_info (mkEntry 50250 5) (mkEntry 50050 1) in
  time_window_min scenario <= time_window ev <= time_window_max scenario /\
  price_change ev = new_price ev - old_price ev /\
  min_move scenario <= Z.abs (price_change ev) /\
  (direction ev = Up <-> 0 < price_change ev) /\
  old_price ev <> 0 /\
  last (price_history scenario)
  = Some (mkEntry (new_price ev) (detection_time ev)).
Proof.
  apply (returned_event_is_consistent 1000 1000 scenario). reflexivity.
Defined.

(** X4. Outside the cooldown, [detect_spike] raises (the division by the
    past price in [price_change_pct]) exactly when the sample at which the
    backward scan stops has price zero, whatever the size of the move; the
    detector is then left as it was: no cooldown starts and nothing is
    counted. *)
Theorem zero_past_price_raises t_check t_record d :
  cooldown_seconds d <= t_check - last_spike_time d ->
  detect_spike t_check t_record d = (Raised, d) <->
  exists past current, nearest_in_band d past current /\ price past = 0.
Proof.
  intros Hcd. split.
  - intros H.
    destruct (detect_spike_result t_check t_record d)
      as (_ & past & current & Hn); [by rewrite H|].
    exists past, current. split; [done|].
    rewrite (detect_spike_cases _ _ _ Hcd _ _ Hn) in H.
    destruct (Z.eqb_spec (price past) 0); [done|].
    by destruct (min_move d <=? Z.abs (price current - price past)).
  - intros (past & current & Hn & Hz).
    rewrite (detect_spike_cases _ _ _ Hcd _ _ Hn), Hz. done.
Qed.

Lemma zero_past_price_raises_witness :
  detect_spike 1000 1000 from_zero = (Raised, from_zero) <->
  exists past current, nearest_in_band from_zero past current /\ price past = 0.
Proof.
  apply (zero_past_price_raises 1000 1000 from_zero). vm_compute. discriminate.
Defined.

(** X5. An event is returned again when nothing was added: if
    [detect_spike] returned an event, a later [detect_spike] on the same
    history returns the same event once the clock is a cooldown past the
    recorded time, and so does one after [reset_cooldown()] once the clock
    is a cooldown past 0. *)
Theorem same_event_after_cooldown t_check t_record d ev d' t_check' t_record' :
  detect_spike t_check t_record d = (Returned (Some ev), d') ->
  (cooldown_seconds d <= t_check' - t_record ->
   detect_spike t_check' t_record' d'
   = (Returned (Some ev), record_spike t_record' d')) /\
  (cooldown_seconds d <= t_check' ->
   detect_spike t_check' t_record' (reset_cooldown d')
   = (Returned (Some ev), record_spike t_record' (reset_cooldown d'))).
Proof.
  intros Hev.
  destruct (detect_spike_result t_check t_record d)
    as (Hcd & past & current & Hn); [by rewrite Hev|].
  rewrite (detect_spike_cases _ _ _ Hcd _ _ Hn) in Hev.
  destruct (Z.eqb_spec (price past) 0) as [|Hnz]; [done|].
  destruct (Z.leb_spec (min_move d) (Z.abs (price current - price past)))
    as [Hmove|]; [|done].
  injection Hev as <- <-.
  assert (forall d2, price_history d2 = price_history d ->
                     time_window_min d2 = time_window_min d ->
                     time_window_max d2 = time_window_max d ->
                     nearest_in_band d2 past current) as Hn2.
  { intros d2 E1 E2 E3. destruct Hn as (older & between & E & Hp & Hb).
    exists older, between. rewrite E1. unfold in_window in *.
    rewrite E2, E3. done. }
  split; intros Hcd'.
  - rewrite (detect_spike_cases t_check' t_record' (record_spike t_record d)
               Hcd' past current (Hn2 _ eq_refl eq_refl eq_refl)).
    simpl. destruct (Z.eqb_spec (price past) 0); [done|].
    destruct (Z.leb_spec (min_move d) (Z.abs (price current - price past)));
      [done|lia].
  - rewrite (detect_spike_cases t_check' t_record'
               (reset_cooldown (record_spike t_record d))
               ltac:(simpl; lia) past current
               (Hn2 _ eq_refl eq_refl eq_refl)).
    simpl. destruct (Z.eqb_spec (price past) 0); [done|].
    destruct (Z.leb_spec (min_move d) (Z.abs (price current - price past)));
      [done|lia].
Qed.

Lemma same_event_after_cooldown_witness :
  let ev := make_info (mkEntry 50250 5) (mkEntry 50050 1) in
  let d' := record_spike 1000 scenario in
  (cooldown_seconds scenario <= 1030 - 1000 ->
   detect_spike 1030 1031 d' = (Returned (Some ev), record_spike 1031 d')) /\
  (cooldown_seconds scenario <= 1030 ->
   detect_spike 1030 1031 (reset_cooldown d')
   = (Returned (Some ev), record_spike 1031 (reset_cooldown d'))).
Proof.
  apply (same_event_after_cooldown 1000 1000 scenario). reflexivity.
Defined.

End SpikeFacts.

(* ================================================================== *)
(** ** Further properties of the connection pool *)
(* ================================================================== *)

Module PoolFacts.
Import Pool.

(** What the state-changing helpers leave alone. *)
Lemma _open_circuit_keeps now p :
  let p' := _open_circuit now p in
  state p' = CIRCUIT_OPEN /\ error_count p' = error_count p /\
  error_threshold p' = error_threshold p /\
  circuit_timeout p' = circuit_timeout p /\
  connections p' = connections p.
Proof.
  unfold _open_circuit.
  destruct (state_eqb (state p) CIRCUIT_OPEN) eqn:E; simpl; [|done].
  by apply PoolTheory.state_eqb_eq in E.
Qed.

Lemma _update_state_keeps now p :
  let p' := _update_state now p in
  error_threshold p' = error_threshold p /\
  circuit_timeout p' = circuit_timeout p /\
  connections p' = connections p /\
  state p' <> UNHEALTHY \/ p' = p.
Proof.
  unfold _update_state.
  destruct (state_eqb (state p) CIRCUIT_OPEN).
  - destruct (circuit_timeout p <? now - circuit_opened_at p);
      [left; by simpl|by right].
  - destruct (error_threshold p <=? error_count p).
    + left. destruct (_open_circuit_keeps now p) as (E & _ & ? & ? & ?).
      repeat split; try done. simpl in E. by rewrite E.
    + destruct (0 <? error_count p); left; by simpl.
Qed.

(** The state, the global counter and the circuit after the first step of
    [record_success] and [record_error], which only touches the entry of
    the named connection. *)
Lemma touch_keeps {A} (p : ConnectionPool) (o : option A)
    (f : A -> gmap string ConnData) :
  let p1 := match o with
            | Some c => set_connections (f c) p
            | None => p
            end in
  state p1 = state p /\ error_count p1 = error_count p /\
  error_threshold p1 = error_threshold p /\
  circuit_timeout p1 = circuit_timeout p /\
  circuit_opened_at p1 = circuit_opened_at p.
Proof. by destruct o. Qed.

Lemma call_not_unhealthy c p :
  state p <> UNHEALTHY -> state (call c p) <> UNHEALTHY.
Proof.
  intros H. destruct c as [name now|name|name now|name now|name ms]; simpl.
  - done.
  - done.
  - unfold record_success.
    match goal with |- state (_update_state now ?q) <> _ =>
      assert (state q = state p) as Hq
        by (destruct (connections p !! name); simpl;
            by destruct (0 <? error_count _));
      destruct (_update_state_keeps now q) as [(_ & _ & _ & ?)| ->];
      [done|by rewrite Hq]
    end.
  - unfold record_error.
    match goal with |- context [_update_state now ?q] =>
      assert (state q = state p) as Hq
        by (by destruct (connections p !! name));
      set (p3 := _update_state now q);
      assert (state p3 <> UNHEALTHY) as H3
        by (subst p3; destruct (_update_state_keeps now q)
              as [(_ & _ & _ & ?)| ->]; [done|by rewrite Hq])
    end.
    destruct (error_threshold p3 <=? error_count p3); [|done].
    destruct (_open_circuit_keeps now p3) as [E _]. simpl in E.
    by rewrite E.
  - unfold record_latency. destruct (connections p !! name); [|done].
    simpl. destruct (avg_above _ _); [|done].
    by destruct (state_eqb (state p) HEALTHY).
Qed.

Lemma run_not_unhealthy calls : forall p,
  state p <> UNHEALTHY -> state (run calls p) <> UNHEALTHY.
Proof.
  unfold run. induction calls as [|c calls IH]; intros p H; [done|].
  simpl. apply IH. by apply call_not_unhealthy.
Qed.

(** X6. No call ever sets the state [UNHEALTHY]; so in every state that
    calls on a fresh pool can reach, [is_healthy()] and [can_execute()]
    give the same answer. *)
Theorem never_unhealthy lt et ct calls :
  let p := run calls (init lt et ct) in
  state p <> UNHEALTHY /\ is_healthy p = can_execute p.
Proof.
  simpl. assert (state (run calls (init lt et ct)) <> UNHEALTHY) as H
    by (by apply run_not_unhealthy).
  split; [done|]. unfold is_healthy, can_execute.
  by destruct (state (run calls (init lt et ct))).
Qed.

(** After [_update_state] a closed circuit counts fewer errors than the
    threshold. *)
Lemma _update_state_below now p :
  1 <= error_threshold p ->
  state (_update_state now p) <> CIRCUIT_OPEN ->
  error_count (_update_state now p) < error_threshold (_update_state now p).
Proof.
  intros Hthr. unfold _update_state.
  destruct (state_eqb (state p) CIRCUIT_OPEN) eqn:E.
  - apply PoolTheory.state_eqb_eq in E.
    destruct (circuit_timeout p <? now - circuit_opened_at p); simpl;
      [lia|by rewrite E].
  - destruct (Z.leb_spec (error_threshold p) (error_count p)).
    + destruct (_open_circuit_keeps now p) as [Eo _]. simpl in Eo.
      by rewrite Eo.
    + destruct (0 <? error_count p); simpl; lia.
Qed.

Lemma call_below c p :
  1 <= error_threshold p ->
  (state p <> CIRCUIT_OPEN -> error_count p < error_threshold p) ->
  state (call c p) <> CIRCUIT_OPEN ->
  error_count (call c p) < error_threshold (call c p).
Proof.
  intros Hthr H. destruct c as [name now|name|name now|name now|name ms];
    simpl.
  - done.
  - done.
  - unfold record_success. apply _update_state_below.
    destruct (connections p !! name); simpl;
      by destruct (0 <? error_count _).
  - unfold record_error.
    match goal with |- context [_update_state now ?q] =>
      set (p3 := _update_state now q)
    end.
    destruct (Z.leb_spec (error_threshold p3) (error_count p3)); [|done].
    destruct (_open_circuit_keeps now p3) as [E _]. simpl in E.
    by rewrite E.
  - unfold record_latency. destruct (connections p !! name); [|done].
    simpl. destruct (avg_above _ _); [|done].
    destruct (state_eqb (state p) HEALTHY) eqn:E; [|done].
    apply PoolTheory.state_eqb_eq in E. simpl. intros _. apply H.
    by rewrite E.
Qed.

Lemma run_below calls : forall p,
  1 <= error_threshold p ->
  (state p <> CIRCUIT_OPEN -> error_count p < error_threshold p) ->
  state (run calls p) <> CIRCUIT_OPEN ->
  error_count (run calls p) < error_threshold (run calls p).
Proof.
  unfold run. induction calls as [|c calls IH]; intros p Hthr H; [done|].
  simpl. apply IH.
  - by rewrite PoolTheory.call_error_threshold.
  - by apply call_below.
Qed.

(** X7. With a threshold of at least one, in every state that calls on a
    fresh pool can reach: while [can_execute()] is true the global error
    counter is between 0 and [error_threshold - 1], and in the [HEALTHY]
    state it is 0. *)
Theorem closed_circuit_counts_below_threshold lt et ct calls :
  1 <= et ->
  let p := run calls (init lt et ct) in
  (can_execute p = true -> 0 <= error_count p < et) /\
  (state p = HEALTHY -> error_count p = 0).
Proof.
  intros Het. simpl.
  destruct (PoolTheory.run_counted calls _ (PoolTheory.init_counted lt et ct))
    as [Hc Hh].
  split; [|done]. intros Hex. split; [done|].
  rewrite <- (PoolTheory.run_error_threshold calls (init lt et ct)) at 2.
  apply run_below; [done|simpl; lia|].
  unfold can_execute in Hex. intros E. by rewrite E in Hex.
Qed.

Lemma closed_circuit_counts_below_threshold_witness :
  let p := run [Error "websocket" 0; Error "websocket" 1;
                Success "websocket" 2] (init 200 5 60) in
  (can_execute p = true -> 0 <= error_count p < 5) /\
  (state p = HEALTHY -> error_count p = 0).
Proof.
  apply (closed_circuit_counts_below_threshold 200 5 60
           [Error "websocket" 0; Error "websocket" 1; Success "websocket" 2]).
  vm_compute. discriminate.
Defined.

(** While the timeout has not passed, a call leaves an open circuit as
    it is. *)
Lemma call_stays_open c p :
  state p = CIRCUIT_OPEN ->
  match record_clock c with
  | Some now => now <= circuit_opened_at p + circuit_timeout p
  | None => True
  end ->
  state (call c p) = CIRCUIT_OPEN /\
  circuit_opened_at (call c p) = circuit_opened_at p /\
  circuit_timeout (call c p) = circuit_timeout p.
Proof.
  intros Hs Hc.
  assert (forall now q,
            state q = CIRCUIT_OPEN ->
            circuit_opened_at q = circuit_opened_at p ->
            circuit_timeout q = circuit_timeout p ->
            now <= circuit_opened_at p + circuit_timeout p ->
            _update_state now q = q) as Hupd.
  { intros now q E1 E2 E3 Hn. unfold _update_state. rewrite E1, E2, E3.
    simpl.
    destruct (Z.ltb_spec (circuit_timeout p) (now - circuit_opened_at p));
      [lia|done]. }
  destruct c as [name now|name|name now|name now|name ms]; simpl in *.
  - done.
  - done.
  - unfold record_success.
    rewrite Hupd; try done;
      destruct (connections p !! name); simpl;
      by destruct (0 <? error_count _).
  - unfold record_error.
    rewrite Hupd; try done;
      try (by destruct (connections p !! name)).
    match goal with |- context [_open_circuit now ?q] =>
      assert (_open_circuit now q = q) as ->
        by (unfold _open_circuit;
            assert (state q = CIRCUIT_OPEN) as ->
              by (by destruct (connections p !! name)); done)
    end.
    destruct (_ <=? _); by destruct (connections p !! name).
  - unfold record_latency. destruct (connections p !! name); [|done].
    simpl. destruct (avg_above _ _); [|done]. by rewrite Hs.
Qed.

(** X8. An open circuit stays open for the whole timeout: while every
    [record_success] and [record_error] reads a clock value of at most
    [circuit_opened_at + circuit_timeout], no sequence of calls changes
    the state or the opening time, and [can_execute()] stays false. *)
Theorem open_circuit_holds_until_timeout p calls :
  state p = CIRCUIT_OPEN ->
  recorded_by (circuit_opened_at p + circuit_timeout p) calls ->
  state (run calls p) = CIRCUIT_OPEN /\
  circuit_opened_at (run calls p) = circuit_opened_at p /\
  can_execute (run calls p) = false.
Proof.
  intros Hs Hcalls.
  assert (state (run calls p) = CIRCUIT_OPEN /\
          circuit_opened_at (run calls p) = circuit_opened_at p /\
          circuit_timeout (run calls p) = circuit_timeout p) as (E1 & E2 & _).
  { revert p Hs Hcalls. unfold run, recorded_by.
    induction calls as [|c calls IH]; intros p Hs Hcalls; [done|].
    inversion Hcalls as [|? ? Hc Hrest]; subst. simpl.
    destruct (call_stays_open c p Hs Hc) as (E1 & E2 & E3).
    destruct (IH (call c p) E1) as (F1 & F2 & F3).
    { by rewrite E2, E3. }
    repeat split; congruence. }
  repeat split; [done|done|]. unfold can_execute. by rewrite E1.
Qed.

Lemma open_circuit_holds_until_timeout_witness :
  state (run [Success "strategy_execution" 30; Latency "websocket" 50;
              Error "strategy_execution" 60] tripped) = CIRCUIT_OPEN /\
  circuit_opened_at (run [Success "strategy_execution" 30;
                          Latency "websocket" 50;
                          Error "strategy_execution" 60] tripped)
  = circuit_opened_at tripped /\
  can_execute (run [Success "strategy_execution" 30; Latency "websocket" 50;
                    Error "strategy_execution" 60] tripped) = false.
Proof.
  apply (open_circuit_holds_until_timeout tripped
           [Success "strategy_execution" 30; Latency "websocket" 50;
            Error "strategy_execution" 60]).
  - reflexivity.
  - unfold recorded_by. repeat constructor; vm_compute; discriminate.
Defined.

(** X9. The first [record_success] or [record_error] after the timeout
    closes an open circuit (threshold at least one): the state becomes
    [DEGRADED], [can_execute()] true, and the global counter 0; the error
    that a [record_error] reports at that moment is not counted. *)
Theorem record_call_after_timeout_closes_circuit p name now :
  state p = CIRCUIT_OPEN -> 1 <= error_threshold p ->
  circuit_timeout p < now - circuit_opened_at p ->
  (state (record_success name now p) = DEGRADED /\
   error_count (record_success name now p) = 0 /\
   can_execute (record_success name now p) = true) /\
  (state (record_error name now p) = DEGRADED /\
   error_count (record_error name now p) = 0 /\
   can_execute (record_error name now p) = true).
Proof.
  intros Hs Hthr Ht.
  assert (forall q, state q = CIRCUIT_OPEN ->
                    circuit_opened_at q = circuit_opened_at p ->
                    circuit_timeout q = circuit_timeout p ->
                    _update_state now q
                    = set_error_count 0 (set_state DEGRADED q)) as Hupd.
  { intros q E1 E2 E3. unfold _update_state. rewrite E1, E2, E3. simpl.
    destruct (Z.ltb_spec (circuit_timeout p) (now - circuit_opened_at p));
      [done|lia]. }
  split.
  - unfold record_success. rewrite Hupd; [done|..];
      destruct (connections p !! name); simpl;
      by destruct (0 <? error_count _).
  - unfold record_error. rewrite Hupd;
      try (by destruct (connections p !! name)).
    simpl.
    assert (error_threshold
              match connections p !! name with
              | Some c =>
                  set_connections
                    (<[name:=mkConn (registered_at c) now
                               (conn_error_count c + 1) (latency_samples c)]>
                       (connections p)) p
              | None => p
              end = error_threshold p) as ->
      by (by destruct (connections p !! name)).
    destruct (Z.leb_spec (error_threshold p) 0); [lia|done].
Qed.

Lemma record_call_after_timeout_closes_circuit_witness :
  (state (record_success "strategy_execution" 1000 tripped) = DEGRADED /\
   error_count (record_success "strategy_execution" 1000 tripped) = 0 /\
   can_execute (record_success "strategy_execution" 1000 tripped) = true) /\
  (state (record_error "strategy_execution" 1000 tripped) = DEGRADED /\
   error_count (record_error "strategy_execution" 1000 tripped) = 0 /\
   can_execute (record_error "strategy_execution" 1000 tripped) = true).
Proof.
  apply (record_call_after_timeout_closes_circuit tripped
           "strategy_execution" 1000);
    [reflexivity|vm_compute; discriminate|reflexivity].
Defined.

Lemma insert_samples_bounded p name c :
  samples_bounded p ->
  (forall l, latency_samples c = Some l -> (0 < length l <= 100)%nat) ->
  forall q, connections q = <[name := c]> (connections p) ->
            samples_bounded q.
Proof.
  intros Hp Hc q Eq name' c' l Hl Hs. rewrite Eq in Hl.
  destruct (decide (name = name')) as [<-|Hne].
  - rewrite lookup_insert_eq in Hl. injection Hl as <-. by apply Hc.
  - rewrite lookup_insert_ne in Hl by done. by eapply Hp.
Qed.

Lemma same_connections_bounded p q :
  samples_bounded p -> connections q = connections p -> samples_bounded q.
Proof. intros Hp Eq name c l. rewrite Eq. apply Hp. Qed.

Lemma _update_state_connections now p :
  connections (_update_state now p) = connections p.
Proof.
  by destruct (_update_state_keeps now p) as [(_ & _ & E & _)| ->].
Qed.

Lemma call_samples_bounded c p :
  samples_bounded p -> samples_bounded (call c p).
Proof.
  intros Hp. destruct c as [name now|name|name now|name now|name ms]; simpl.
  - apply (insert_samples_bounded p name (mkConn now 0 0 None)); done.
  - intros name' c l Hl. simpl in Hl.
    apply lookup_delete_Some in Hl as [_ Hl]. by eapply Hp.
  - unfold record_success.
    match goal with |- samples_bounded (_update_state now ?q) =>
      assert (samples_bounded q) as Hq
    end.
    { destruct (connections p !! name) as [c|] eqn:E.
      - eapply (insert_samples_bounded p name
                  (mkConn (registered_at c) now 0 (latency_samples c)));
          [done| |by destruct (0 <? error_count _)].
        simpl. intros l. by apply (Hp name c l).
      - eapply same_connections_bounded; [exact Hp|].
        by destruct (0 <? error_count _). }
    eapply same_connections_bounded; [exact Hq|].
    apply _update_state_connections.
  - unfold record_error.
    match goal with |- context [_update_state now ?q] =>
      assert (samples_bounded q) as Hq
    end.
    { destruct (connections p !! name) as [c|] eqn:E.
      - eapply (insert_samples_bounded p name
                  (mkConn (registered_at c) now (conn_error_count c + 1)
                          (latency_samples c))); [done| |done].
        simpl. intros l. by apply (Hp name c l).
      - by eapply same_connections_bounded. }
    match goal with |- context [_update_state now ?q] =>
      set (p3 := _update_state now q);
      assert (samples_bounded p3) as H3
        by (eapply same_connections_bounded; [exact Hq|]; subst p3;
            apply _update_state_connections)
    end.
    destruct (_ <=? _); [|done].
    eapply same_connections_bounded; [exact H3|].
    by destruct (_open_circuit_keeps now p3) as (_ & _ & _ & _ & ?).
  - unfold record_latency.
    destruct (connections p !! name) as [c|] eqn:E; [|done].
    set (samples := default [] (latency_samples c) ++ [ms]).
    assert (0 < length (default [] (latency_samples c)) <= 100
            \/ latency_samples c = None)%nat as Hold.
    { destruct (latency_samples c) as [l|] eqn:El; [left|by right].
      by apply (Hp name c l). }
    eapply (insert_samples_bounded p name
              (mkConn (registered_at c) (last_check c) (conn_error_count c)
                 (Some (if (100 <? length samples)%nat
                        then drop 1 samples else samples)))); [done| |].
    + simpl. intros l [= <-].
      assert (0 < length samples <= 101)%nat as Hlen.
      { subst samples. rewrite length_app. simpl.
        destruct Hold as [?| ->]; simpl; lia. }
      destruct (Nat.ltb_spec 100 (length samples));
        rewrite ?length_drop; lia.
    + simpl. destruct (avg_above _ _); [|done].
      by destruct (state_eqb (state p) HEALTHY).
Qed.

(** X10. Every latency buffer is bounded: in every state that calls on a
    fresh pool can reach, a connection that has a [latency_samples] list
    holds between 1 and 100 samples in it. *)
Theorem latency_buffers_are_bounded lt et ct calls :
  samples_bounded (run calls (init lt et ct)).
Proof.
  assert (forall p, samples_bounded p -> samples_bounded (run calls p)) as H.
  { unfold run. induction calls as [|c calls IH]; intros p Hp; [done|].
    simpl. apply IH. by apply call_samples_bounded. }
  apply H. intros name c l Hl. simpl in Hl. by rewrite lookup_empty in Hl.
Qed.

(** X11. A success forgets a latency degradation: on a closed circuit
    with at most one counted error and a threshold of at least one,
    [record_success] sets the state [HEALTHY], also when [record_latency]
    had set it [DEGRADED] and the latency is still high. *)
Theorem record_success_restores_healthy p name now :
  state p <> CIRCUIT_OPEN -> error_count p <= 1 -> 1 <= error_threshold p ->
  state (record_success name now p) = HEALTHY.
Proof.
  intros Hs Hc Hthr. unfold record_success.
  match goal with |- state (_update_state now ?q) = _ =>
    assert (state q = state p /\ error_count q <= 0 /\
            error_threshold q = error_threshold p) as (E1 & E2 & E3)
  end.
  { destruct (connections p !! name); simpl;
      destruct (Z.ltb_spec 0 (error_count p)); simpl; repeat split;
      try done; lia. }
  unfold _update_state. rewrite E1.
  destruct (state_eqb (state p) CIRCUIT_OPEN) eqn:E.
  { by apply PoolTheory.state_eqb_eq in E. }
  rewrite E3.
  match goal with |- context [error_threshold p <=? ?n] =>
    destruct (Z.leb_spec (error_threshold p) n); [lia|];
    destruct (Z.ltb_spec 0 n); [lia|done]
  end.
Qed.

Lemma record_success_restores_healthy_witness :
  state (record_success "websocket" 10 slow) = HEALTHY.
Proof.
  apply (record_success_restores_healthy slow "websocket" 10);
    vm_compute; discriminate.
Defined.

End PoolFacts.

(* ================================================================== *)
(** ** Further properties of the market scanner *)
(* ================================================================== *)

Module ScannerFacts.
Import Scanner.

Section WithParser.

Variable fromisoformat : string -> option Z.

Local Abbreviation _cleanup_closed_markets :=
  (_cleanup_closed_markets fromisoformat).
Local Abbreviation closed_markets := (closed_markets fromisoformat).
Local Abbreviation is_closed := (is_closed fromisoformat).
Local Abbreviation scan_loop := (scan_loop fromisoformat).
Local Abbreviation scan_markets := (scan_markets fromisoformat).
Local Abbreviation loop_iteration := (loop_iteration fromisoformat).
Local Abbreviation start := (start fromisoformat).
Local Abbreviation call := (call fromisoformat).
Local Abbreviation run := (run fromisoformat).

Lemma resolved_tokens_nonempty m toks :
  resolved_tokens m = Some toks -> toks.1 <> ""%string /\ toks.2 <> ""%string.
Proof.
  unfold resolved_tokens. destruct (_extract_tokens m) as [[y|] [n|]];
    try done.
  simpl. destruct (String.eqb_spec y ""), (String.eqb_spec n "");
    simpl; try done.
  by intros [= <-].
Qed.

Lemma register_well_registered m toks st :
  well_registered st ->
  _matches_criteria st m = true -> resolved_tokens m = Some toks ->
  well_registered (register m toks st).
Proof.
  intros Hst Hm Hr k m' Hk. simpl in Hk.
  destruct (decide (id m = k)) as [<-|Hne].
  - rewrite lookup_insert_eq in Hk. injection Hk as <-.
    repeat split; [done|]. exists toks. simpl. rewrite lookup_insert_eq.
    destruct (resolved_tokens_nonempty m toks Hr). done.
  - rewrite lookup_insert_ne in Hk by done.
    destruct (Hst k m' Hk) as (? & ? & toks' & ? & ? & ?).
    repeat split; [done|done|]. exists toks'. simpl.
    by rewrite lookup_insert_ne.
Qed.

Lemma remove_market_well_registered k st :
  well_registered st -> well_registered (remove_market k st).
Proof.
  intros Hst k' m Hk. simpl in Hk.
  apply lookup_delete_Some in Hk as [Hne Hk].
  destruct (Hst k' m Hk) as (? & ? & toks & ? & ? & ?).
  repeat split; [done|done|]. exists toks. simpl.
  by rewrite lookup_delete_ne.
Qed.

Lemma scan_loop_well_registered now markets : forall st new_markets,
  well_registered st ->
  well_registered (scan_loop now markets st new_markets).1.
Proof.
  induction markets as [|[m| |market_id] rest IH]; intros st new_markets H;
    [done| |done|simpl; case_bool_decide; [by apply IH|done]].
  simpl. case_bool_decide; [by apply IH|].
  destruct (_matches_criteria st m) eqn:Hm; simpl; [|by apply IH].
  destruct (negb (_has_sufficient_time fromisoformat st now m));
    [by apply IH|].
  destruct (resolved_tokens m) as [toks|] eqn:Hr; [|by apply IH].
  destruct (_ <=? _); [by apply register_well_registered|].
  apply IH. by apply register_well_registered.
Qed.

Lemma scan_markets_well_registered response now st :
  well_registered st -> well_registered (scan_markets response now st).1.
Proof.
  intros H. unfold scan_markets. destruct response as [markets|]; [|done].
  pose proof (scan_loop_well_registered now markets st [] H) as H'.
  by destruct (scan_loop now markets st []) as [st' [new_markets|]].
Qed.

Lemma remove_all_well_registered ids : forall st,
  well_registered st ->
  well_registered
    (foldl (fun st market_id => remove_market market_id st) st ids).
Proof.
  induction ids as [|k ids IH]; intros st H; [done|].
  simpl. apply IH. by apply remove_market_well_registered.
Qed.

Lemma call_well_registered c st :
  well_registered st -> well_registered (call c st).
Proof.
  intros H. destruct c as [r now| |r now|now|r now]; simpl.
  - unfold Scanner.start. destruct (running st); [done|].
    by apply scan_markets_well_registered.
  - done.
  - by apply scan_markets_well_registered.
  - by apply remove_all_well_registered.
  - unfold Scanner.loop_iteration. destruct (running st); [|done].
    destruct (_ <? _); [apply scan_markets_well_registered|];
      by apply remove_all_well_registered.
Qed.

Lemma run_well_registered calls : forall st,
  well_registered st -> well_registered (run calls st).
Proof.
  unfold Scanner.run. induction calls as [|c calls IH]; intros st H; [done|].
  simpl. apply IH. by apply call_well_registered.
Qed.

Lemma init_well_registered kws excl maxm interval min_time :
  well_registered (init kws excl maxm interval min_time).
Proof. intros k m H. simpl in H. by rewrite lookup_empty in H. Qed.

(** X12. Whatever is called on a fresh scanner, every market of the
    registry is stored under its own id, matches the keyword criteria, and
    has under [get_market_tokens] the pair of tokens that
    [_extract_tokens] resolves for it, both non-empty: a record without
    resolvable tokens is never registered. *)
Theorem registry_holds_only_resolved_markets kws excl maxm interval min_time
    calls :
  well_registered (run calls (init kws excl maxm interval min_time)).
Proof. apply run_well_registered, init_well_registered. Qed.

(** What the scan loop does, on any catalog: the markets it registers
    come from the typed elements of the catalog in its order, each was
    absent before and is registered after under its id, nothing
    registered before is touched, and nothing else is added. The loop
    returns [new_markets] with these markets appended, unless it raises,
    which only an element that is not typed makes it do. *)
Lemma scan_loop_adds now markets : forall st acc,
  exists added,
    ((scan_loop now markets st acc).2 = Returned (acc ++ added) \/
     (scan_loop now markets st acc).2 = Raised /\
     exists e, e ∈ markets /\ forall m, e <> Typed m) /\
    last_scan_time (scan_loop now markets st acc).1 = last_scan_time st /\
    sublist (Typed <$> added) markets /\
    active_markets st ⊆ active_markets (scan_loop now markets st acc).1 /\
    size (active_markets (scan_loop now markets st acc).1)
    = (size (active_markets st) + length added)%nat /\
    (forall m, m ∈ added ->
       active_markets st !! id m = None /\
       active_markets (scan_loop now markets st acc).1 !! id m = Some m) /\
    (forall k m,
       active_markets (scan_loop now markets st acc).1 !! k = Some m ->
       active_markets st !! k = Some m \/ (m ∈ added /\ id m = k)).
Proof.
  induction markets as [|e rest IH]; intros st acc.
  { exists []. simpl. rewrite app_nil_r.
    split; [by left|]. split; [done|]. split; [done|]. split; [done|].
    split; [lia|].
    split; [|by left]. intros m Hm. by apply elem_of_nil in Hm. }
  assert (exists added,
            ((scan_loop now rest st acc).2 = Returned (acc ++ added) \/
             (scan_loop now rest st acc).2 = Raised /\
             exists e0, e0 ∈ e :: rest /\ forall m, e0 <> Typed m) /\
            last_scan_time (scan_loop now rest st acc).1 = last_scan_time st /\
            sublist (Typed <$> added) (e :: rest) /\
            active_markets st ⊆ active_markets (scan_loop now rest st acc).1 /\
            size (active_markets (scan_loop now rest st acc).1)
            = (size (active_markets st) + length added)%nat /\
            (forall m0, m0 ∈ added ->
               active_markets st !! id m0 = None /\
               active_markets (scan_loop now rest st acc).1 !! id m0
               = Some m0) /\
            (forall k m0,
               active_markets (scan_loop now rest st acc).1 !! k = Some m0 ->
               active_markets st !! k = Some m0 \/ (m0 ∈ added /\ id m0 = k)))
    as Hskip.
  { destruct (IH st acc) as (added & Hout & ? & ? & ? & ? & ? & ?).
    exists added. split.
    { destruct Hout as [?|[? (e0 & He0 & Hne)]]; [by left|right].
      split; [done|]. exists e0. split; [|done].
      apply elem_of_cons. by right. }
    split; [done|]. split; [by apply sublist_cons|]. done. }
  assert ((forall m, e <> Typed m) ->
          exists added : list Market,
            ((st, @Raised (list Market)).2 = Returned (acc ++ added) \/
             (st, @Raised (list Market)).2 = Raised /\
             exists e0, e0 ∈ e :: rest /\ forall m, e0 <> Typed m) /\
            last_scan_time st = last_scan_time st /\
            sublist (Typed <$> added) (e :: rest) /\
            active_markets st ⊆ active_markets st /\
            size (active_markets st)
            = (size (active_markets st) + length added)%nat /\
            (forall m0, m0 ∈ added ->
               active_markets st !! id m0 = None /\
               active_markets st !! id m0 = Some m0) /\
            (forall k m0,
               active_markets st !! k = Some m0 ->
               active_markets st !! k = Some m0 \/ (m0 ∈ added /\ id m0 = k)))
    as Hraise.
  { intros Hno. exists []. simpl.
    split; [right; split; [done|]; exists e;
            split; [apply elem_of_cons; by left|done]|].
    split; [done|]. split; [apply sublist_nil_l|]. split; [done|].
    split; [lia|]. split; [|by left].
    intros m0 Hm0. by apply elem_of_nil in Hm0. }
  destruct e as [m| |market_id]; simpl.
  2:{ apply Hraise. by intros m. }
  2:{ case_bool_decide; [exact Hskip|]. apply Hraise. by intros m. }
  clear Hraise.
  case_bool_decide as Hin; [exact Hskip|].
  destruct (negb (_matches_criteria st m)); [exact Hskip|].
  destruct (negb (_has_sufficient_time fromisoformat st now m));
    [exact Hskip|].
  destruct (resolved_tokens m) as [toks|]; [|exact Hskip].
  assert (active_markets st !! id m = None) as Hnone.
  { destruct (active_markets st !! id m) eqn:E; [|done].
    destruct Hin. by eexists. }
  assert (size (<[id m := m]> (active_markets st))
          = S (size (active_markets st))) as Hsize
    by (by apply map_size_insert_None).
  destruct (_ <=? _).
  - exists [m]. simpl.
    split; [by left|]. split; [done|].
    split; [by apply sublist_skip, sublist_nil_l|].
    split; [by apply insert_subseteq|]. split; [rewrite Hsize; lia|].
    split.
    + intros m0 Hm0. apply list_elem_of_singleton in Hm0. subst m0.
      split; [done|]. apply lookup_insert_eq.
    + intros k m0 Hk. destruct (decide (id m = k)) as [<-|Hne].
      * rewrite lookup_insert_eq in Hk. injection Hk as <-. right.
        split; [|done]. by apply list_elem_of_singleton.
      * rewrite lookup_insert_ne in Hk by done. by left.
  - destruct (IH (register m toks st) (acc ++ [m]))
      as (added & Hout & Hlast & Hsub & Hincl & Hsz & Hnew & Hold).
    exists (m :: added).
    split.
    { destruct Hout as [E|[E (e0 & He0 & Hne)]].
      - left. rewrite E. by rewrite <- app_assoc.
      - right. split; [done|]. exists e0. split; [|done].
        apply elem_of_cons. by right. }
    split; [done|].
    split; [by apply sublist_skip|].
    split; [etrans; [|exact Hincl]; simpl; by apply insert_subseteq|].
    split; [rewrite Hsz; simpl; rewrite Hsize; lia|].
    split.
    + intros m0 Hm0. apply elem_of_cons in Hm0 as [->|Hm0].
      * split; [done|].
        eapply lookup_weaken; [|exact Hincl]. simpl. apply lookup_insert_eq.
      * destruct (Hnew m0 Hm0) as [Hn Hs]. split; [|done]. simpl in Hn.
        destruct (decide (id m = id m0)) as [Heq|Hne].
        -- rewrite Heq, lookup_insert_eq in Hn. done.
        -- by rewrite lookup_insert_ne in Hn.
    + intros k m0 Hk. destruct (Hold k m0 Hk) as [Hreg|[Hm0 Hid]].
      * simpl in Hreg. destruct (decide (id m = k)) as [<-|Hne].
        -- rewrite lookup_insert_eq in Hreg. injection Hreg as <-.
           right. split; [apply elem_of_cons; by left|done].
        -- rewrite lookup_insert_ne in Hreg by done. by left.
      * right. split; [apply elem_of_cons; by right|done].
Qed.

(** X13. [scan_markets] returns exactly what it registers, unless an
    element of the catalog raises. The markets that a scan registers are
    typed elements of the catalog, in catalog order; each was not
    registered before and is registered after under its id; the registry
    grows by their number; every market registered before is still
    there, unchanged; and every entry of the registry was there before or
    is one of them. These markets are what the scan returns, with
    [last_scan_time] set to the clock; or else the scan returns [[]] and
    leaves [last_scan_time] as it was, which happens only when the
    catalog holds an element that is not typed: the markets registered
    before that element raised stay registered. *)
Theorem scan_markets_returns_what_it_registers markets now st :
  let st' := (scan_markets (Some markets) now st).1 in
  let new_markets := (scan_markets (Some markets) now st).2 in
  exists registered,
    sublist (Typed <$> registered) markets /\
    active_markets st ⊆ active_markets st' /\
    size (active_markets st')
    = (size (active_markets st) + length registered)%nat /\
    (forall m, m ∈ registered ->
       active_markets st !! id m = None /\
       active_markets st' !! id m = Some m) /\
    (forall k m,
       active_markets st' !! k = Some m ->
       active_markets st !! k = Some m \/ (m ∈ registered /\ id m = k)) /\
    (new_markets = registered /\ last_scan_time st' = now \/
     new_markets = [] /\ last_scan_time st' = last_scan_time st /\
     exists e, e ∈ markets /\ forall m, e <> Typed m).
Proof.
  simpl. unfold Scanner.scan_markets.
  destruct (scan_loop_adds now markets st [])
    as (added & Hout & Hlast & Hsub & Hincl & Hsz & Hnew & Hold).
  destruct (scan_loop now markets st []) as [st' [new_markets|]];
    simpl in *; exists added.
  - destruct Hout as [[= ->]|[? _]]; [|done].
    split; [done|]. split; [done|]. split; [done|]. split; [done|].
    split; [done|]. by left.
  - destruct Hout as [?|[_ He]]; [done|].
    split; [done|]. split; [done|]. split; [done|]. split; [done|].
    split; [done|]. by right.
Qed.





End WithParser.

Lemma classify_cases acc t :
  classify acc t
  = if yes_like (lower (outcome t)) then (token_id t, acc.2)
    else if no_like (lower (outcome t)) then (acc.1, token_id t)
    else acc.
Proof. reflexivity. Qed.

Lemma foldl_classify_no_yes ts : forall acc,
  Forall (fun t => yes_like (lower (outcome t)) = false) ts ->
  (foldl classify acc ts).1 = acc.1.
Proof.
  induction ts as [|t ts IH]; intros acc H; [done|].
  inversion H as [|? ? Ht Hts]; subst. cbn [foldl].
  rewrite IH by done. rewrite classify_cases, Ht.
  by destruct (no_like (lower (outcome t))).
Qed.

(** X15. [_extract_tokens] goes by label first and by position
    otherwise. Two tokens of which one is labelled as the yes side ("yes",
    "up", "higher") and the other only as the no side ("no", "down",
    "lower"), both with an id, come back as (yes, no) in either order of
    the list. When no token of the list is labelled as the yes side, the
    first two tokens come back in list order, whatever their labels. *)
Theorem tokens_by_label_else_by_position m a b t0 t1 rest :
  (yes_like (lower (outcome a)) = true ->
   yes_like (lower (outcome b)) = false ->
   no_like (lower (outcome b)) = true ->
   truthy_str (token_id a) = true -> truthy_str (token_id b) = true ->
   tokens m = [a; b] \/ tokens m = [b; a] ->
   _extract_tokens m = (token_id a, token_id b)) /\
  (tokens m = t0 :: t1 :: rest ->
   Forall (fun t => yes_like (lower (outcome t)) = false) (tokens m) ->
   _extract_tokens m = (token_id t0, token_id t1)).
Proof.
  split.
  - intros Hya Hyb Hnb Ha Hb [E|E]; unfold _extract_tokens; rewrite E;
      cbn [foldl]; rewrite !classify_cases, Hya, Hyb, Hnb; cbn [fst snd];
      by rewrite Ha, Hb.
  - intros E Hall. unfold _extract_tokens.
    pose proof (foldl_classify_no_yes (tokens m) (None, None) Hall) as Hy.
    rewrite E in *.
    destruct (foldl classify (None, None) (t0 :: t1 :: rest)) as [y n].
    simpl in Hy. by subst y.
Qed.

Lemma tokens_by_label_else_by_position_witness :
  let up := mkToken "Up" (Some "1"%string) in
  let down := mkToken "Down" (Some "2"%string) in
  let a := mkToken "A" (Some "3"%string) in
  let m := mkMarket "m" "" "" "" None [down; up] [] in
  let m' := mkMarket "m" "" "" "" None [down; a] [] in
  _extract_tokens m = (token_id up, token_id down) /\
  _extract_tokens m' = (token_id down, token_id a).
Proof.
  split.
  - apply (tokens_by_label_else_by_position
             (mkMarket "m" "" "" "" None
                [mkToken "Down" (Some "2"%string);
                 mkToken "Up" (Some "1"%string)] [])
             (mkToken "Up" (Some "1"%string))
             (mkToken "Down" (Some "2"%string))
             (mkToken "Down" (Some "2"%string))
             (mkToken "Up" (Some "1"%string)) []);
      try reflexivity. by right.
  - apply (tokens_by_label_else_by_position
             (mkMarket "m" "" "" "" None
                [mkToken "Down" (Some "2"%string);
                 mkToken "A" (Some "3"%string)] [])
             (mkToken "Up" (Some "1"%string))
             (mkToken "Down" (Some "2"%string))
             (mkToken "Down" (Some "2"%string))
             (mkToken "A" (Some "3"%string)) []);
      [reflexivity|]. repeat constructor.
Defined.

Lemma lower_ascii_idempotent c : lower_ascii (lower_ascii c) = lower_ascii c.
Proof. destruct c as [[] [] [] [] [] [] [] []]; reflexivity. Qed.

Lemma lower_idempotent s : lower (lower s) = lower s.
Proof.
  induction s as [|c s IH]; [done|]. simpl.
  by rewrite lower_ascii_idempotent, IH.
Qed.

(** X16. The keyword filter ignores letter case: [_matches_criteria]
    gives the same answer when the keywords, the exclusion keywords and
    the three text fields of the market are replaced by their lower-case
    forms. *)
Theorem matching_ignores_letter_case kws excl maxm interval min_time m :
  _matches_criteria (init kws excl maxm interval min_time) m
  = _matches_criteria
      (init (map lower kws) (map lower excl) maxm interval min_time)
      (lowered m).
Proof.
  unfold _matches_criteria. simpl.
  rewrite !lower_idempotent, !map_map.
  by rewrite !(map_ext (fun x => lower (lower x)) lower lower_idempotent).
Qed.

End ScannerFacts.

(* ================================================================== *)
(** ** Further properties of the websocket manager *)
(* ================================================================== *)

Module WsManagerFacts.
Import WsManager.

Lemma send_bounded f st : bounded st -> bounded (send f st).
Proof.
  unfold send. destruct (mode_eqb (mode st) WEBSOCKET); [|done].
  by destruct (ws st).
Qed.

Lemma subscribe_market_bounded t st :
  bounded st -> bounded (subscribe_market t st).
Proof.
  intros H. unfold subscribe_market. case_bool_decide; [done|].
  by apply send_bounded.
Qed.

Lemma unsubscribe_market_bounded t st :
  bounded st -> bounded (unsubscribe_market t st).
Proof.
  intros H. unfold unsubscribe_market. case_bool_decide; [|done].
  by apply send_bounded.
Qed.

Lemma _handle_message_bounded p t st :
  bounded st -> bounded (_handle_message p t st).
Proof.
  intros [H1 H2]. destruct p as [|[ts|]]; [done| |done].
  split; [|done]. simpl.
  destruct (Nat.ltb_spec 100
              (length (latency_samples st ++ [(t - ts) * 1000])));
    rewrite ?length_drop, length_app in *; simpl in *; lia.
Qed.

Lemma foldl_bounded {A} (f : WebSocketManager -> A -> WebSocketManager) l :
  (forall st x, bounded st -> bounded (f st x)) ->
  forall st, bounded st -> bounded (foldl f st l).
Proof.
  intros Hf. induction l as [|x l IH]; intros st H; [done|].
  simpl. by apply IH, Hf.
Qed.

Lemma call_bounded c st : bounded st -> bounded (call c st).
Proof.
  intros H. pose proof H as [H1 H2].
  destruct c as [ok| |t|t|ok r|replies|]; simpl.
  - unfold start. destruct (running st); [done|]. by destruct ok.
  - unfold stop. simpl. by destruct (ws st).
  - by apply subscribe_market_bounded.
  - by apply unsubscribe_market_bounded.
  - unfold websocket_loop_turn.
    destruct (negb (websocket_loop_alive st)); [done|].
    destruct (negb (running st)); [done|].
    assert (bounded
              (if max_reconnect_attempts st <=? reconnect_attempts st
               then set_tasks false (S (polling_loops st))
                      (set_mode REST_POLLING st)
               else
                 let st1 :=
                   set_reconnect_attempts (reconnect_attempts st + 1) st in
                 if ok
                 then
                   let st2 := set_reconnect_attempts 0
                                (_try_websocket_connection true st1) in
                   foldl (fun st token_id => subscribe_market token_id st) st2
                     (elements (subscribed_markets st2))
                 else st1)) as Hre.
    { destruct (Z.leb_spec (max_reconnect_attempts st) (reconnect_attempts st));
        [done|].
      destruct ok.
      - apply foldl_bounded; [intros; by apply subscribe_market_bounded|].
        split; simpl; [done|lia].
      - split; simpl; [done|lia]. }
    destruct (ws st); [done| |done].
    destruct r as [p t| | | |]; try done. by apply _handle_message_bounded.
  - unfold polling_loop_turn. destruct (0 <? polling_loops st)%nat; [|done].
    destruct (running st && mode_eqb (mode st) REST_POLLING); [|done].
    apply foldl_bounded; [|done]. intros st' t Hst'.
    destruct (replies t) as [[stamped received]|]; [|done].
    by apply _handle_message_bounded.
  - unfold socket_closes. by destruct (ws st).
Qed.

(** X17. Whatever happens to a fresh manager, its latency buffer never
    holds more than 100 samples, and its count of reconnection attempts
    stays between 0 and [max_reconnect_attempts]. *)
Theorem manager_stays_within_bounds delay max_attempts calls :
  let st := run calls (init delay max_attempts) in
  (length (latency_samples st) <= 100)%nat /\
  0 <= reconnect_attempts st <= Z.max 0 max_attempts.
Proof.
  assert (forall st, bounded st ->
                     bounded (run calls st) /\
                     max_reconnect_attempts (run calls st)
                     = max_reconnect_attempts st) as H.
  { unfold run. induction calls as [|c calls IH]; intros st Hst; [done|].
    simpl. destruct (IH (call c st) (call_bounded c st Hst)) as [H1 H2].
    split; [done|]. rewrite H2.
    clear. destruct c as [ok| |t|t|ok r|replies|]; simpl.
    - unfold start. destruct (running st); [done|]. by destruct ok.
    - unfold stop. simpl. by destruct (ws st).
    - pose proof (WsManagerTheory.subscribe_market_link t st) as E.
      unfold link in E. congruence.
    - pose proof (WsManagerTheory.unsubscribe_market_link t st) as E.
      unfold link in E. congruence.
    - unfold websocket_loop_turn.
      destruct (negb (websocket_loop_alive st)); [done|].
      destruct (negb (running st)); [done|].
      assert (forall l st', max_reconnect_attempts
                (foldl (fun st token_id => subscribe_market token_id st) st' l)
              = max_reconnect_attempts st') as Hfold.
      { induction l as [|t l IHl]; intros st'; [done|]. simpl. rewrite IHl.
        pose proof (WsManagerTheory.subscribe_market_link t st') as E.
        unfold link in E. congruence. }
      destruct (ws st);
        [destruct (_ <=? _); [done|]; destruct ok; [by rewrite Hfold|done]
        |
        |destruct (_ <=? _); [done|]; destruct ok; [by rewrite Hfold|done]].
      destruct r as [[|ts] t| | | |]; done.
    - pose proof (WsManagerTheory.polling_loop_turn_link replies st) as E.
      unfold link in E. congruence.
    - unfold socket_closes. by destruct (ws st). }
  destruct (H (init delay max_attempts)) as [[H1 H2] H3].
  { split; simpl; [lia|lia]. }
  simpl in *. by rewrite H3 in H2.
Qed.

(** Subscribing to ids that are all subscribed already does nothing. *)
Lemma resubscribe_does_nothing l : forall st,
  (forall t, t ∈ l -> t ∈ subscribed_markets st) ->
  foldl (fun st token_id => subscribe_market token_id st) st l = st.
Proof.
  induction l as [|t l IH]; intros st H; [done|].
  simpl. unfold subscribe_market at 2.
  rewrite bool_decide_eq_true_2 by (apply H, elem_of_cons; by left).
  apply IH. intros t' Ht'. apply H, elem_of_cons. by right.
Qed.

(** X18. A successful reconnection re-subscribes nothing: when the
    websocket task finds the socket down, has attempts left and
    reconnects, the socket is open again and the attempt counter is 0, but
    the loop over the subscribed ids finds each of them subscribed
    already, so no frame is sent on the new socket and the interest set is
    as before. *)
Theorem reconnection_sends_no_frame st r :
  running st = true -> websocket_loop_alive st = true ->
  ws st <> SocketOpen ->
  reconnect_attempts st < max_reconnect_attempts st ->
  let st' := websocket_loop_turn true r st in
  ws st' = SocketOpen /\ reconnect_attempts st' = 0 /\
  mode st' = mode st /\
  sent st' = sent st /\ subscribed_markets st' = subscribed_markets st.
Proof.
  intros Hrun Halive Hws Hatt. simpl. unfold websocket_loop_turn.
  rewrite Halive, Hrun. simpl.
  destruct (Z.leb_spec (max_reconnect_attempts st) (reconnect_attempts st));
    [lia|].
  destruct (ws st) eqn:E; [|done|];
    (rewrite resubscribe_does_nothing;
     [done|intros t Ht; by apply elem_of_elements in Ht]).
Qed.

Lemma reconnection_sends_no_frame_witness :
  let st' := websocket_loop_turn true RecvOther dropped in
  ws st' = SocketOpen /\ reconnect_attempts st' = 0 /\
  mode st' = mode dropped /\
  sent st' = sent dropped /\
  subscribed_markets st' = subscribed_markets dropped.
Proof.
  apply (reconnection_sends_no_frame dropped RecvOther);
    [reflexivity|reflexivity|vm_compute; discriminate|reflexivity].
Defined.

(** X19. Subscriptions are idempotent and can be undone: subscribing to
    an id twice leaves the manager as after the first time, frames
    included, and so does unsubscribing twice; unsubscribing from an id
    that was not subscribed before its subscription gives back the
    interest set of before. *)
Theorem subscriptions_are_idempotent_and_undone t st :
  subscribe_market t (subscribe_market t st) = subscribe_market t st /\
  unsubscribe_market t (unsubscribe_market t st) = unsubscribe_market t st /\
  (t ∉ subscribed_markets st ->
   subscribed_markets (unsubscribe_market t (subscribe_market t st))
   = subscribed_markets st).
Proof.
  split; [|split].
  - unfold subscribe_market at 1.
    rewrite bool_decide_eq_true_2; [done|].
    rewrite WsManagerTheory.subscribe_market_adds.
    apply elem_of_union. left. by apply elem_of_singleton.
  - unfold unsubscribe_market at 1.
    rewrite bool_decide_eq_false_2; [done|].
    rewrite WsManagerTheory.unsubscribe_market_removes.
    rewrite elem_of_difference, elem_of_singleton. by intros [_ ?].
  - intros Hnot.
    rewrite WsManagerTheory.unsubscribe_market_removes,
      WsManagerTheory.subscribe_market_adds.
    apply set_eq. intros x.
    rewrite elem_of_difference, elem_of_union, elem_of_singleton.
    split.
    + by intros [[->|?] ?].
    + intros Hx. split; [by right|]. by intros ->.
Qed.

Lemma subscriptions_are_idempotent_and_undone_witness :
  subscribe_market "token-2" (subscribe_market "token-2" dropped)
  = subscribe_market "token-2" dropped /\
  unsubscribe_market "token-2" (unsubscribe_market "token-2" dropped)
  = unsubscribe_market "token-2" dropped /\
  subscribed_markets
    (unsubscribe_market "token-2" (subscribe_market "token-2" dropped))
  = subscribed_markets dropped.
Proof.
  destruct (subscriptions_are_idempotent_and_undone "token-2" dropped)
    as (H1 & H2 & H3).
  split; [exact H1|]. split; [exact H2|]. apply H3.
  vm_compute. intros H. discriminate H.
Defined.

Lemma polling_loop_turn_sent replies st :
  sent (polling_loop_turn replies st) = sent st.
Proof.
  unfold polling_loop_turn. destruct (0 <? polling_loops st)%nat; [|done].
  destruct (running st && mode_eqb (mode st) REST_POLLING); [|done].
  generalize (elements (subscribed_markets st)) as tokens.
  intros tokens. revert st.
  induction tokens as [|t tokens IH]; intros st; [done|].
  cbn [foldl]. rewrite IH.
  destruct (replies t) as [[stamped received]|]; [|done].
  by destruct (Json (Some stamped)).
Qed.

Lemma call_fallen_back_sent c st w a :
  alive c -> fallen_back st w a -> sent (call c st) = sent st.
Proof.
  intros Hc (Hrun & Halive & Hmode & Hws & Hatt & Hpoll).
  destruct c as [ok| |t|t|ok r|replies|]; simpl.
  - unfold start. by rewrite Hrun.
  - done.
  - unfold subscribe_market. case_bool_decide; [done|].
    unfold send. simpl. by rewrite Hmode.
  - unfold unsubscribe_market. case_bool_decide; [|done].
    unfold send. simpl. by rewrite Hmode.
  - unfold websocket_loop_turn. by rewrite Halive.
  - apply polling_loop_turn_sent.
  - unfold socket_closes. by destruct (ws st).
Qed.

(** X20. In polling mode nothing is sent on the channel: after the
    fallback, through any calls short of [stop()], [subscribe_market] and
    [unsubscribe_market] included, the list of frames sent stays as it
    was. *)
Theorem polling_mode_sends_no_frame st w a calls :
  fallen_back st w a -> w <> SocketOpen -> Forall alive calls ->
  sent (run calls st) = sent st.
Proof.
  intros Hfb Hw. revert st Hfb. unfold run.
  induction calls as [|c calls IH]; intros st Hfb Hal; [done|].
  inversion Hal as [|? ? Hc Hrest]; subst. simpl.
  rewrite IH; [|by apply WsManagerTheory.call_fallen_back|done].
  by eapply call_fallen_back_sent.
Qed.

Lemma polling_mode_sends_no_frame_witness :
  sent (run [Subscribe "token-9"; Unsubscribe "token-1";
             PollingLoop (fun _ => Some (1, 2)); Start true] fallen)
  = sent fallen.
Proof.
  apply (polling_mode_sends_no_frame fallen SocketClosed 2
           [Subscribe "token-9"; Unsubscribe "token-1";
            PollingLoop (fun _ => Some (1, 2)); Start true]).
  - unfold fallen_back. repeat split; vm_compute; lia.
  - discriminate.
  - repeat constructor.
Defined.

End WsManagerFacts.

(* ================================================================== *)
(** ** Further properties of the strategy orchestrator *)
(* ================================================================== *)

Module OrchestratorFacts.
Import Orchestrator.

Lemma scanned_app tr1 tr2 : scanned (tr1 ++ tr2) = scanned tr1 ++ scanned tr2.
Proof. apply omap_app. Qed.

Lemma executed_app tr1 tr2 :
  executed (tr1 ++ tr2) = executed tr1 ++ executed tr2.
Proof. apply omap_app. Qed.

Lemma monitored_app tr1 tr2 :
  monitored (tr1 ++ tr2) = monitored tr1 ++ monitored tr2.
Proof. apply omap_app. Qed.

(** The scan phase asks every enabled strategy once, in list order. *)
Lemma scan_phase_trace strats :
  let '(evs, opps, active) := scan_phase strats in
  evs = map EvScan (List.filter is_enabled strats) /\
  active = length (List.filter is_enabled strats) /\
  (length opps <= active)%nat /\
  Forall (fun opp => In (opp_strategy opp) strats /\
                     is_enabled (opp_strategy opp) = true) opps.
Proof.
  induction strats as [|s rest IH]; simpl; [by repeat split|].
  destruct (scan_phase rest) as [[evs opps] active].
  destruct IH as (-> & -> & Hlen & Hopps).
  assert (Forall (fun opp => (s = opp_strategy opp \/ In (opp_strategy opp) rest)
                             /\ is_enabled (opp_strategy opp) = true) opps)
    as Hopps'.
  { eapply Forall_impl; [exact Hopps|]. simpl. intros opp [? ?]. auto. }
  destruct (is_enabled s) eqn:Hen; simpl; [|done].
  destruct (scan_opportunities s) as [[signal|]|]; simpl;
    repeat split; try done; try lia.
  constructor; [|done]. simpl. auto.
Qed.

(** The monitor phase asks every enabled strategy once, in list order. *)
Lemma monitor_phase_trace dry_run strats :
  (monitor_phase dry_run strats).1
  = map EvMonitor (List.filter is_enabled strats).
Proof.
  induction strats as [|s rest IH]; simpl; [done|].
  destruct (monitor_phase dry_run rest) as [evs closed]. simpl in IH.
  subst evs. destruct (is_enabled s); simpl; [|done].
  by destruct (monitor_positions s dry_run).
Qed.

(** The inner loop of the execute phase: what it calls, counts, and how
    it ends. *)
Lemma execute_for_key_trace o dry_run key opps :
  let '(evs, trades, raised) := execute_for_key o dry_run key opps in
  (trades <= length evs)%nat /\
  (length evs
   <= length (List.filter
                (fun opp => String.eqb (_get_strategy_key (opp_strategy opp))
                                       key) opps))%nat /\
  Forall (fun ev => exists opp, In opp opps /\
                      ev = EvExecute (opp_strategy opp) (opp_signal opp)) evs /\
  (if raised
   then exists evs' s signal,
       evs = evs' ++ [EvExecute s signal] /\
       execute_trade s signal dry_run = Raised /\
       Forall (fun ev => forall s' signal',
                 ev = EvExecute s' signal' ->
                 execute_trade s' signal' dry_run <> Raised) evs'
   else Forall (fun ev => forall s' signal',
                  ev = EvExecute s' signal' ->
                  execute_trade s' signal' dry_run <> Raised) evs).
Proof.
  induction opps as [|opp rest IH]; simpl; [by repeat split|].
  destruct (execute_for_key o dry_run key rest) as [[evs trades] raised].
  destruct IH as (Ht & Hl & Hin & Hr).
  assert (Forall (fun ev => exists opp0,
                    (opp = opp0 \/ In opp0 rest) /\
                    ev = EvExecute (opp_strategy opp0) (opp_signal opp0)) evs)
    as Hin'.
  { eapply Forall_impl; [exact Hin|]. simpl. intros ev (opp0 & ? & ?).
    eauto. }
  destruct (String.eqb (_get_strategy_key (opp_strategy opp)) key); simpl;
    [|by repeat split].
  destruct (positive _);
    [|repeat split; try done; lia].
  destruct (execute_trade (opp_strategy opp) (opp_signal opp) dry_run)
    as [position_id|] eqn:Hexec; simpl.
  - split; [destruct position_id; lia|]. split; [lia|].
    split; [constructor; [eauto|done]|].
    destruct raised.
    + destruct Hr as (evs' & s & signal & -> & Hs & Hevs').
      exists (EvExecute (opp_strategy opp) (opp_signal opp) :: evs'), s, signal.
      repeat split; [done|]. constructor; [|done].
      intros s' signal' [= <- <-]. by rewrite Hexec.
    + constructor; [|done]. intros s' signal' [= <- <-]. by rewrite Hexec.
  - split; [lia|]. split; [lia|]. split; [constructor; [eauto|done]|].
    exists [], (opp_strategy opp), (opp_signal opp). by repeat split.
Qed.


(** The keys of distinct priorities share no opportunity. *)
Lemma matching_keys_bounded (keys : list string) (opps : list Opportunity) :
  NoDup keys ->
  (foldr (fun k n =>
            length (List.filter
                      (fun opp => String.eqb
                                    (_get_strategy_key (opp_strategy opp)) k)
                      opps) + n) 0 keys
   <= length opps)%nat.
Proof.
  intros Hnd. induction opps as [|opp rest IH].
  - clear Hnd. induction keys as [|k ks IHk]; [done|]. exact IHk.
  - set (f := fun (l : list Opportunity) k (n : nat) =>
                (length (List.filter
                           (fun opp => String.eqb
                                         (_get_strategy_key (opp_strategy opp))
                                         k) l) + n)%nat).
    change (foldr (f (opp :: rest)) 0 keys <= S (length rest))%nat.
    change (foldr (f rest) 0 keys <= length rest)%nat in IH.
    assert (forall ks, NoDup ks ->
              (foldr (f (opp :: rest)) 0 ks
               <= (if bool_decide (_get_strategy_key (opp_strategy opp) ∈ ks)
                   then 1 else 0) + foldr (f rest) 0 ks)%nat) as H.
    { clear. induction ks as [|k ks IHk]; intros Hnd; simpl; [lia|].
      apply NoDup_cons in Hnd as [Hk Hnd]. specialize (IHk Hnd).
      unfold f at 1 3. simpl.
      destruct (String.eqb_spec (_get_strategy_key (opp_strategy opp)) k)
        as [Heq|Hne]; simpl.
      - rewrite bool_decide_eq_true_2 by (apply elem_of_cons; by left).
        rewrite bool_decide_eq_false_2 in IHk by (by rewrite Heq). lia.
      - destruct (bool_decide_reflect
                    (_get_strategy_key (opp_strategy opp) ∈ ks)) as [Hin|Hin].
        + rewrite bool_decide_eq_true_2 by (apply elem_of_cons; by right).
          lia.
        + rewrite bool_decide_eq_false_2; [lia|].
          intros [?|?]%elem_of_cons; congruence. }
    specialize (H keys Hnd). destruct (bool_decide _); lia.
Qed.

(** The execute phase: what it calls, counts, and how it ends. *)
Lemma execute_phase_trace o dry_run opps keys :
  let '(evs, trades, raised) := execute_phase o dry_run keys opps in
  (trades <= length evs)%nat /\
  (length evs
   <= foldr (fun k n =>
               length (List.filter
                         (fun opp => String.eqb
                                       (_get_strategy_key (opp_strategy opp)) k)
                         opps) + n) 0 keys)%nat /\
  Forall (fun ev => exists opp, In opp opps /\
                      ev = EvExecute (opp_strategy opp) (opp_signal opp)) evs /\
  (if raised
   then exists evs' s signal,
       evs = evs' ++ [EvExecute s signal] /\
       execute_trade s signal dry_run = Raised /\
       Forall (fun ev => forall s' signal',
                 ev = EvExecute s' signal' ->
                 execute_trade s' signal' dry_run <> Raised) evs'
   else Forall (fun ev => forall s' signal',
                  ev = EvExecute s' signal' ->
                  execute_trade s' signal' dry_run <> Raised) evs).
Proof.
  induction keys as [|k rest IH]; simpl; [by repeat split|].
  pose proof (execute_for_key_trace o dry_run k opps) as Hk.
  destruct (execute_for_key o dry_run k opps) as [[evs trades] raised].
  destruct Hk as (Ht & Hl & Hin & Hr).
  destruct raised; [repeat split; try done; lia|].
  destruct (execute_phase o dry_run rest opps) as [[evs' trades'] raised'].
  destruct IH as (Ht' & Hl' & Hin' & Hr').
  rewrite length_app. split; [lia|]. split; [lia|].
  split; [by apply Forall_app|].
  destruct raised'.
  - destruct Hr' as (pre & s & signal & -> & Hs & Hpre).
    exists (evs ++ pre), s, signal. rewrite app_assoc.
    repeat split; [done|]. by apply Forall_app.
  - by apply Forall_app.
Qed.

Lemma priority_order_NoDup : NoDup priority_order.
Proof.
  unfold priority_order. repeat (apply NoDup_cons; split);
    [| | | |apply NoDup_nil_2];
    rewrite ?elem_of_cons, ?elem_of_nil; intros H;
    repeat (destruct H as [H|H]; [discriminate|]); done.
Qed.

Lemma scanned_scans strats : scanned (map EvScan strats) = strats.
Proof. induction strats; simpl; [done|]. unfold scanned in *. simpl. by f_equal. Qed.

Lemma monitored_monitors strats : monitored (map EvMonitor strats) = strats.
Proof. induction strats; simpl; [done|]. unfold monitored in *. simpl. by f_equal. Qed.

Lemma scanned_none tr :
  Forall (fun ev => forall s, ev <> EvScan s) tr -> scanned tr = [].
Proof.
  induction 1 as [|ev tr Hev _ IH]; [done|]. unfold scanned in *. simpl.
  destruct ev; [by destruct (Hev s)|done..].
Qed.

Lemma monitored_none tr :
  Forall (fun ev => forall s, ev <> EvMonitor s) tr -> monitored tr = [].
Proof.
  induction 1 as [|ev tr Hev _ IH]; [done|]. unfold monitored in *. simpl.
  destruct ev; [done..|by destruct (Hev s)].
Qed.

Lemma executed_length tr : (length (executed tr) <= length tr)%nat.
Proof.
  induction tr as [|ev tr IH]; simpl; [done|]. unfold executed in *. simpl.
  destruct ev; simpl; lia.
Qed.

Lemma executed_none tr :
  Forall (fun ev => forall s signal, ev <> EvExecute s signal) tr ->
  executed tr = [].
Proof.
  induction 1 as [|ev tr Hev _ IH]; [done|]. unfold executed in *. simpl.
  destruct ev; [done|by destruct (Hev s signal)|done].
Qed.

(** X21. A cycle calls only strategies of the orchestrator that are
    enabled. It scans each of them once, in the order of the list, and
    counts them in [strategies_active]. When no [execute_trade] of the
    cycle raises it monitors each of them once, in the same order; when
    one raises it monitors none. *)
Theorem cycle_calls_enabled_strategies o dry_run :
  let enabled_ones := List.filter is_enabled (strategies o) in
  let '(stats, tr) := run_cycle o dry_run in
  scanned tr = enabled_ones /\
  strategies_active stats = length enabled_ones /\
  monitored tr = (if raises_in dry_run tr then [] else enabled_ones) /\
  Forall (fun ev => In (event_strategy ev) enabled_ones) tr.
Proof.
  unfold run_cycle.
  pose proof (scan_phase_trace (strategies o)) as Hscan.
  destruct (scan_phase (strategies o)) as [[scans opps] active].
  destruct Hscan as (-> & -> & Hlen & Hopps).
  pose proof (execute_phase_trace o dry_run opps priority_order) as Hexec.
  destruct (OrchestratorTheory.execute_phase_raised o dry_run opps
              priority_order) as [Hflag _].
  destruct (execute_phase o dry_run priority_order opps)
    as [[execs trades] raised].
  destruct Hexec as (_ & _ & Hin & _). simpl in Hflag.
  assert (raises_in dry_run
            (map EvScan (List.filter is_enabled (strategies o))) = false)
    as Hrs.
  { apply OrchestratorTheory.raises_in_other, Forall_forall.
    intros ev (s & -> & _)%list_elem_of_fmap. by left. }
  assert (raises_in dry_run
            (map EvMonitor (List.filter is_enabled (strategies o))) = false)
    as Hrm.
  { apply OrchestratorTheory.raises_in_other, Forall_forall.
    intros ev (s & -> & _)%list_elem_of_fmap. by right. }
  assert (Forall (fun ev => forall s, ev <> EvScan s) execs) as Hns.
  { eapply Forall_impl; [exact Hin|]. simpl. by intros ev (opp & _ & ->) s. }
  assert (Forall (fun ev => forall s, ev <> EvMonitor s) execs) as Hnm.
  { eapply Forall_impl; [exact Hin|]. simpl. by intros ev (opp & _ & ->) s. }
  assert (Forall (fun ev => forall s, ev <> EvMonitor s)
                 (map EvScan (List.filter is_enabled (strategies o)))) as Hsm.
  { apply Forall_forall. by intros ev (s & -> & _)%list_elem_of_fmap s'. }
  assert (Forall (fun ev => forall s, ev <> EvScan s)
                 (map EvMonitor (List.filter is_enabled (strategies o)))) as Hms.
  { apply Forall_forall. by intros ev (s & -> & _)%list_elem_of_fmap s'. }
  assert (Forall (fun ev => In (event_strategy ev)
                              (List.filter is_enabled (strategies o)))
                 (map EvScan (List.filter is_enabled (strategies o)))) as Hs.
  { apply Forall_forall. intros ev (s & -> & Hs)%list_elem_of_fmap. simpl.
    by apply list_elem_of_In. }
  assert (Forall (fun ev => In (event_strategy ev)
                              (List.filter is_enabled (strategies o)))
                 (map EvMonitor (List.filter is_enabled (strategies o)))) as Hm.
  { apply Forall_forall. intros ev (s & -> & Hs')%list_elem_of_fmap. simpl.
    by apply list_elem_of_In. }
  assert (Forall (fun ev => In (event_strategy ev)
                              (List.filter is_enabled (strategies o))) execs)
    as He.
  { rewrite Forall_forall in Hopps. eapply Forall_impl; [exact Hin|]. simpl.
    intros ev (opp & Hopp & ->). simpl. apply filter_In.
    apply Hopps. by apply list_elem_of_In. }
  destruct raised.
  - cbv zeta. simpl. rewrite scanned_app, monitored_app, scanned_scans.
    rewrite (scanned_none execs Hns), (monitored_none execs Hnm).
    rewrite (monitored_none _ Hsm), app_nil_r.
    rewrite OrchestratorTheory.raises_in_app, Hrs, <- Hflag.
    split; [done|]. split; [done|]. split; [done|]. by apply Forall_app.
  - pose proof (monitor_phase_trace dry_run (strategies o)) as Hmon.
    destruct (monitor_phase dry_run (strategies o)) as [monitors closed].
    simpl in Hmon. subst monitors. cbv zeta. simpl.
    rewrite !scanned_app, !monitored_app, scanned_scans, monitored_monitors.
    rewrite (scanned_none execs Hns), (monitored_none execs Hnm).
    rewrite (monitored_none _ Hsm), (scanned_none _ Hms), app_nil_r.
    rewrite !OrchestratorTheory.raises_in_app, Hrs, Hrm, <- Hflag.
    split; [done|]. split; [done|]. split; [done|].
    apply Forall_app. split; [done|]. by apply Forall_app.
Qed.

(** X22. An [execute_trade] that raises is the last call of its cycle:
    no later opportunity is executed, no strategy is monitored, and the
    cycle reports no closed position. *)
Theorem raising_execute_ends_the_cycle o dry_run i s signal :
  (run_cycle o dry_run).2 !! i = Some (EvExecute s signal) ->
  execute_trade s signal dry_run = Raised ->
  S i = length (run_cycle o dry_run).2 /\
  monitored (run_cycle o dry_run).2 = [] /\
  positions_closed (run_cycle o dry_run).1 = 0%nat.
Proof.
  unfold run_cycle.
  pose proof (scan_phase_trace (strategies o)) as Hscan.
  destruct (scan_phase (strategies o)) as [[scans opps] active].
  destruct Hscan as (-> & _).
  pose proof (execute_phase_trace o dry_run opps priority_order) as Hexec.
  destruct (execute_phase o dry_run priority_order opps)
    as [[execs trades] raised].
  destruct Hexec as (_ & _ & Hin & Hr).
  set (scans := map EvScan (List.filter is_enabled (strategies o))) in *.
  assert (forall j, scans !! j <> Some (EvExecute s signal)) as Hscans.
  { intros j Hj. apply list_elem_of_lookup_2 in Hj.
    by apply list_elem_of_fmap in Hj as (? & ? & _). }
  destruct raised.
  - simpl. intros Hi Hraise.
    destruct Hr as (pre & s0 & signal0 & -> & Hs0 & Hpre).
    assert (Forall (fun ev => forall s, ev <> EvMonitor s)
                   (scans ++ pre ++ [EvExecute s0 signal0])) as Hnm.
    { apply Forall_app. split.
      - apply Forall_forall. by intros ev (? & -> & _)%list_elem_of_fmap ?.
      - eapply Forall_impl; [exact Hin|]. simpl.
        by intros ev (opp & _ & ->) ?. }
    split; [|split; [by apply monitored_none|done]].
    rewrite !length_app. simpl.
    destruct (decide (i < length scans)%nat) as [Hlt|Hge].
    { rewrite lookup_app_l in Hi by done. by destruct (Hscans i). }
    rewrite lookup_app_r in Hi by lia.
    destruct (decide (i - length scans < length pre)%nat) as [Hlt'|Hge'].
    { rewrite lookup_app_l in Hi by done.
      rewrite Forall_forall in Hpre.
      destruct (Hpre _ (list_elem_of_lookup_2 _ _ _ Hi) s signal eq_refl Hraise). }
    rewrite lookup_app_r in Hi by lia.
    destruct (i - length scans - length pre)%nat as [|n] eqn:E;
      [lia|by rewrite lookup_cons, lookup_nil in Hi].
  - pose proof (monitor_phase_trace dry_run (strategies o)) as Hmon.
    destruct (monitor_phase dry_run (strategies o)) as [monitors closed].
    simpl in Hmon. subst monitors. simpl. intros Hi Hraise. exfalso.
    destruct (decide (i < length scans)%nat) as [Hlt|Hge].
    { rewrite lookup_app_l in Hi by done. by destruct (Hscans i). }
    rewrite lookup_app_r in Hi by lia.
    destruct (decide (i - length scans < length execs)%nat) as [Hlt'|Hge'].
    { rewrite lookup_app_l in Hi by done.
      rewrite Forall_forall in Hr.
      destruct (Hr _ (list_elem_of_lookup_2 _ _ _ Hi) s signal eq_refl Hraise). }
    rewrite lookup_app_r in Hi by lia.
    apply list_elem_of_lookup_2 in Hi.
    by apply list_elem_of_fmap in Hi as (? & ? & _).
Qed.

Lemma raising_execute_ends_the_cycle_witness :
  S 2 = length (run_cycle with_failure false).2 /\
  monitored (run_cycle with_failure false).2 = [] /\
  positions_closed (run_cycle with_failure false).1 = 0%nat.
Proof.
  apply (raising_execute_ends_the_cycle with_failure false 2 failing_strategy
           "latency-signal"); reflexivity.
Defined.

(** X23. The counters of a cycle are ordered: the trades counted are at
    most the [execute_trade] calls made, these at most the opportunities
    found, these at most the strategies asked, and these at most the
    strategies of the orchestrator. *)
Theorem cycle_counters_are_ordered o dry_run :
  let '(stats, tr) := run_cycle o dry_run in
  (trades_executed stats <= length (executed tr)
   <= opportunities_found stats)%nat /\
  (opportunities_found stats <= strategies_active stats
   <= length (strategies o))%nat.
Proof.
  unfold run_cycle.
  pose proof (scan_phase_trace (strategies o)) as Hscan.
  destruct (scan_phase (strategies o)) as [[scans opps] active].
  destruct Hscan as (-> & -> & Hlen & _).
  pose proof (execute_phase_trace o dry_run opps priority_order) as Hexec.
  pose proof (matching_keys_bounded priority_order opps priority_order_NoDup)
    as Hkeys.
  destruct (execute_phase o dry_run priority_order opps)
    as [[execs trades] raised].
  destruct Hexec as (Ht & Hl & Hin & _).
  pose proof (filter_length is_enabled (strategies o)) as Hfl.
  assert (length (executed execs) = length execs) as Hee.
  { clear -Hin. induction Hin as [|ev evs (opp & _ & ->) _ IH]; [done|].
    change (executed (EvExecute (opp_strategy opp) (opp_signal opp) :: evs))
      with ((opp_strategy opp, opp_signal opp) :: executed evs).
    simpl. by rewrite IH. }
  assert (executed (map EvScan (List.filter is_enabled (strategies o))) = [])
    as Hes.
  { apply executed_none, Forall_forall.
    by intros ev (? & -> & _)%list_elem_of_fmap ? ?. }
  destruct raised.
  - simpl. rewrite executed_app, Hes. simpl. lia.
  - pose proof (monitor_phase_trace dry_run (strategies o)) as Hmon.
    destruct (monitor_phase dry_run (strategies o)) as [monitors closed].
    simpl in Hmon. subst monitors. simpl.
    rewrite !executed_app, Hes.
    rewrite (executed_none (map EvMonitor _)).
    + rewrite app_nil_r. simpl. lia.
    + apply Forall_forall. by intros ev (? & -> & _)%list_elem_of_fmap ? ?.
Qed.


(** The loop of [_allocate_capital], from any orchestrator, over any list
    of strategies. *)
Lemma allocate_loop (allocation : gmap string Q) (l : list Strategy) : forall o,
  let o' :=
    foldl (fun o s =>
             let strategy_key := _get_strategy_key s in
             match allocation !! strategy_key with
             | Some fraction =>
                 mkOrchestrator (total_capital o) (strategies o)
                   (<[strategy_key := (total_capital o * fraction)%Q]>
                      (capital_allocated o))
             | None => o
             end) o l in
  total_capital o' = total_capital o /\
  strategies o' = strategies o /\
  forall k,
    capital_allocated o' !! k
    = match allocation !! k with
      | Some fraction =>
          if existsb (fun s => String.eqb (_get_strategy_key s) k) l
          then Some (total_capital o * fraction)%Q
          else capital_allocated o !! k
      | None => capital_allocated o !! k
      end.
Proof.
  induction l as [|s rest IH]; intros o; simpl.
  - split; [done|]. split; [done|]. intros k. by destruct (allocation !! k).
  - destruct (allocation !! _get_strategy_key s) as [fraction|] eqn:Hs.
    + destruct (IH (mkOrchestrator (total_capital o) (strategies o)
                      (<[_get_strategy_key s := (total_capital o * fraction)%Q]>
                         (capital_allocated o)))) as (Hc & Hst & Hk).
      simpl in Hc, Hst, Hk. split; [done|]. split; [done|]. intros k.
      rewrite Hk. destruct (allocation !! k) as [f|] eqn:Hf.
      * destruct (String.eqb_spec (_get_strategy_key s) k) as [Heq|Hne]; simpl.
        -- rewrite Heq in *. rewrite lookup_insert_eq.
           assert (fraction = f) as -> by congruence.
           by destruct (existsb _ rest).
        -- by rewrite lookup_insert_ne.
      * rewrite lookup_insert_ne; [done|]. intros Heq. congruence.
    + destruct (IH o) as (Hc & Hst & Hk). split; [done|]. split; [done|].
      intros k. rewrite Hk. destruct (allocation !! k) as [f|] eqn:Hf; [|done].
      destruct (String.eqb_spec (_get_strategy_key s) k) as [Heq|Hne];
        [congruence|done].
Qed.

(** X24. After [__init__] the allocated capital holds exactly the keys
    of the allocation table that are the key of some strategy, each with
    the total capital times its fraction; the capital and the strategies
    are as given. *)
Theorem capital_follows_allocation_table capital strats
    (allocation : gmap string Q) :
  let o := init capital strats allocation in
  total_capital o = capital /\
  strategies o = strats /\
  forall k,
    capital_allocated o !! k
    = if existsb (fun s => String.eqb (_get_strategy_key s) k) strats
      then (fun fraction => (capital * fraction)%Q) <$> allocation !! k
      else None.
Proof.
  unfold init, _allocate_capital. simpl.
  destruct (allocate_loop allocation strats (mkOrchestrator capital strats ∅))
    as (Hc & Hst & Hk).
  simpl in Hc, Hst, Hk. split; [done|]. split; [done|]. intros k.
  rewrite Hk, lookup_empty.
  destruct (allocation !! k); simpl; by destruct (existsb _ strats).
Qed.

End OrchestratorFacts.

(* ================================================================== *)
(** ** Properties of the bot that drives the components *)
(* ================================================================== *)

Module BotV2Facts.
Import BotV2.

(** A latency sample leaves an open circuit as it is. *)
Lemma record_latency_open name latency_ms p :
  Pool.state p = Pool.CIRCUIT_OPEN ->
  Pool.state (Pool.record_latency name latency_ms p) = Pool.CIRCUIT_OPEN /\
  Pool.error_count (Pool.record_latency name latency_ms p)
  = Pool.error_count p /\
  Pool.circuit_opened_at (Pool.record_latency name latency_ms p)
  = Pool.circuit_opened_at p.
Proof.
  intros Hopen. unfold Pool.record_latency.
  destruct (Pool.connections p !! name) as [c|]; [|done].
  destruct (Pool.avg_above _ _); simpl; [|done].
  rewrite Hopen. by simpl.
Qed.

Lemma turn_open t p :
  Pool.state p = Pool.CIRCUIT_OPEN ->
  (turn t p).2 = 0%nat /\
  Pool.state (turn t p).1 = Pool.CIRCUIT_OPEN /\
  Pool.error_count (turn t p).1 = Pool.error_count p /\
  Pool.circuit_opened_at (turn t p).1 = Pool.circuit_opened_at p.
Proof.
  intros Hopen. destruct t as [tasks|avg_latency]; simpl.
  - unfold _strategy_execution_turn, Pool.can_execute. rewrite Hopen.
    by simpl.
  - split; [done|]. unfold _health_monitoring_turn.
    destruct (0 <? avg_latency); [|done].
    by apply record_latency_open.
Qed.

(** X25. Once the circuit is open, the loops of the bot never close it:
    the execution loop starts no task, so that no call records a success
    or an error, and the health loop records latencies only. The state,
    the error count and the opening time stay as they are, whatever the
    clock. *)
Theorem open_circuit_stops_the_bot turns p :
  Pool.state p = Pool.CIRCUIT_OPEN ->
  (run turns p).2 = 0%nat /\
  Pool.can_execute (run turns p).1 = false /\
  Pool.error_count (run turns p).1 = Pool.error_count p /\
  Pool.circuit_opened_at (run turns p).1 = Pool.circuit_opened_at p.
Proof.
  revert p. induction turns as [|t rest IH]; intros p Hopen; simpl.
  - unfold Pool.can_execute. by rewrite Hopen.
  - destruct (turn_open t p Hopen) as (Hn & Hs & He & Ht).
    destruct (turn t p) as [p1 started]. simpl in *.
    destruct (IH p1 Hs) as (Hn' & Hs' & He' & Ht').
    destruct (run rest p1) as [p2 started']. simpl in *.
    subst. repeat split; try done; congruence.
Qed.

Lemma open_circuit_stops_the_bot_witness :
  (run [StrategyExecution [filling_task 1000000]; HealthMonitoring 10;
        StrategyExecution [filling_task 2000000]] Pool.tripped).2 = 0%nat /\
  Pool.can_execute
    (run [StrategyExecution [filling_task 1000000]; HealthMonitoring 10;
          StrategyExecution [filling_task 2000000]] Pool.tripped).1 = false /\
  Pool.error_count
    (run [StrategyExecution [filling_task 1000000]; HealthMonitoring 10;
          StrategyExecution [filling_task 2000000]] Pool.tripped).1
  = Pool.error_count Pool.tripped /\
  Pool.circuit_opened_at
    (run [StrategyExecution [filling_task 1000000]; HealthMonitoring 10;
          StrategyExecution [filling_task 2000000]] Pool.tripped).1
  = Pool.circuit_opened_at Pool.tripped.
Proof.
  apply (open_circuit_stops_the_bot
           [StrategyExecution [filling_task 1000000]; HealthMonitoring 10;
            StrategyExecution [filling_task 2000000]] Pool.tripped).
  reflexivity.
Defined.


Lemma record_error_unregistered name now p :
  Pool.connections p !! name = None ->
  Pool.connections (Pool.record_error name now p) = Pool.connections p.
Proof.
  intros Hn. unfold Pool.record_error. rewrite Hn.
  destruct (_ <=? _).
  - destruct (PoolFacts._open_circuit_keeps now
                (Pool._update_state now
                   (Pool.set_error_count (Pool.error_count p + 1) p)))
      as (_ & _ & _ & _ & ->).
    by rewrite PoolFacts._update_state_connections.
  - by rewrite PoolFacts._update_state_connections.
Qed.

Lemma record_success_unregistered name now p :
  Pool.connections p !! name = None ->
  Pool.connections (Pool.record_success name now p) = Pool.connections p.
Proof.
  intros Hn. unfold Pool.record_success. rewrite Hn.
  rewrite PoolFacts._update_state_connections. by destruct (0 <? _).
Qed.

Lemma _execute_strategy_on_market_connections t p :
  Pool.connections p !! "strategy_execution"%string = None ->
  Pool.connections (_execute_strategy_on_market t p) = Pool.connections p.
Proof.
  intros Hn. unfold _execute_strategy_on_market.
  destruct (at_capacity t); [done|].
  destruct (analysis t) as [[signal|]|];
    [|done|by apply record_error_unregistered].
  destruct (execute_trade t signal) as [[position_id|]|];
    [by apply record_success_unregistered|done
    |by apply record_error_unregistered].
Qed.

Lemma tasks_connections tasks : forall p,
  Pool.connections p !! "strategy_execution"%string = None ->
  Pool.connections (foldl (fun p t => _execute_strategy_on_market t p) p tasks)
  = Pool.connections p.
Proof.
  induction tasks as [|t rest IH]; intros p Hn; [done|]. simpl.
  rewrite IH; rewrite _execute_strategy_on_market_connections; done.
Qed.

Lemma turn_entries_untouched t1 t2 t p :
  entries_untouched t1 t2 p -> entries_untouched t1 t2 (turn t p).1.
Proof.
  intros [Hn Hall]. destruct t as [tasks|avg_latency]; simpl.
  - unfold _strategy_execution_turn.
    destruct (negb (Pool.can_execute p)); simpl; [done|].
    unfold entries_untouched. by rewrite tasks_connections.
  - unfold _health_monitoring_turn. destruct (0 <? avg_latency); [|done].
    unfold Pool.record_latency.
    destruct (Pool.connections p !! "websocket"%string) as [c|] eqn:Hc;
      [|done].
    destruct (Hall _ _ Hc) as (He & Hl & Hreg).
    assert (Pool.registered_at c = t1) as Ht1.
    { by destruct Hreg as [[_ ?]|[? _]]. }
    set (samples := if (100 <? _)%nat then _ else _).
    assert (entries_untouched t1 t2
              (Pool.set_connections
                 (<["websocket"%string :=
                      Pool.mkConn (Pool.registered_at c) (Pool.last_check c)
                        (Pool.conn_error_count c) (Some samples)]>
                    (Pool.connections p)) p)) as H.
    { split; simpl.
      - by rewrite lookup_insert_ne.
      - intros name c' Hc'.
        destruct (decide (name = "websocket"%string)) as [->|Hne].
        + rewrite lookup_insert_eq in Hc'. injection Hc' as <-. simpl.
          split; [done|]. split; [done|]. by left.
        + rewrite lookup_insert_ne in Hc' by done. by apply Hall. }
    destruct (Pool.avg_above _ _); [|done].
    by destruct (Pool.state_eqb _ _).
Qed.

Lemma run_entries_untouched t1 t2 turns : forall p,
  entries_untouched t1 t2 p -> entries_untouched t1 t2 (run turns p).1.
Proof.
  induction turns as [|t rest IH]; intros p Hp; [done|]. simpl.
  pose proof (turn_entries_untouched t1 t2 t p Hp) as H1.
  destruct (turn t p) as [p1 started]. simpl in H1.
  specialize (IH p1 H1). by destruct (run rest p1).
Qed.

Lemma init_pool_entries_untouched t1 t2 :
  entries_untouched t1 t2 (init_pool t1 t2).
Proof.
  split; [done|]. intros name c. unfold init_pool. simpl.
  destruct (decide (name = "market_scanner"%string)) as [->|Hne].
  { rewrite lookup_insert_eq. intros [= <-]. simpl.
    split; [done|]. split; [done|]. by right. }
  rewrite lookup_insert_ne by done.
  destruct (decide (name = "websocket"%string)) as [->|Hne'].
  { rewrite lookup_insert_eq. intros [= <-]. simpl.
    split; [done|]. split; [done|]. by left. }
  by rewrite lookup_insert_ne, lookup_empty.
Qed.

(** X26. The bot records every success and error under the name
    ["strategy_execution"], which it never registers. So whatever its
    loops do, the entries of the two registered connections keep an error
    count of zero and the [last_check] and [registered_at] of their
    registration: only the global error count moves. *)
Theorem bot_records_under_unregistered_name t1 t2 turns name c :
  Pool.connections (run turns (init_pool t1 t2)).1 !! name = Some c ->
  name <> "strategy_execution"%string /\
  Pool.conn_error_count c = 0 /\ Pool.last_check c = 0 /\
  (Pool.registered_at c = t1 \/ Pool.registered_at c = t2).
Proof.
  intros Hc.
  destruct (run_entries_untouched t1 t2 turns _
              (init_pool_entries_untouched t1 t2)) as [Hn Hall].
  destruct (Hall _ _ Hc) as (He & Hl & Hreg).
  split; [congruence|]. split; [done|]. split; [done|].
  destruct Hreg as [[_ ?]|[_ [? _]]]; auto.
Qed.

Lemma bot_records_under_unregistered_name_witness :
  "websocket"%string <> "strategy_execution"%string /\
  Pool.conn_error_count (Pool.mkConn 7 0 0 (Some [300])) = 0 /\
  Pool.last_check (Pool.mkConn 7 0 0 (Some [300])) = 0 /\
  (Pool.registered_at (Pool.mkConn 7 0 0 (Some [300])) = 7 \/
   Pool.registered_at (Pool.mkConn 7 0 0 (Some [300])) = 8).
Proof.
  apply (bot_records_under_unregistered_name 7 8
           [StrategyExecution [failing_task 10; filling_task 11];
            HealthMonitoring 300; StrategyExecution [failing_task 12]]
           "websocket" (Pool.mkConn 7 0 0 (Some [300]))).
  reflexivity.
Defined.


(** What the subscription loop of a discovery turn subscribes, over any
    list of markets. *)
Lemma discovery_loop_subscribed sc (markets : list Scanner.Market) t :
  forall w,
  t ∈ WsManager.subscribed_markets
        (foldl (fun w market =>
                  match Scanner.get_market_tokens sc (Scanner.id market) with
                  | Some (yes_token, no_token) =>
                      WsManager.subscribe_market no_token
                        (WsManager.subscribe_market yes_token w)
                  | None => w
                  end) w markets) <->
  t ∈ WsManager.subscribed_markets w \/
  exists market toks,
    market ∈ markets /\
    Scanner.get_market_tokens sc (Scanner.id market) = Some toks /\
    t ∈ pair_tokens toks.
Proof.
  induction markets as [|m rest IH]; intros w; simpl.
  - split; [by left|]. intros [?|(market & toks & Hin & _)]; [done|].
    by apply elem_of_nil in Hin.
  - rewrite IH. clear IH.
    destruct (Scanner.get_market_tokens sc (Scanner.id m))
      as [[yes_token no_token]|] eqn:Hm.
    + rewrite !WsManagerTheory.subscribe_market_adds.
      rewrite !elem_of_union, !elem_of_singleton. split.
      * intros [[->|[->|?]]|(market & toks & Hin & Htoks & Ht)].
        -- right. exists m, (yes_token, no_token).
           split; [by apply elem_of_cons; left|]. split; [done|].
           unfold pair_tokens. simpl.
           rewrite elem_of_union, !elem_of_singleton. by right.
        -- right. exists m, (yes_token, no_token).
           split; [by apply elem_of_cons; left|]. split; [done|].
           unfold pair_tokens. simpl.
           rewrite elem_of_union, !elem_of_singleton. by left.
        -- by left.
        -- right. exists market, toks.
           split; [by apply elem_of_cons; right|done].
      * intros [?|(market & toks & Hin & Htoks & Ht)]; [by auto|].
        apply elem_of_cons in Hin as [->|Hin].
        -- rewrite Hm in Htoks. injection Htoks as <-.
           unfold pair_tokens in Ht. simpl in Ht.
           rewrite elem_of_union, !elem_of_singleton in Ht.
           destruct Ht as [->| ->]; auto.
        -- right. by exists market, toks.
    + split.
      * intros [?|(market & toks & Hin & Htoks & Ht)]; [by left|].
        right. exists market, toks. split; [by apply elem_of_cons; right|done].
      * intros [?|(market & toks & Hin & Htoks & Ht)]; [by left|].
        apply elem_of_cons in Hin as [->|Hin]; [congruence|].
        right. by exists market, toks.
Qed.

(** X27. After a turn of the market discovery loop, the subscriptions
    of the websocket manager are those it had before together with both
    tokens of every market that the scanner holds: the turn subscribes all
    of them and unsubscribes nothing, so that the tokens of a market that
    the scanner has dropped since stay subscribed. *)
Theorem discovery_subscribes_registered_tokens fromisoformat
    kws excl maxm interval min_time calls w t :
  let sc := Scanner.run fromisoformat calls
              (Scanner.init kws excl maxm interval min_time) in
  t ∈ WsManager.subscribed_markets (_market_discovery_turn sc w) <->
  t ∈ WsManager.subscribed_markets w \/
  exists market_id toks,
    Scanner.get_market_tokens sc market_id = Some toks /\
    t ∈ pair_tokens toks.
Proof.
  intros sc. unfold _market_discovery_turn.
  rewrite discovery_loop_subscribed.
  assert (Scanner.well_registered sc) as Hwell.
  { apply ScannerFacts.run_well_registered,
      ScannerFacts.init_well_registered. }
  assert (Scanner.paired sc) as Hpaired.
  { apply ScannerTheory.run_paired. unfold Scanner.paired. simpl.
    by rewrite !dom_empty_L. }
  split; (intros [?|H]; [by left|right]).
  - destruct H as (market & toks & _ & Htoks & Ht).
    by exists (Scanner.id market), toks.
  - destruct H as (market_id & toks & Htoks & Ht).
    unfold Scanner.get_market_tokens in Htoks.
    assert (market_id ∈ dom (Scanner.active_markets sc)) as Hdom.
    { rewrite Hpaired. apply elem_of_dom. by eexists. }
    apply elem_of_dom in Hdom as [market Hmarket].
    destruct (Hwell _ _ Hmarket) as (Hid & _).
    exists market, toks. split; [|by rewrite Hid].
    unfold Scanner.get_active_markets.
    apply list_elem_of_fmap. exists (market_id, market).
    split; [done|]. by apply elem_of_map_to_list.
Qed.

End BotV2Facts.

(* ================================================================== *)
(** ** Properties of the latency arbitrage strategy *)
(* ================================================================== *)

Module LatencyArbFacts.
Import LatencyArb.

(** What a scan does to the detector, and when it can answer. *)
Lemma scan_opportunities_detector market_scanner r s :
  let '(o, s1) := scan_opportunities market_scanner r s in
  (ready r s = false /\ o = None /\ spike_detector s1 = spike_detector s) \/
  (ready r s = true /\
   spike_detector s1
   = (Spike.detect_spike (t_check r) (t_record r) (spike_detector s)).2 /\
   (o <> None ->
    exists ev,
      (Spike.detect_spike (t_check r) (t_record r) (spike_detector s)).1
      = Returned (Some ev))).
Proof.
  unfold scan_opportunities, ready.
  assert (spike_detector (_reset_daily_limits_if_needed (current_day r) s)
          = spike_detector s) as Hd.
  { unfold _reset_daily_limits_if_needed. by destruct (negb _). }
  set (s0 := _reset_daily_limits_if_needed (current_day r) s) in *.
  destruct (LATENCY_DAILY_TRADE_LIMIT <=? daily_trades s0); simpl;
    [by left|].
  destruct (Qle_bool LATENCY_DAILY_LOSS_LIMIT (daily_loss s0)); simpl;
    [by left|].
  destruct (is_connected r); simpl; [|by left].
  rewrite Hd.
  destruct (Spike.detect_spike (t_check r) (t_record r) (spike_detector s))
    as [[[ev|]|] d]; simpl; [|by right..].
  destruct market_scanner as [active_markets|].
  - destruct (List.find is_btc active_markets) as [btc_market|]; simpl;
      right; (split; [done|]); (split; [done|]); eauto.
  - destruct (current_btc_market s0) as [m|] eqn:Hm; simpl.
    + destruct (60 <? _); simpl.
      * destruct (monitor_market r); simpl;
          right; (split; [done|]); (split; [done|]); eauto.
      * rewrite Hm. right. split; [done|]. split; [done|]. eauto.
    + destruct (monitor_market r); simpl;
        right; (split; [done|]); (split; [done|]); eauto.
Qed.

(** X28. A spike that [scan_opportunities] detects while the scanner
    holds no BTC market is spent: the scan returns nothing, the detector
    has counted the spike, and no scan whose clock is within the cooldown
    of it returns an opportunity, whatever markets the scanner then
    holds. *)
Theorem spike_without_market_is_spent markets r s :
  ready r s = true ->
  Spike.emits (t_check r) (t_record r) (spike_detector s) ->
  List.find is_btc markets = None ->
  (scan_opportunities (Some markets) r s).1 = None /\
  Spike.spike_count (spike_detector (scan_opportunities (Some markets) r s).2)
  = S (Spike.spike_count (spike_detector s)) /\
  forall market_scanner' r',
    t_check r' - t_record r < Spike.cooldown_seconds (spike_detector s) ->
    (scan_opportunities market_scanner' r'
       (scan_opportunities (Some markets) r s).2).1 = None.
Proof.
  intros Hready [ev Hev] Hfind.
  pose proof (scan_opportunities_detector (Some markets) r s) as H.
  destruct (scan_opportunities (Some markets) r s) as [o s1] eqn:Hscan.
  simpl. destruct H as [(Hr & _)|(_ & Hd & _)];
    [by rewrite Hready in Hr|].
  assert (o = None) as ->.
  { revert Hscan. unfold scan_opportunities. unfold ready in Hready.
    set (s0 := _reset_daily_limits_if_needed (current_day r) s) in *.
    destruct (LATENCY_DAILY_TRADE_LIMIT <=? daily_trades s0); [done|].
    destruct (Qle_bool LATENCY_DAILY_LOSS_LIMIT (daily_loss s0)); [done|].
    destruct (is_connected r); [simpl|done].
    destruct (Spike.detect_spike _ _ (spike_detector s0)) as [[[?|]|] ?];
      simpl; [|by intros [= <- _]..].
    rewrite Hfind. by intros [= <- _]. }
  split; [done|].
  destruct (SpikeTheory.detect_spike_state (t_check r) (t_record r)
              (spike_detector s)) as [(ev' & E & _)|(o & E & Ho)].
  2:{ rewrite E in Hev. simpl in Hev. by destruct (Ho ev). }
  rewrite E in Hd. simpl in Hd. rewrite Hd. split; [done|].
  intros market_scanner' r' Hcool.
  pose proof (scan_opportunities_detector market_scanner' r' s1) as H.
  destruct (scan_opportunities market_scanner' r' s1) as [o' s2]. simpl.
  destruct H as [(_ & -> & _)|(_ & _ & Ho')]; [done|].
  destruct o' as [opp|]; [|done]. exfalso.
  destruct (Ho' ltac:(done)) as [ev'' Hev''].
  revert Hev''. rewrite Hd. unfold Spike.detect_spike. simpl.
  destruct (Z.ltb_spec (t_check r' - t_record r)
              (Spike.cooldown_seconds (spike_detector s))); [done|lia].
Qed.

Lemma spike_without_market_is_spent_witness :
  (scan_opportunities (Some []) (readings 1005) primed).1 = None /\
  Spike.spike_count
    (spike_detector (scan_opportunities (Some []) (readings 1005) primed).2)
  = S (Spike.spike_count (spike_detector primed)) /\
  forall market_scanner' r',
    t_check r' - t_record (readings 1005)
    < Spike.cooldown_seconds (spike_detector primed) ->
    (scan_opportunities market_scanner' r'
       (scan_opportunities (Some []) (readings 1005) primed).2).1 = None.
Proof.
  apply (spike_without_market_is_spent [] (readings 1005) primed).
  - reflexivity.
  - eexists. reflexivity.
  - reflexivity.
Defined.

Lemma detect_spike_count t_check t_record d :
  let '(o, d') := Spike.detect_spike t_check t_record d in
  Spike.spike_count d'
  = ((match o with Returned (Some _) => 1 | _ => 0 end)
     + Spike.spike_count d)%nat.
Proof.
  destruct (SpikeTheory.detect_spike_state t_check t_record d)
    as [(ev & -> & _)|(o & -> & Ho)]; [done|].
  destruct o as [[ev|]|]; [by destruct (Ho ev)|done..].
Qed.

(** X29. Over any run of price updates and scans, the opportunities
    returned are at most the spikes that the detector has counted during
    the run: every opportunity spends a spike of its own. *)
Theorem opportunities_at_most_spikes calls s :
  let '(s', n) := run calls s in
  (Spike.spike_count (spike_detector s) + n
   <= Spike.spike_count (spike_detector s'))%nat.
Proof.
  revert s. induction calls as [|c rest IH]; intros s; simpl; [lia|].
  destruct c as [price now|market_scanner r].
  - specialize (IH (_on_binance_price_update price now s)).
    destruct (run rest _) as [s' n]. by simpl in IH.
  - pose proof (scan_opportunities_detector market_scanner r s) as H.
    destruct (scan_opportunities market_scanner r s) as [o s1].
    specialize (IH s1). destruct (run rest s1) as [s2 n].
    pose proof (detect_spike_count (t_check r) (t_record r)
                  (spike_detector s)) as Hc.
    destruct (Spike.detect_spike (t_check r) (t_record r) (spike_detector s))
      as [o' d'].
    destruct H as [(_ & -> & E)|(_ & E & Ho)].
    + rewrite E in IH. lia.
    + simpl in E, Ho. rewrite E, Hc in IH.
      destruct o as [opp|]; [|lia].
      destruct (Ho ltac:(done)) as [ev ->]. lia.
Qed.

End LatencyArbFacts.

(* ================================================================== *)
(** ** Properties of the performance tracker *)
(* ================================================================== *)

Module UtilsFacts.
Import Utils.

Section WithFloats.

Variable Float : Type.
Variable zero : Float.
Variable add : Float -> Float -> Float.
Variable sub : Float -> Float -> Float.
Variable abs : Float -> Float.
Variable is_win : Float -> bool.

Local Abbreviation init := (init Float zero).
Local Abbreviation record_trade := (record_trade Float add abs is_win).
Local Abbreviation record_trades := (record_trades Float add abs is_win).
Local Abbreviation net_profit := (net_profit Float sub).
Local Abbreviation accumulate := (accumulate Float add).
Local Abbreviation wins := (wins Float is_win).
Local Abbreviation losses := (losses Float is_win).

(** The trades of a list, on any tracker. *)
Lemma record_trades_accounts profits : forall t,
  let t' := record_trades profits t in
  total_trades t' = total_trades t + Z.of_nat (length profits) /\
  winning_trades t'
  = winning_trades t + Z.of_nat (length (wins profits)) /\
  losing_trades t'
  = losing_trades t + Z.of_nat (length (losses profits)) /\
  total_profit t' = accumulate (total_profit t) (wins profits) /\
  total_loss t' = accumulate (total_loss t) (map abs (losses profits)).
Proof.
  induction profits as [|profit rest IH]; intros t.
  - simpl. repeat split; lia.
  - change (Utils.record_trades Float add abs is_win (profit :: rest) t)
      with (record_trades rest (record_trade profit t)).
    destruct (IH (record_trade profit t)) as (E1 & E2 & E3 & E4 & E5).
    cbv zeta. rewrite E1, E2, E3, E4, E5.
    unfold Utils.record_trade, Utils.wins, Utils.losses. simpl.
    destruct (is_win profit); simpl; repeat split; lia.
Qed.

(** X30. A fresh tracker that has recorded the trades of a list counts
    each of them once, as a win when its profit is above zero and as a
    loss otherwise. Its [total_profit] is the float sum of the winning
    profits, added to [0.0] in the order recorded, its [total_loss] that
    of the absolute values of the other profits, and its [net_profit]
    their float difference. Its win rate lies between 0 and 1. *)
Theorem tracker_accounts_for_every_trade profits :
  let t := record_trades profits init in
  total_trades t = Z.of_nat (length profits) /\
  winning_trades t = Z.of_nat (length (wins profits)) /\
  losing_trades t = Z.of_nat (length (losses profits)) /\
  total_trades t = winning_trades t + losing_trades t /\
  total_profit t = accumulate zero (wins profits) /\
  total_loss t = accumulate zero (map abs (losses profits)) /\
  net_profit t
  = sub (accumulate zero (wins profits))
        (accumulate zero (map abs (losses profits))) /\
  (0 <= win_rate t <= 1)%Q.
Proof.
  destruct (record_trades_accounts profits init)
    as (E1 & E2 & E3 & E4 & E5).
  cbv zeta. simpl in E1, E2, E3, E4, E5.
  assert (length profits
          = (length (wins profits) + length (losses profits))%nat) as Hsplit.
  { unfold Utils.wins, Utils.losses. clear.
    induction profits as [|profit rest IH]; [done|]. simpl.
    destruct (is_win profit); simpl; lia. }
  split; [done|]. split; [done|]. split; [done|]. split; [lia|].
  split; [done|]. split; [done|].
  split; [unfold Utils.net_profit; by rewrite E4, E5|].
  unfold win_rate.
  set (t := record_trades profits init) in *.
  destruct (Z.eqb_spec (total_trades t) 0) as [|Hne]; [done|].
  assert (0 < total_trades t) by lia.
  assert (0 <= winning_trades t <= total_trades t) by lia.
  assert (0 < inject_Z (total_trades t))%Q as Hpos.
  { change 0%Q with (inject_Z 0). by rewrite <- Zlt_Qlt. }
  split.
  - apply Qle_shift_div_l; [done|]. rewrite Qmult_0_l.
    change 0%Q with (inject_Z 0). rewrite <- Zle_Qle. lia.
  - apply Qle_shift_div_r; [done|]. rewrite Qmult_1_l.
    rewrite <- Zle_Qle. lia.
Qed.

End WithFloats.

End UtilsFacts.
